(** * doc2md: the conversion pipeline of TextTools, embedded in Rocq

    JavaScript strings are sequences of UTF-16 code units; they are modelled
    as lists of code units ([N]).  The regular expressions of the source are
    written as abstract syntax and run by a backtracking matcher that follows
    the ECMAScript matching rules (continuations, greedy and lazy
    quantifiers, the empty-iteration check, capture groups, assertions).
    What lies outside the repository (the file system, the clock, the
    console, path, mammoth, turndown and js-yaml) is a parameter of the
    code, the class [Host]. *)

From Stdlib Require Import List NArith ZArith Bool String Ascii Lia Arith.
From Stdlib Require Import DecimalString SpecFloat.
From Stdlib Require DecimalPos DecimalN.
Import ListNotations.


(** ** Text *)

Abbreviation char := N (only parsing).
Abbreviation text := (list N) (only parsing).

(** [js] reads a literal the way JavaScript source does: the escapes
    [\n], [\t], [\r] and [\\] are decoded, every other character of the
    (ASCII) literal stands for its own code unit. *)
Fixpoint js_chars (l : list ascii) : text :=
  match l with
  | [] => []
  | "\"%char :: "n"%char :: l' => 10%N :: js_chars l'
  | "\"%char :: "t"%char :: l' => 9%N :: js_chars l'
  | "\"%char :: "r"%char :: l' => 13%N :: js_chars l'
  | "\"%char :: "\"%char :: l' => 92%N :: js_chars l'
  | a :: l' => N_of_ascii a :: js_chars l'
  end.

Definition js (s : string) : text := js_chars (list_ascii_of_string s).

Definition ch (s : string) : char :=
  match js s with c :: _ => c | [] => 0%N end.

Fixpoint text_eqb (a b : text) : bool :=
  match a, b with
  | [], [] => true
  | x :: a', y :: b' => N.eqb x y && text_eqb a' b'
  | _, _ => false
  end.

(** ** Character classes of ECMAScript *)

Module Chars.
Local Open Scope N_scope.

Definition between (lo hi c : char) : bool := (lo <=? c) && (c <=? hi).

(** LineTerminator: LF, CR, LS, PS. *)
Definition isLineTerminator (c : char) : bool :=
  (c =? 10) || (c =? 13) || (c =? 8232) || (c =? 8233).

(** [\s]: WhiteSpace and LineTerminator. *)
Definition isSpace (c : char) : bool :=
  (c =? 9) || (c =? 10) || (c =? 11) || (c =? 12) || (c =? 13) || (c =? 32)
  || (c =? 160) || (c =? 5760) || between 8192 8202 c
  || (c =? 8232) || (c =? 8233) || (c =? 8239) || (c =? 8287)
  || (c =? 12288) || (c =? 65279).

Definition isDigit (c : char) : bool := between 48 57 c.
Definition isUpper (c : char) : bool := between 65 90 c.
Definition isLower (c : char) : bool := between 97 122 c.

(** [\w]: [A-Za-z0-9_]. *)
Definition isWord (c : char) : bool :=
  isUpper c || isLower c || isDigit c || (c =? 95).

(** [.] without the s flag. *)
Definition isDot (c : char) : bool := negb (isLineTerminator c).

Definition eqc (d : char) (c : char) : bool := c =? d.
Definition neqc (d : char) (c : char) : bool := negb (c =? d).
Definition any (c : char) : bool := true.

(** ASCII [toUpperCase] on one code unit. *)
Definition toUpper (c : char) : char := if isLower c then c - 32 else c.
End Chars.

(** ** Regular expressions *)

Inductive assertion :=
| InputStart      (* ^ without the m flag *)
| LineStart       (* ^ with the m flag *)
| LineEnd         (* $ with the m flag *)
| WordBoundary.   (* \b *)

Inductive regex :=
| Chr (p : char -> bool)
| Seq (r1 r2 : regex)
| Rep (greedy : bool) (min : nat) (max : option nat) (r : regex)
| Grp (i : nat) (r : regex)
| Assert (a : assertion).

(** The matcher state: the code unit before the current position (for the
    assertions), the rest of the input, and the captures made so far. *)
Record mstate := MState {
  prev : option char;
  rest : text;
  caps : list (nat * text)
}.

Definition advance (c : char) (t : text) (x : mstate) : mstate :=
  MState (Some c) t (caps x).

Definition set_cap (i : nat) (v : text) (x : mstate) : mstate :=
  MState (prev x) (rest x)
         ((i, v) :: filter (fun e => negb (Nat.eqb (fst e) i)) (caps x)).

Definition clear_caps (gs : list nat) (x : mstate) : mstate :=
  MState (prev x) (rest x)
         (filter (fun e => negb (existsb (Nat.eqb (fst e)) gs)) (caps x)).

Fixpoint get_cap (i : nat) (cs : list (nat * text)) : option text :=
  match cs with
  | [] => None
  | (j, v) :: cs' => if Nat.eqb j i then Some v else get_cap i cs'
  end.

Fixpoint groups (r : regex) : list nat :=
  match r with
  | Chr _ | Assert _ => []
  | Seq r1 r2 => groups r1 ++ groups r2
  | Rep _ _ _ r' => groups r'
  | Grp i r' => i :: groups r'
  end.

Definition isWordOpt (o : option char) : bool :=
  match o with Some c => Chars.isWord c | None => false end.

Definition isTermOpt (o : option char) : bool :=
  match o with Some c => Chars.isLineTerminator c | None => true end.

Definition check (a : assertion) (x : mstate) : bool :=
  match a with
  | InputStart => match prev x with None => true | Some _ => false end
  | LineStart => isTermOpt (prev x)
  | LineEnd => isTermOpt (hd_error (rest x))
  | WordBoundary => xorb (isWordOpt (prev x)) (isWordOpt (hd_error (rest x)))
  end.

Definition kont := mstate -> option mstate.

(** One step of RepeatMatcher's continuation: an iteration that was allowed
    to be skipped and consumed nothing is rejected. *)
Definition stalled (min : nat) (x y : mstate) : bool :=
  Nat.eqb min 0 && Nat.eqb (List.length (rest y)) (List.length (rest x)).

(** RepeatMatcher.  [body] runs one iteration; the captures of the groups
    inside the quantified atom ([gs]) are reset before each iteration.  The
    loop is bounded by [fuel]; [min] plus the length of the rest of the input
    decreases at every iteration, so [rmatch] starts it with enough. *)
Fixpoint rep_loop (body : kont -> mstate -> option mstate) (gs : list nat)
         (greedy : bool) (k : kont) (fuel min : nat) (max : option nat)
         (x : mstate) {struct fuel} : option mstate :=
  match fuel with
  | O => None
  | S fuel' =>
      match max with
      | Some O => k x
      | _ =>
          let d := fun y =>
            if stalled min x y then None
            else rep_loop body gs greedy k fuel' (Nat.pred min) (option_map Nat.pred max) y in
          let xr := clear_caps gs x in
          if negb (Nat.eqb min 0) then body d xr
          else if greedy then
            match body d xr with
            | Some z => Some z
            | None => k x
            end
          else
            match k x with
            | Some z => Some z
            | None => body d xr
            end
      end
  end.

Fixpoint rmatch (r : regex) (k : kont) (x : mstate) {struct r} : option mstate :=
  match r with
  | Chr p =>
      match rest x with
      | c :: t => if p c then k (advance c t x) else None
      | [] => None
      end
  | Seq r1 r2 => rmatch r1 (fun y => rmatch r2 k y) x
  | Grp i r' =>
      rmatch r'
        (fun y => k (set_cap i
                       (firstn (List.length (rest x) - List.length (rest y)) (rest x)) y))
        x
  | Assert a => if check a x then k x else None
  | Rep greedy min max r' =>
      rep_loop (rmatch r') (groups r') greedy k
               (S (min + List.length (rest x))) min max x
  end.

(** A successful match: the matched text and the captures. *)
Record rmatch_result := MatchResult {
  matched : text;
  captures : list (nat * text)
}.

(** The regular expression tried at one position of the input. *)
Definition exec_at (r : regex) (p : option char) (s : text) : option rmatch_result :=
  match rmatch r (fun y => Some y) (MState p s []) with
  | Some y => Some (MatchResult (firstn (List.length s - List.length (rest y)) s) (caps y))
  | None => None
  end.

(** [search r p s]: the first position at or after the current one where
    [r] matches; returns the text skipped, the match, and what follows it. *)
Fixpoint search (r : regex) (p : option char) (s : text)
  : option (text * rmatch_result * text) :=
  match exec_at r p s with
  | Some m => Some ([], m, skipn (List.length (matched m)) s)
  | None =>
      match s with
      | [] => None
      | c :: t =>
          match search r (Some c) t with
          | Some (pre, m, post) => Some (c :: pre, m, post)
          | None => None
          end
      end
  end.

(** The texts a regular expression can consume, assertions aside: what a
    successful run of [rmatch] has passed over between its start and the call
    of its continuation. *)
Definition count_ok (min : nat) (max : option nat) (n : nat) : Prop :=
  (match max with Some m => (m < min)%nat | None => False end) \/ (min <= n)%nat.

Fixpoint lang (r : regex) (w : text) {struct r} : Prop :=
  match r with
  | Chr p => exists c, w = [c] /\ p c = true
  | Seq r1 r2 => exists w1 w2, w = w1 ++ w2 /\ lang r1 w1 /\ lang r2 w2
  | Rep _ min max r' =>
      exists ws, w = List.concat ws /\ Forall (lang r') ws /\ count_ok min max (List.length ws)
  | Grp _ r' => lang r' w
  | Assert _ => w = []
  end.

(** ** Replacement patterns (GetSubstitution) *)

Definition digit_val (c : char) : nat := N.to_nat (c - 48)%N.

Definition cap_text (i : nat) (m : rmatch_result) : text :=
  match get_cap i (captures m) with Some v => v | None => [] end.

(** The replacement patterns the source uses: [$$], [$&] and [$n].
    [ngroups] is the number of capture groups of the expression (below ten
    here): [$n] is a reference only when [1 <= n <= ngroups], and a group
    that did not take part in the match gives the empty string. *)
Fixpoint substitute (ngroups : nat) (tpl : text) (m : rmatch_result) {struct tpl} : text :=
  match tpl with
  | [] => []
  | c :: tpl' =>
      if negb (c =? 36)%N then c :: substitute ngroups tpl' m
      else
        match tpl' with
        | [] => [c]
        | d :: tpl'' =>
            if (d =? 36)%N then 36%N :: substitute ngroups tpl'' m
            else if (d =? 38)%N then matched m ++ substitute ngroups tpl'' m
            else if Chars.isDigit d && Nat.leb 1 (digit_val d)
                    && Nat.leb (digit_val d) ngroups
            then cap_text (digit_val d) m ++ substitute ngroups tpl'' m
            else c :: substitute ngroups tpl' m
        end
  end.

(** ** String.prototype.replace *)

(** With a global expression: every match, left to right, each search
    resuming where the previous match ended.  [skip] counts the code units
    of the current match that are still to be passed over. *)
Fixpoint replace_scan (r : regex) (f : rmatch_result -> text)
         (skip : nat) (p : option char) (s : text) {struct s} : text :=
  match s with
  | [] =>
      match skip with
      | O => match exec_at r p [] with Some m => f m | None => [] end
      | S _ => []
      end
  | c :: t =>
      match skip with
      | S n => replace_scan r f n (Some c) t
      | O =>
          match exec_at r p s with
          | Some m =>
              match List.length (matched m) with
              | O => f m ++ c :: replace_scan r f 0 (Some c) t
              | S n => f m ++ replace_scan r f n (Some c) t
              end
          | None => c :: replace_scan r f 0 (Some c) t
          end
      end
  end.

Definition replace_all_with (r : regex) (f : rmatch_result -> text) (s : text) : text :=
  replace_scan r f 0 None s.

Definition replace_all (r : regex) (tpl : text) (s : text) : text :=
  replace_all_with r (substitute (List.length (groups r)) tpl) s.

(** Without the g flag: the first match only. *)
Definition replace_first (r : regex) (tpl : text) (s : text) : text :=
  match search r None s with
  | Some (pre, m, post) => pre ++ substitute (List.length (groups r)) tpl m ++ post
  | None => s
  end.

(** ** String.prototype.trim *)

Fixpoint trimStart (s : text) : text :=
  match s with
  | c :: t => if Chars.isSpace c then trimStart t else s
  | [] => []
  end.

Definition trimEnd (s : text) : text := rev (trimStart (rev s)).

Definition trim (s : text) : text := trimEnd (trimStart s).

(** ** Regular-expression syntax helpers *)

Definition lit (s : string) : regex := Chr (Chars.eqc (ch s)).
Definition notc (s : string) : regex := Chr (Chars.neqc (ch s)).
Definition plus (r : regex) : regex := Rep true 1 None r.
Definition opt (r : regex) : regex := Rep true 0 (Some 1) r.
Definition star_lazy (r : regex) : regex := Rep false 0 None r.
Definition at_least (n : nat) (r : regex) : regex := Rep true n None r.
Definition from_to (n m : nat) (r : regex) : regex := Rep true n (Some m) r.

Declare Scope regex_scope.
Delimit Scope regex_scope with re.
Bind Scope regex_scope with regex.
Notation "a >> b" := (Seq a b) (at level 61, right associativity) : regex_scope.

(** ** converter.js: postprocessMarkdown *)

Module Rx.
Local Open Scope regex_scope.

Definition whitespace := Chr Chars.isSpace.
Definition digit := Chr Chars.isDigit.
Definition dot := Chr Chars.isDot.
Definition upper := Chr Chars.isUpper.
Definition lower := Chr Chars.isLower.

(** Source: /\n{3,}/g *)
Definition blank_lines : regex := at_least 3 (lit "\n").

(** Source: /\n(#{1,6}\s)/g *)
Definition before_header : regex :=
  lit "\n" >> Grp 1 (from_to 1 6 (lit "#") >> whitespace).

(** Source: /(#{1,6}\s.+)\n([^\n])/g *)
Definition after_header : regex :=
  Grp 1 (from_to 1 6 (lit "#") >> whitespace >> plus dot) >> lit "\n" >> Grp 2 (notc "\n").

(** Source: /\n(\|[^\n]+\|)\n([^\|])/g *)
Definition table_row : regex :=
  lit "\n" >> Grp 1 (lit "|" >> plus (notc "\n") >> lit "|") >> lit "\n" >> Grp 2 (notc "|").

(** Source: /([A-Z][a-z]?)_(\d+)_/g *)
Definition subscript : regex :=
  Grp 1 (upper >> opt lower) >> lit "_" >> Grp 2 (plus digit) >> lit "_".

(** Source: a word boundary, [A-Z][a-z]?, \d+, then one or more groups
    [A-Z][a-z]?\d{0,}, and a word boundary; flag g. *)
Definition formula : regex :=
  Assert WordBoundary >> Grp 1 (upper >> opt lower) >> Grp 2 (plus digit) >>
  plus (Grp 3 (upper >> opt lower >> Rep true 0 None digit)) >> Assert WordBoundary.
End Rx.

Definition postprocessMarkdown (markdown : text) : text :=
  (* Clean up multiple blank lines *)
  let markdown := replace_all Rx.blank_lines (js "\n\n") markdown in
  (* Fix spacing around headers *)
  let markdown := replace_all Rx.before_header (js "\n\n$1") markdown in
  (* Ensure proper spacing after headers *)
  let markdown := replace_all Rx.after_header (js "$1\n\n$2") markdown in
  (* Fix table formatting *)
  let markdown := replace_all Rx.table_row (js "\n$1\n\n$2") markdown in
  (* H_2_O -> H_2O *)
  let markdown := replace_all Rx.subscript (js "$1_$2") markdown in
  (* Wrap chemical formulas in LaTeX when detected *)
  let markdown := replace_all Rx.formula (js "$$$&$$") markdown in
  trim markdown.

(** ** converter.js: preprocessHtml *)

Fixpoint lits (t : text) : regex :=
  match t with
  | [] => Rep true 0 (Some 0) (Chr Chars.any)
  | [c] => Chr (Chars.eqc c)
  | c :: t' => Seq (Chr (Chars.eqc c)) (lits t')
  end.

Definition dquote : text := [34%N].

Module RxHtml.
Local Open Scope regex_scope.

(** Source: /\n\s*\n\s*\n/g *)
Definition blank_block : regex :=
  lit "\n" >> Rep true 0 None Rx.whitespace >> lit "\n" >>
  Rep true 0 None Rx.whitespace >> lit "\n".

(** Source: the span of class equation, its content [^<]+ captured. *)
Definition equation : regex :=
  lits (js "<span class=" ++ dquote ++ js "equation" ++ dquote ++ js ">") >>
  Grp 1 (plus (notc "<")) >> lits (js "</span>").
End RxHtml.

Definition preprocessHtml (html : text) : text :=
  let html := replace_all RxHtml.blank_block (js "\n\n") html in
  let html := replace_all RxHtml.equation (js "$$$1$$") html in
  html.

(** ** converter.js: extractTitle *)

Module RxTitle.
Local Open Scope regex_scope.

(** Source: /^#\s+(.+)$/m *)
Definition h1 : regex :=
  Assert LineStart >> lit "#" >> plus Rx.whitespace >> Grp 1 (plus Rx.dot) >>
  Assert LineEnd.

(** Source: /^#{1,6}\s+(.+)$/m *)
Definition heading : regex :=
  Assert LineStart >> from_to 1 6 (lit "#") >> plus Rx.whitespace >>
  Grp 1 (plus Rx.dot) >> Assert LineEnd.

(** Source: /[-_]/g *)
Definition separator : regex :=
  Chr (fun c => Chars.eqc (ch "-") c || Chars.eqc (ch "_") c).

(** Source: /\b\w/g *)
Definition word_start : regex := Assert WordBoundary >> Chr Chars.isWord.
End RxTitle.

(** String.prototype.match with a non-global expression. *)
Definition str_match (r : regex) (s : text) : option rmatch_result :=
  match search r None s with
  | Some (_, m, _) => Some m
  | None => None
  end.

Definition extractTitle (markdown : text) : text :=
  (* Try to find the first H1 heading *)
  match str_match RxTitle.h1 markdown with
  | Some h1Match => trim (cap_text 1 h1Match)
  | None =>
      (* Try to find any heading *)
      match str_match RxTitle.heading markdown with
      | Some headingMatch => trim (cap_text 1 headingMatch)
      | None => js "Untitled Document"
      end
  end.

(** ** Numbers in template literals *)

Definition num_to_text (n : N) : text :=
  map N_of_ascii (list_ascii_of_string (NilZero.string_of_uint (N.to_uint n))).

(** ** String.prototype.split with a one-unit separator *)

Fixpoint split_on (sep : char) (cur : text) (s : text) : list text :=
  match s with
  | [] => [rev cur]
  | c :: t => if (c =? sep)%N then rev cur :: split_on sep [] t
              else split_on sep (c :: cur) t
  end.

Definition split (sep : char) (s : text) : list text := split_on sep [] s.

(** ** JavaScript values and objects *)

#[local] Unset Elimination Schemes.
Inductive jsval :=
| JUndefined
| JNull
| JBool (b : bool)
| JNum (n : Z)
| JStr (s : text)
| JArr (l : list jsval).
#[local] Set Elimination Schemes.

(** An object: its own enumerable properties in property order. *)
Definition obj := list (text * jsval).

Definition truthy (v : jsval) : bool :=
  match v with
  | JUndefined | JNull => false
  | JBool b => b
  | JNum n => negb (n =? 0)%Z
  | JStr s => match s with [] => false | _ => true end
  | JArr _ => true
  end.

Fixpoint digits_value (acc : N) (s : text) : option N :=
  match s with
  | [] => Some acc
  | c :: t => if Chars.isDigit c then digits_value (10 * acc + (c - 48))%N t else None
  end.

(** An array index: a canonical numeric string below 2^32 - 1.  Such keys
    come first, in ascending order, in the property order of an object. *)
Definition array_index (k : text) : option N :=
  match k with
  | [] => None
  | c :: t =>
      if (c =? 48)%N && negb (match t with [] => true | _ => false end) then None
      else match digits_value 0 k with
           | Some n => if (n <? 4294967295)%N then Some n else None
           | None => None
           end
  end.

Fixpoint obj_get (k : text) (o : obj) : option jsval :=
  match o with
  | [] => None
  | (k', v) :: o' => if text_eqb k' k then Some v else obj_get k o'
  end.

Definition obj_has (k : text) (o : obj) : bool :=
  match obj_get k o with Some _ => true | None => false end.

Fixpoint obj_update (k : text) (v : jsval) (o : obj) : obj :=
  match o with
  | [] => []
  | (k', v') :: o' =>
      if text_eqb k' k then (k', v) :: o' else (k', v') :: obj_update k v o'
  end.

Fixpoint obj_insert_index (n : N) (k : text) (v : jsval) (o : obj) : obj :=
  match o with
  | [] => [(k, v)]
  | (k', v') :: o' =>
      match array_index k' with
      | Some n' => if (n' <? n)%N then (k', v') :: obj_insert_index n k v o'
                   else (k, v) :: o
      | None => (k, v) :: o
      end
  end.

(** Defining property [k]: an existing key keeps its place and takes the new
    value; a new key is placed by the property order. *)
Definition obj_set (k : text) (v : jsval) (o : obj) : obj :=
  if obj_has k o then obj_update k v o
  else match array_index k with
       | Some n => obj_insert_index n k v o
       | None => o ++ [(k, v)]
       end.

(** Object spread: [{...target, ...src}]. *)
Definition spread (target src : obj) : obj :=
  fold_left (fun acc e => obj_set (fst e) (snd e) acc) src target.

Definition keys (o : obj) : list text := map fst o.

(** ** Results of fallible code *)

Definition error := text.

Inductive result (A : Type) :=
| Ok (a : A)
| Err (e : error).
Arguments Ok {A} a.
Arguments Err {A} e.

Definition rbind {A B} (r : result A) (f : A -> result B) : result B :=
  match r with Ok a => f a | Err e => Err e end.

(** ** js-yaml, as used by frontmatter.js *)

Inductive yaml_doc :=
| YMap (o : obj)
| YScalar (v : jsval).

Class Yaml := {
  yaml_dump : obj -> result text;
  yaml_load : text -> result yaml_doc
}.

(** ** frontmatter.js *)

Record FrontmatterOptions := {
  title : option jsval;
  section : option jsval;
  chapter : option jsval;
  objectives : option jsval;
  customFields : option obj
}.

(** A destructuring default: taken when the property is missing or undefined. *)
Definition js_default (d : jsval) (v : option jsval) : jsval :=
  match v with
  | None | Some JUndefined => d
  | Some x => x
  end.

(** [v.length > 0]. *)
Definition length_gt0 (v : jsval) : result bool :=
  match v with
  | JArr l => Ok (Nat.ltb 0 (List.length l))
  | JStr s => Ok (Nat.ltb 0 (List.length s))
  | JNum _ | JBool _ => Ok false
  | JNull => Err (js "Cannot read properties of null (reading 'length')")
  | JUndefined => Err (js "Cannot read properties of undefined (reading 'length')")
  end.

Definition is_null (v : jsval) : bool :=
  match v with JNull => true | _ => false end.

(** [...(cond && { key })]. *)
Definition when (cond : bool) (k : string) (v : jsval) : obj :=
  if cond then [(js k, v)] else [].

Definition generateFrontmatter (options : FrontmatterOptions) : result obj :=
  let title := js_default (JStr (js "Untitled")) (title options) in
  let section := js_default JNull (section options) in
  let chapter := js_default JNull (chapter options) in
  let objectives := js_default (JArr []) (objectives options) in
  let customFields := match customFields options with Some c => c | None => [] end in
  let frontmatter := [(js "title", title)] in
  let frontmatter := spread frontmatter (when (negb (is_null section)) "section" section) in
  let frontmatter := spread frontmatter (when (negb (is_null chapter)) "chapter" chapter) in
  rbind (length_gt0 objectives) (fun nonempty =>
  let frontmatter := spread frontmatter (when nonempty "objectives" objectives) in
  let frontmatter := spread frontmatter customFields in
  Ok frontmatter).

Module RxFrontmatter.
Local Open Scope regex_scope.

(** Source: /^---\n([\s\S]*?)\n---\n\n/ *)
Definition frontmatterRegex : regex :=
  Assert InputStart >> lits (js "---\n") >> Grp 1 (star_lazy (Chr Chars.any)) >>
  lits (js "\n---\n\n").
End RxFrontmatter.

Record ParsedFrontmatter := {
  frontmatter : option yaml_doc;
  content : text
}.

Section Frontmatter.
Context {Y : Yaml}.

Definition frontmatterToYaml (frontmatter : obj) : result text :=
  rbind (yaml_dump frontmatter) (fun yamlString =>
  Ok (js "---\n" ++ yamlString ++ js "---\n\n")).

Definition addFrontmatterToMarkdown (markdown : text)
           (frontmatterOptions : FrontmatterOptions) : result text :=
  rbind (generateFrontmatter frontmatterOptions) (fun frontmatter =>
  rbind (frontmatterToYaml frontmatter) (fun yamlFrontmatter =>
  Ok (yamlFrontmatter ++ markdown))).

Definition parseFrontmatter (markdown : text) : ParsedFrontmatter :=
  match str_match RxFrontmatter.frontmatterRegex markdown with
  | Some m =>
      match yaml_load (cap_text 1 m) with
      | Ok fm =>
          {| frontmatter := Some fm;
             content := replace_first RxFrontmatter.frontmatterRegex [] markdown |}
      | Err _ => {| frontmatter := None; content := markdown |}
      end
  | None => {| frontmatter := None; content := markdown |}
  end.
End Frontmatter.

(** ** The host: file system, clock, console, path, mammoth, turndown

    Code that touches the world is a function from the world to a result and
    the world after it.  A rejected promise or a thrown exception is [Err]. *)

Definition M (W A : Type) : Type := W -> result A * W.

Definition ret {W A} (a : A) : M W A := fun w => (Ok a, w).

Definition throw {W A} (e : error) : M W A := fun w => (Err e, w).

Definition bind {W A B} (m : M W A) (f : A -> M W B) : M W B :=
  fun w => match m w with
           | (Ok a, w') => f a w'
           | (Err e, w') => (Err e, w')
           end.

Definition try_catch {W A} (m : M W A) (handler : error -> M W A) : M W A :=
  fun w => match m w with
           | (Ok a, w') => (Ok a, w')
           | (Err e, w') => handler e w'
           end.

Definition lift {W A} (r : result A) : M W A := fun w => (r, w).

Definition log {W} (write : text -> W -> W) (t : text) : M W unit :=
  fun w => (Ok tt, write t w).

Declare Scope m_scope.
Delimit Scope m_scope with M.
Notation "x <- m ;; k" := (bind m (fun x => k))
  (at level 62, m at next level, right associativity) : m_scope.
Notation "m ;;; k" := (bind m (fun _ => k))
  (at level 62, right associativity) : m_scope.

(** An embedded image as mammoth hands it to the image converter:
    [read_base64] is the content that reading it with the base64 encoding
    yields in the end. *)
Record ImageElement := {
  read_base64 : text;
  contentType : text
}.

(** What [element.read] returns: mammoth reads an image asynchronously, so
    the call gives a promise of the encoded content, not the content. *)
Inductive Promise (A : Type) : Type :=
| Pending (eventually : A).

Arguments Pending {A} eventually.

(** element.read('base64') *)
Definition element_read_base64 (element : ImageElement) : Promise text :=
  Pending (read_base64 element).

(** Buffer.from(value, 'base64') on the value the source hands it, the
    promise the handler stored without awaiting it.  Node takes a string, a
    Buffer, an ArrayBuffer, an array or an array-like object; for any other
    value, a promise among them, it throws this TypeError. *)
Definition Buffer_from_base64 {A} (value : Promise A) : result text :=
  Err (js "The first argument must be of type string or an instance of Buffer, ArrayBuffer, or Array or an Array-like Object. Received an instance of Promise").

(** What mammoth finds in a document: the images in document order, the HTML
    as a function of the [src] attributes the image converter returned (or
    with mammoth's own inline images when no converter is given), and the
    conversion messages. *)
Record MammothDocument := {
  doc_elements : list ImageElement;
  doc_html : option (list text) -> text;
  doc_messages : list text
}.

Class Host (W : Type) := {
  fs_access : text -> M W unit;
  fs_access_R_OK : text -> M W unit;
  fs_mkdir_recursive : text -> M W unit;
  fs_readFile : text -> M W text;
  fs_writeFile : text -> text -> M W unit;
  date_toISOString : M W text;
  console_log : text -> W -> W;
  mammoth_read : text -> result MammothDocument;
  turndown : text -> text;
  path_basename : text -> option text -> text;
  path_extname : text -> text;
  path_dirname : text -> text;
  path_join : list text -> text;
  host_yaml :: Yaml
}.

(** ** converter.js: createImageHandler *)

Record ImageRecord := {
  buffer : Promise text;
  path : text;
  name : text;
  placeholder : text
}.

(** The state shared by the handler closure and the [images] property.
    The counter is a Number; it stays an exact integer far beyond the
    2^32 - 1 elements an array can hold. *)
Record ImageHandler := {
  imageCounter : N;
  images : list ImageRecord
}.

Definition or_default (v : option text) (d : text) : text :=
  match v with
  | Some (c :: t) => c :: t
  | _ => d
  end.

Section Converter.
Context {W : Type} {H : Host W}.
Local Open Scope m_scope.

Definition createImageHandler (outputDir documentName : text) : ImageHandler :=
  {| imageCounter := 1; images := [] |}.

Definition handler (outputDir documentName : text) (element : ImageElement)
           (st : ImageHandler) : text * ImageHandler :=
  let imageBuffer := element_read_base64 element in
  let extension := or_default (nth_error (split (ch "/") (contentType element)) 1) (js "png") in
  let imageName :=
    documentName ++ js "-image-" ++ num_to_text (imageCounter st) ++ js "." ++ extension in
  let imagePath := path_join [outputDir; js "images"; imageName] in
  let record :=
    {| buffer := imageBuffer;
       path := imagePath;
       name := imageName;
       placeholder :=
         js "![Image " ++ num_to_text (imageCounter st) ++ js "](./images/" ++ imageName ++ js ")" |} in
  let images' := images st ++ [record] in
  (placeholder (last images' record),
   {| imageCounter := imageCounter st + 1; images := images' |}).

(** mammoth calls the handler once per image, in document order. *)
Fixpoint run_handler (outputDir documentName : text) (elements : list ImageElement)
         (st : ImageHandler) : list text * ImageHandler :=
  match elements with
  | [] => ([], st)
  | element :: elements' =>
      let (src, st') := handler outputDir documentName element st in
      let (srcs, st'') := run_handler outputDir documentName elements' st' in
      (src :: srcs, st'')
  end.

Record ConversionOptions := {
  opt_outputDir : option text;
  opt_extractImages : option bool
}.

Record Metadata := {
  originalFile : text;
  convertedAt : text
}.

Record ConversionResult := {
  markdown : text;
  result_images : list ImageRecord;
  warnings : list text;
  metadata : Metadata
}.

(** for (const image of imageHandler.images) await fs.writeFile(...) *)
Fixpoint save_images (imgs : list ImageRecord) : M W unit :=
  match imgs with
  | [] => ret tt
  | image :: imgs' =>
      data <- lift (Buffer_from_base64 (buffer image)) ;;
      fs_writeFile (path image) data ;;;
      save_images imgs'
  end.

Definition convertDocxToMarkdown (inputPath : text) (options : ConversionOptions)
  : M W ConversionResult :=
  let outputDir :=
    match opt_outputDir options with Some d => d | None => path_dirname inputPath end in
  let extractImages :=
    match opt_extractImages options with Some b => b | None => true end in
  try_catch
    ((* Create output directory if it doesn't exist *)
     fs_mkdir_recursive outputDir ;;;
     (if extractImages
      then fs_mkdir_recursive (path_join [outputDir; js "images"])
      else ret tt) ;;;
     (* Read the .docx file *)
     buffer <- fs_readFile inputPath ;;
     (* Prepare image handler *)
     let documentName := path_basename inputPath (Some (js ".docx")) in
     let imageHandler :=
       if extractImages then Some (createImageHandler outputDir documentName) else None in
     (* Convert .docx to HTML using mammoth *)
     doc <- lift (mammoth_read buffer) ;;
     let (srcs, imageHandler) :=
       match imageHandler with
       | Some st =>
           let (srcs, st') := run_handler outputDir documentName (doc_elements doc) st in
           (Some srcs, Some st')
       | None => (None, None)
       end in
     let result_value := doc_html doc srcs in
     (* Preprocess HTML *)
     let html := preprocessHtml result_value in
     (* Convert HTML to Markdown using Turndown *)
     let markdown := turndown html in
     (* Post-process markdown *)
     let markdown := postprocessMarkdown markdown in
     (* Save images if any were extracted *)
     (match imageHandler with
      | Some st => save_images (images st)
      | None => ret tt
      end) ;;;
     convertedAt <- date_toISOString ;;
     ret {| markdown := markdown;
            result_images :=
              match imageHandler with Some st => images st | None => [] end;
            warnings := doc_messages doc;
            metadata := {| originalFile := path_basename inputPath None;
                           convertedAt := convertedAt |} |})
    (fun error => throw (js "Failed to convert document: " ++ error)).

(** ** converter.js: extractTitleFromFilename *)

Definition extractTitleFromFilename (filename : text) : text :=
  let basename := path_basename filename (Some (path_extname filename)) in
  (* Convert kebab-case or snake_case to Title Case *)
  replace_all_with RxTitle.word_start (fun m => map Chars.toUpper (matched m))
    (replace_all RxTitle.separator (js " ") basename).
End Converter.

(** ** Numbers: IEEE 754 binary64 *)

Definition double := spec_float.

Definition to_double (n : nat) : double := binary_normalize 53 1024 (Z.of_nat n) 0 false.
Definition fdiv (x y : double) : double := SFdiv 53 1024 x y.
Definition fmul (x y : double) : double := SFmul 53 1024 x y.

(** The integer [n] for which [n / 10 - x] is as close to zero as possible,
    the larger one of two: [floor (10 * x + 1/2)] for [x = m * 2^e >= 0]. *)
Definition nearest_tenths (m : positive) (e : Z) : Z :=
  if (0 <=? e)%Z then (10 * Z.pos m * 2 ^ e)%Z
  else ((20 * Z.pos m + 2 ^ (- e)) / 2 ^ (1 - e))%Z.

Definition fixed1 (n : Z) : text :=
  num_to_text (Z.to_N (n / 10)) ++ js "." ++ num_to_text (Z.to_N (n mod 10)).

(** Number.prototype.toFixed(1), for a number of magnitude below 10^21. *)
Definition toFixed1 (x : double) : text :=
  match x with
  | S754_zero _ => js "0.0"
  | S754_infinity false => js "Infinity"
  | S754_infinity true => js "-Infinity"
  | S754_nan => js "NaN"
  | S754_finite s m e =>
      (if s then js "-" else []) ++ fixed1 (nearest_tenths m e)
  end.

(** ** utils.js *)

Definition lower_ascii (c : char) : char := if Chars.isUpper c then (c + 32)%N else c.

Definition endsWith (s suffix : text) : bool :=
  text_eqb (skipn (List.length s - List.length suffix) s) suffix
  && Nat.leb (List.length suffix) (List.length s).

(** [filePath.toLowerCase().endsWith('.docx')]: only the ASCII letters
    lower-case to the letters of the suffix. *)
Definition is_docx (filePath : text) : bool :=
  endsWith (map lower_ascii filePath) (js ".docx").

Record DocumentResult := {
  inputFile : text;
  outputFile : text;
  imagesExtracted : nat;
  doc_warnings : list text;
  doc_metadata : Metadata
}.

(** An entry of the batch results: the result of convertDocument
    (success: true) or the failure record (success: false). *)
Inductive BatchEntry :=
| Converted (r : DocumentResult)
| Failed (inputFile : text) (error : text).

Definition success (r : BatchEntry) : bool :=
  match r with Converted _ => true | Failed _ _ => false end.

Definition entry_inputFile (r : BatchEntry) : text :=
  match r with Converted d => inputFile d | Failed f _ => f end.

Record Summary := {
  total : nat;
  successful : nat;
  failed : nat;
  successRate : jsval
}.

Definition createConversionSummary (results : list BatchEntry) : Summary :=
  let total := List.length results in
  let successful := List.length (filter (fun r => success r) results) in
  let failed := List.length (filter (fun r => negb (success r)) results) in
  {| total := total;
     successful := successful;
     failed := failed;
     successRate :=
       if Nat.ltb 0 total
       then JStr (toFixed1 (fmul (fdiv (to_double successful) (to_double total)) (to_double 100)))
       else JNum 0 |}.

Record DocumentOptions := {
  outputDir : option text;
  outputFile_opt : option text;
  extractImages : option bool;
  frontmatter_opt : option FrontmatterOptions;
  verbose : option bool
}.

Record BatchResult := {
  results : list BatchEntry;
  summary : Summary
}.

Definition no_frontmatter : FrontmatterOptions :=
  {| title := None; section := None; chapter := None;
     objectives := None; customFields := None |}.

Section Index.
Context {W : Type} {H : Host W}.
Local Open Scope m_scope.

Definition fileExists (filePath : text) : M W bool :=
  try_catch (fs_access filePath ;;; ret true) (fun _ => ret false).

Definition generateOutputPath (inputPath : text) (outputDir : option text) : text :=
  let basename := path_basename inputPath (Some (js ".docx")) in
  let outputFilename := basename ++ js ".md" in
  match outputDir with
  | Some (c :: d) => path_join [c :: d; outputFilename]
  | _ => path_join [path_dirname inputPath; outputFilename]
  end.

Definition validateInputFile (filePath : text) : M W bool :=
  (* Check if file exists *)
  found <- fileExists filePath ;;
  if negb found then throw (js "File not found: " ++ filePath)
  else
    (* Check if it's a .docx file *)
    if negb (is_docx filePath)
    then throw (js "Invalid file type. Expected .docx file, got: " ++ path_extname filePath)
    else
      (* Check if file is readable *)
      try_catch (fs_access_R_OK filePath)
                (fun _ => throw (js "File is not readable: " ++ filePath)) ;;;
      ret true.

(** [frontmatter.title || extractTitle(result.markdown) ||
    extractTitleFromFilename(inputPath)] *)
Definition resolve_title (frontmatter : FrontmatterOptions) (markdown inputPath : text)
  : jsval :=
  let explicit := match title frontmatter with Some v => v | None => JUndefined end in
  if truthy explicit then explicit
  else if truthy (JStr (extractTitle markdown)) then JStr (extractTitle markdown)
  else JStr (extractTitleFromFilename inputPath).

(** [{ title, ...frontmatter }] *)
Definition with_title (t : jsval) (frontmatter : FrontmatterOptions) : FrontmatterOptions :=
  {| title := match title frontmatter with Some v => Some v | None => Some t end;
     section := section frontmatter;
     chapter := chapter frontmatter;
     objectives := objectives frontmatter;
     customFields := customFields frontmatter |}.

Definition flag (b : option bool) (d : bool) : bool :=
  match b with Some x => x | None => d end.

Definition convertDocument (inputPath : text) (options : DocumentOptions)
  : M W DocumentResult :=
  let outputDir :=
    match outputDir options with Some d => d | None => path_dirname inputPath end in
  let extractImages := flag (extractImages options) true in
  let frontmatter :=
    match frontmatter_opt options with Some f => f | None => no_frontmatter end in
  (* Validate input *)
  validateInputFile inputPath ;;;
  (* Convert document *)
  (if flag (verbose options) false
   then log console_log (js "Converting: " ++ path_basename inputPath None)
   else ret tt) ;;;
  result <- convertDocxToMarkdown inputPath
              {| opt_outputDir := Some outputDir; opt_extractImages := Some extractImages |} ;;
  (* Extract title if not provided *)
  let title := resolve_title frontmatter (markdown result) inputPath in
  (* Add frontmatter *)
  finalMarkdown <- lift (addFrontmatterToMarkdown (markdown result)
                                                  (with_title title frontmatter)) ;;
  (* Determine output path *)
  let outputPath :=
    match outputFile_opt options with
    | Some (c :: f) => c :: f
    | _ => generateOutputPath inputPath (Some outputDir)
    end in
  (* Write output file *)
  fs_writeFile outputPath finalMarkdown ;;;
  ret {| inputFile := inputPath;
         outputFile := outputPath;
         imagesExtracted := List.length (result_images result);
         doc_warnings := warnings result;
         doc_metadata := metadata result |}.

(** The body of the for loop of convertMultipleDocuments; [results] is the
    array built so far. *)
Definition convert_one (inputFile : text) (options : DocumentOptions)
           (results : list BatchEntry) : M W (list BatchEntry) :=
  try_catch
    (result <- convertDocument inputFile options ;;
     let results := results ++ [Converted result] in
     (if flag (verbose options) false
      then log console_log
             ([10003%N] ++ js " " ++ path_basename inputFile None ++ js " -> "
              ++ path_basename (outputFile result) None)
      else ret tt) ;;;
     ret results)
    (fun error =>
     let results := results ++ [Failed inputFile error] in
     (if flag (verbose options) false
      then log console_log
             ([10007%N] ++ js " " ++ path_basename inputFile None ++ js ": " ++ error)
      else ret tt) ;;;
     ret results).

Fixpoint convert_each (inputFiles : list text) (options : DocumentOptions)
         (results : list BatchEntry) : M W (list BatchEntry) :=
  match inputFiles with
  | [] => ret results
  | inputFile :: inputFiles' =>
      results' <- convert_one inputFile options results ;;
      convert_each inputFiles' options results'
  end.

Definition convertMultipleDocuments (inputFiles : list text) (options : DocumentOptions)
  : M W BatchResult :=
  (if flag (verbose options) false
   then log console_log
          (js "\nConverting " ++ num_to_text (N.of_nat (List.length inputFiles))
           ++ js " document(s)...\n")
   else ret tt) ;;;
  results <- convert_each inputFiles options [] ;;
  (* Create summary *)
  let summary := createConversionSummary results in
  (if flag (verbose options) false
   then log console_log
          (js "\nConversion complete: " ++ num_to_text (N.of_nat (successful summary))
           ++ js "/" ++ num_to_text (N.of_nat (total summary)) ++ js " successful")
   else ret tt) ;;;
  ret {| results := results; summary := summary |}.
End Index.

(** ** A host to run the code on: in-memory files and POSIX paths

    The world lists the files that exist with their contents, the paths
    that refuse a write, the writes done so far, and the console output.
    A document is a text in which each at-sign stands for an embedded PNG
    image; a document that starts with an exclamation mark is corrupt.
    The flattening to Markdown is the identity. *)

Module Sim.
Record World := {
  files : list (text * text);
  readonly : list text;
  written : list (text * text);
  console : list text
}.

Fixpoint lookup (k : text) (l : list (text * text)) : option text :=
  match l with
  | [] => None
  | (k', v) :: l' => if text_eqb k' k then Some v else lookup k l'
  end.

Definition access (p : text) : M World unit := fun w =>
  match lookup p (files w) with
  | Some _ => (Ok tt, w)
  | None => (Err (js "ENOENT: no such file or directory, access '" ++ p ++ js "'"), w)
  end.

Definition mkdir (p : text) : M World unit := fun w => (Ok tt, w).

Definition readFile (p : text) : M World text := fun w =>
  match lookup p (files w) with
  | Some c => (Ok c, w)
  | None => (Err (js "ENOENT: no such file or directory, open '" ++ p ++ js "'"), w)
  end.

Definition writeFile (p data : text) : M World unit := fun w =>
  if existsb (text_eqb p) (readonly w)
  then (Err (js "EACCES: permission denied, open '" ++ p ++ js "'"), w)
  else (Ok tt, {| files := files w; readonly := readonly w;
                  written := written w ++ [(p, data)]; console := console w |}).

Definition toISOString : M World text := fun w => (Ok (js "2024-01-01T00:00:00.000Z"), w).

Definition write_console (t : text) (w : World) : World :=
  {| files := files w; readonly := readonly w; written := written w;
     console := console w ++ [t] |}.

Definition image_mark : char := ch "@".

Fixpoint render (doc : text) (srcs : list text) : text :=
  match doc with
  | [] => []
  | c :: doc' =>
      if (c =? image_mark)%N then
        match srcs with
        | src :: srcs' => src ++ render doc' srcs'
        | [] => render doc' []
        end
      else c :: render doc' srcs
  end.

Definition png : ImageElement :=
  {| read_base64 := js "iVBORw0KGgo="; contentType := js "image/png" |}.

Definition read_document (buffer : text) : result MammothDocument :=
  match buffer with
  | 33%N :: _ => Err (js "Can't find end of central directory : is this a zip file ?")
  | _ =>
      let n := List.length (filter (fun c => (c =? image_mark)%N) buffer) in
      Ok {| doc_elements := repeat png n;
            doc_html := fun srcs =>
              match srcs with
              | Some l => render buffer l
              | None => render buffer (repeat (js "data:image/png;base64,iVBORw0KGgo=") n)
              end;
            doc_messages := [] |}
  end.

(** POSIX paths without dot segments or repeated slashes. *)
Definition last_segment (p : text) : text := last (split (ch "/") p) [].

Definition strip_suffix (s suffix : text) : text :=
  if endsWith s suffix && Nat.ltb (List.length suffix) (List.length s)
  then firstn (List.length s - List.length suffix) s
  else s.

Definition basename (p : text) (ext : option text) : text :=
  match ext with
  | Some (c :: e) => strip_suffix (last_segment p) (c :: e)
  | _ => last_segment p
  end.

Fixpoint after_last_dot (s : text) (acc : option text) : option text :=
  match s with
  | [] => acc
  | c :: t => after_last_dot t (if (c =? ch ".")%N then Some (c :: t) else acc)
  end.

Definition extname (p : text) : text :=
  match last_segment p with
  | [] => []
  | _ :: t => match after_last_dot t None with Some e => e | None => [] end
  end.

Definition dirname (p : text) : text :=
  match removelast (split (ch "/") p) with
  | [] => js "."
  | d :: ds => fold_left (fun acc x => acc ++ js "/" ++ x) ds d
  end.

Definition join (parts : list text) : text :=
  match parts with
  | [] => js "."
  | d :: ds => fold_left (fun acc x => acc ++ js "/" ++ x) ds d
  end.

(** Block-style YAML for flat mappings of strings, integers and lists. *)
Definition plain_char (c : char) : bool :=
  Chars.isUpper c || Chars.isLower c || (c =? 32)%N.

Definition scalar (v : jsval) : text :=
  match v with
  | JStr (c :: s) =>
      if Chars.isUpper c || Chars.isLower c then
        if forallb plain_char s then c :: s else dquote ++ c :: s ++ dquote
      else dquote ++ c :: s ++ dquote
  | JStr [] => dquote ++ dquote
  | JNum n => match n with
              | Zneg p => js "-" ++ num_to_text (Npos p)
              | _ => num_to_text (Z.to_N n)
              end
  | JBool true => js "true"
  | JBool false => js "false"
  | JNull | JUndefined => js "null"
  | JArr _ => js "[]"
  end.

Definition dump_entry (e : text * jsval) : text :=
  match snd e with
  | JArr (x :: l) =>
      fst e ++ js ":\n" ++ flat_map (fun v => js "  - " ++ scalar v ++ js "\n") (x :: l)
  | v => fst e ++ js ": " ++ scalar v ++ js "\n"
  end.

Definition dump (o : obj) : result text :=
  match o with
  | [] => Ok (js "{}\n")
  | _ => Ok (flat_map dump_entry o)
  end.

Definition unquote (s : text) : option text :=
  match s with
  | 34%N :: t =>
      match rev t with
      | 34%N :: r => Some (rev r)
      | _ => None
      end
  | _ => None
  end.

Definition parse_scalar (s : text) : jsval :=
  match unquote s with
  | Some t => JStr t
  | None =>
      if text_eqb s (js "null") then JNull
      else if text_eqb s (js "true") then JBool true
      else if text_eqb s (js "false") then JBool false
      else match s, digits_value 0 s with
           | _ :: _, Some n => JNum (Z.of_N n)
           | _, _ => JStr s
           end
  end.

Fixpoint split_key (cur : text) (line : text) : option (text * text) :=
  match line with
  | [] => None
  | 58%N :: [] => Some (rev cur, [])
  | 58%N :: 32%N :: v => Some (rev cur, v)
  | c :: t => split_key (c :: cur) t
  end.

Definition add_item (v : jsval) (o : obj) : option obj :=
  match rev o with
  | (k, JArr l) :: r => Some (rev ((k, JArr (l ++ [v])) :: r))
  | _ => None
  end.

Fixpoint parse_lines (lines : list text) (o : obj) : result yaml_doc :=
  match lines with
  | [] => Ok (YMap o)
  | line :: lines' =>
      match line with
      | 32%N :: 32%N :: 45%N :: 32%N :: item =>
          match add_item (parse_scalar item) o with
          | Some o' => parse_lines lines' o'
          | None => Err (js "bad indentation of a sequence entry")
          end
      | _ =>
          match split_key [] line with
          | Some (k, []) => parse_lines lines' (o ++ [(k, JArr [])])
          | Some (k, v) => parse_lines lines' (o ++ [(k, parse_scalar v)])
          | None => Err (js "can not read a block mapping entry")
          end
      end
  end.

Definition load (s : text) : result yaml_doc :=
  match s with
  | [] => Ok (YScalar JUndefined)
  | _ => parse_lines (split 10%N s) []
  end.

#[export] Instance yaml : Yaml := {| yaml_dump := dump; yaml_load := load |}.

#[export] Instance host : Host World := {|
  fs_access := access;
  fs_access_R_OK := access;
  fs_mkdir_recursive := mkdir;
  fs_readFile := readFile;
  fs_writeFile := writeFile;
  date_toISOString := toISOString;
  console_log := write_console;
  mammoth_read := read_document;
  turndown := fun html => html;
  path_basename := basename;
  path_extname := extname;
  path_dirname := dirname;
  path_join := join;
  host_yaml := yaml
|}.

Definition world (fs : list (text * text)) (ro : list text) : World :=
  {| files := fs; readonly := ro; written := []; console := [] |}.
End Sim.

(** * Vocabulary of the properties *)

(** ** Image records *)

(** The extension the handler derives from the content type of an image. *)
Definition extension_of (element : ImageElement) : text :=
  or_default (nth_error (split (ch "/") (contentType element)) 1) (js "png").

(** The file name of the image met as number [ordinal]. *)
Definition image_name (documentName : text) (ordinal : N) (element : ImageElement) : text :=
  documentName ++ js "-image-" ++ num_to_text ordinal ++ js "." ++ extension_of element.

(** The ordinals [first], [first + 1], ... given to [n] images. *)
Fixpoint ordinals (first : N) (n : nat) : list N :=
  match n with
  | O => []
  | S n' => first :: ordinals (first + 1) n'
  end.

(** ** Matches and continuations *)

(** Two continuations that agree on every state with at most [n] code units
    of input left. *)
Definition kont_agree (k1 k2 : kont) (n : nat) : Prop :=
  forall y, (List.length (rest y) <= n)%nat -> k1 y = k2 y.

(** [w] contains a code unit of the class [bad]. *)
Definition has (bad : char -> bool) (w : text) : Prop := existsb bad w = true.

(** Every text [r] can consume contains a code unit of the class [bad]. *)
Definition needs (bad : char -> bool) (r : regex) : Prop :=
  forall w, lang r w -> has bad w.

(** [s] does not begin with a code unit of the class [p]. *)
Definition not_headed (p : char -> bool) (s : text) : Prop :=
  match s with c :: _ => p c = false | [] => True end.

(** The code unit before the position reached after passing over [pre]. *)
Definition prev_after (pre : text) (p : option char) : option char :=
  fold_left (fun _ c => Some c) pre p.



(** [run] is what a greedy quantifier with the bound [max] takes of
    [run ++ s']: it stops at the bound or where the class ends. *)
Definition run_fits (p : char -> bool) (run s' : text) (max : option nat) : Prop :=
  match max with
  | None => not_headed p s'
  | Some m => (List.length run <= m)%nat /\ (List.length run = m \/ not_headed p s')
  end.


(** [t] is a prefix of [s]. *)
Fixpoint starts_with (t s : text) : bool :=
  match t, s with
  | [], _ => true
  | c :: t', a :: s' => (a =? c)%N && starts_with t' s'
  | _ :: _, [] => false
  end.

(** The state after the literal text [t] has been matched at [x]. *)
Definition after_lits (t : text) (x : mstate) : mstate :=
  MState (prev_after t (prev x)) (skipn (List.length t) (rest x)) (caps x).

(** ** Blank lines *)

Definition is_nl (c : char) : bool := Chars.eqc (ch "\n") c.

(** [k] line feeds. *)
Definition nls (k : nat) : text := repeat 10%N k.

(** Leading line feeds of a text, and the text after them. *)
Fixpoint lead (s : text) : nat :=
  match s with
  | c :: t => if is_nl c then S (lead t) else 0%nat
  | [] => 0%nat
  end.

Fixpoint after_nl (s : text) : text :=
  match s with
  | c :: t => if is_nl c then after_nl t else s
  | [] => []
  end.

(** No three line feeds in a row anywhere in the text. *)
Fixpoint no3 (s : text) : bool :=
  match s with
  | [] => true
  | c :: t => Nat.ltb (lead s) 3 && no3 t
  end.

(** The first rule of postprocessMarkdown. *)
Definition collapse (s : text) : text := replace_all Rx.blank_lines (js "\n\n") s.

(** Its replacement. *)
Definition two_nl (m : rmatch_result) : text := substitute 0 (js "\n\n") m.

(** ** Classes of text *)

(** Prose: a text without digits, number signs and vertical bars. *)
Definition prose_char (c : char) : bool :=
  negb (Chars.isDigit c || Chars.eqc (ch "#") c || Chars.eqc (ch "|") c).

Definition prose (s : text) : bool := forallb prose_char s.

(** Plain text: no digit, no line feed, no underscore. *)
Definition plain_char (c : char) : bool :=
  negb (Chars.isDigit c || is_nl c || Chars.eqc (ch "_") c).

Definition plain (s : text) : bool := forallb plain_char s.





(** ** Formula-shaped tokens *)

(** One group of a formula-shaped token: a capital letter, an optional
    lower-case letter, and digits. *)
Record group := {
  sym : char;
  low : option char;
  cnt : text
}.

Definition low_text (g : group) : text :=
  match low g with Some l => [l] | None => [] end.

Definition render (g : group) : text := sym g :: low_text g ++ cnt g.

Definition valid (g : group) : bool :=
  Chars.isUpper (sym g)
  && match low g with Some l => Chars.isLower l | None => true end
  && forallb Chars.isDigit (cnt g).






(** ** Frontmatter *)

(** The marker lines as frontmatterToYaml writes them and as
    parseFrontmatter looks for them. *)
Definition opener : text := js "---\n".
Definition terminator : text := js "\n---\n\n".

(** The closing marker does not show up before the end of the YAML text. *)
Fixpoint no_early_end (y : text) : bool :=
  match y with
  | [] => true
  | _ :: t => negb (starts_with terminator (y ++ terminator)) && no_early_end t
  end.

(** The fields title T, chapter 1, section 1.1, objectives a and b, and the
    frontmatter composed from them. *)
Definition round_trip_fields : FrontmatterOptions :=
  {| title := Some (JStr (js "T"));
     section := Some (JStr (js "1.1"));
     chapter := Some (JNum 1);
     objectives := Some (JArr [JStr (js "a"); JStr (js "b")]);
     customFields := None |}.

Definition round_trip_frontmatter : obj :=
  [(js "title", JStr (js "T"));
   (js "section", JStr (js "1.1"));
   (js "chapter", JNum 1);
   (js "objectives", JArr [JStr (js "a"); JStr (js "b")])].

(** Options whose custom fields name the recognized key title. *)
Definition override_options : FrontmatterOptions :=
  {| title := Some (JStr (js "Recognized"));
     section := Some (JStr (js "1.1"));
     chapter := None;
     objectives := None;
     customFields := Some [(js "author", JStr (js "A")); (js "title", JStr (js "Custom"))] |}.

(** ** Batches *)

(** The entry the loop records for a document. *)
Definition outcome (inputFile : text) (r : result DocumentResult) : BatchEntry :=
  match r with
  | Ok d => Converted d
  | Err e => Failed inputFile e
  end.

(** Three documents, the second one corrupt. *)
Definition batch_files : list text :=
  [js "/in/a.docx"; js "/in/b.docx"; js "/in/c.docx"].

Definition batch_world : Sim.World :=
  Sim.world [(js "/in/a.docx", js "# A\n\nFirst.");
             (js "/in/b.docx", js "!not a document");
             (js "/in/c.docx", js "# C\n\nThird.")] [].

Definition batch_options : DocumentOptions :=
  {| outputDir := Some (js "/out"); outputFile_opt := None; extractImages := None;
     frontmatter_opt := None; verbose := None |}.

(** A document with two images, in a directory where every file can be
    written. *)
Definition two_images_world : Sim.World :=
  Sim.world [(js "/d/doc.docx", js "First @ then @.")] [].

Definition default_conversion : ConversionOptions :=
  {| opt_outputDir := None; opt_extractImages := None |}.

(** The number of documents of a batch that were converted, and the number
    of those that were not. *)
Fixpoint converted_count (entries : list BatchEntry) : nat :=
  match entries with
  | [] => 0
  | Converted _ :: entries' => S (converted_count entries')
  | Failed _ _ :: entries' => converted_count entries'
  end.

Fixpoint failed_count (entries : list BatchEntry) : nat :=
  match entries with
  | [] => 0
  | Converted _ :: entries' => failed_count entries'
  | Failed _ _ :: entries' => S (failed_count entries')
  end.

(** The percentage [part] of [whole], as the code computes and prints it:
    in binary64, with one decimal. *)
Definition percentage (part whole : nat) : text :=
  toFixed1 (fmul (fdiv (to_double part) (to_double whole)) (to_double 100)).

Section HostVocabulary.
Context {W : Type} {H : Host W}.

(** The body of the loop that saves the images: the stored content goes
    through Buffer.from and the result is written to the path of the
    image. *)
Definition save_image (image : ImageRecord) : M W unit :=
  bind (lift (Buffer_from_base64 (buffer image)))
       (fun data => fs_writeFile (path image) data).

(** The record expected for the image met as number [ordinal]. *)
Definition record_of (outputDir documentName : text) (ordinal : N)
           (element : ImageElement) : ImageRecord :=
  {| buffer := element_read_base64 element;
     path := path_join [outputDir; js "images"; image_name documentName ordinal element];
     name := image_name documentName ordinal element;
     placeholder :=
       js "![Image " ++ num_to_text ordinal ++ js "](./images/"
       ++ image_name documentName ordinal element ++ js ")" |}.

Definition records_from (outputDir documentName : text) (first : N)
           (elements : list ImageElement) : list ImageRecord :=
  map (fun p => record_of outputDir documentName (fst p) (snd p))
      (combine (ordinals first (List.length elements)) elements).

(** The console line of the loop for a document, when verbose. *)
Definition log_outcome (options : DocumentOptions) (inputFile : text)
           (r : result DocumentResult) (w : W) : W :=
  if flag (verbose options) false then
    match r with
    | Ok d =>
        console_log ([10003%N] ++ js " " ++ path_basename inputFile None ++ js " -> "
                     ++ path_basename (outputFile d) None) w
    | Err e =>
        console_log ([10007%N] ++ js " " ++ path_basename inputFile None ++ js ": " ++ e) w
    end
  else w.

(** The documents are converted one after the other, each in the world the
    previous one left, whatever the outcome of the previous one was. *)
Inductive processed (options : DocumentOptions)
  : list text -> W -> list BatchEntry -> W -> Prop :=
| processed_nil (w : W) : processed options [] w [] w
| processed_cons (inputFile : text) (inputFiles : list text) (w w1 w2 : W)
                 (r : result DocumentResult) (entries : list BatchEntry) :
    convertDocument inputFile options w = (r, w1) ->
    processed options inputFiles (log_outcome options inputFile r w1) entries w2 ->
    processed options (inputFile :: inputFiles) w (outcome inputFile r :: entries) w2.

(** The world in which the loop starts. *)
Definition batch_start (inputFiles : list text) (options : DocumentOptions) (w : W) : W :=
  if flag (verbose options) false
  then console_log (js "\nConverting " ++ num_to_text (N.of_nat (List.length inputFiles))
                    ++ js " document(s)...\n") w
  else w.

(** The world the batch leaves, after the closing console line. *)
Definition batch_end (entries : list BatchEntry) (options : DocumentOptions) (w : W) : W :=
  if flag (verbose options) false
  then console_log
         (js "\nConversion complete: "
          ++ num_to_text (N.of_nat (successful (createConversionSummary entries)))
          ++ js "/" ++ num_to_text (N.of_nat (total (createConversionSummary entries)))
          ++ js " successful") w
  else w.

End HostVocabulary.

(** * The rest of the modules *)

(** ** frontmatter.js: mergeFrontmatter *)

Definition isHighSurrogate (c : char) : bool := Chars.between 55296 56319 c.
Definition isLowSurrogate (c : char) : bool := Chars.between 56320 57343 c.

(** The elements a string yields when iterated: its code points, a
    surrogate pair being one element. *)
Fixpoint code_points (s : text) : list text :=
  match s with
  | [] => []
  | c :: t =>
      match t with
      | d :: t' =>
          if isHighSurrogate c && isLowSurrogate d then [c; d] :: code_points t'
          else [c] :: code_points t
      | [] => [[c]]
      end
  end.

(** [o.k] for an own property of an object: undefined when missing. *)
Definition prop (k : string) (o : obj) : jsval :=
  match obj_get (js k) o with Some v => v | None => JUndefined end.

(** [a || b]. *)
Definition or_else (a b : jsval) : jsval := if truthy a then a else b.

(** Array spread, [...v]: arrays and strings are iterable; for the other
    values a TypeError is thrown, whose text (Node's) names the operand by
    its source text, [operand]. *)
Definition iterate (operand : string) (v : jsval) : result (list jsval) :=
  match v with
  | JArr l => Ok l
  | JStr s => Ok (map JStr (code_points s))
  | _ => Err (js operand ++ js " is not iterable")
  end.

(** Object spread of a value that may be falsy: [...(cond && { ... })]
    adds nothing when [cond] is falsy. *)
Definition mergeFrontmatter (existing updates : obj) : result obj :=
  let merged := spread (spread [] existing) updates in
  if truthy (prop "objectives" updates) then
    (* Merge arrays like objectives *)
    rbind (iterate "(existing.objectives || [])"
                   (or_else (prop "objectives" existing) (JArr []))) (fun old =>
    rbind (iterate "updates.objectives" (prop "objectives" updates)) (fun new =>
    Ok (spread merged [(js "objectives", JArr (old ++ new))])))
  else Ok merged.


(** ** config.js

    Configuration values nest (the frontmatter object inside the options
    object), so they get a type of their own; numbers are binary64. *)

#[local] Unset Elimination Schemes.
Inductive value :=
| VUndefined
| VNull
| VBool (b : bool)
| VNum (x : double)
| VStr (s : text)
| VArr (l : list value)
| VObj (o : list (text * value)).
#[local] Set Elimination Schemes.

(** The own enumerable properties of an object, in property order. *)
Definition properties := list (text * value).

Definition value_truthy (v : value) : bool :=
  match v with
  | VUndefined | VNull => false
  | VBool b => b
  | VNum (S754_zero _) | VNum S754_nan => false
  | VNum _ => true
  | VStr [] => false
  | VStr _ => true
  | VArr _ | VObj _ => true
  end.

Fixpoint own (k : text) (o : properties) : option value :=
  match o with
  | [] => None
  | (k', v) :: o' => if text_eqb k' k then Some v else own k o'
  end.

Fixpoint overwrite (k : text) (v : value) (o : properties) : properties :=
  match o with
  | [] => []
  | (k', v') :: o' =>
      if text_eqb k' k then (k', v) :: o' else (k', v') :: overwrite k v o'
  end.

Fixpoint insert_index (n : N) (k : text) (v : value) (o : properties) : properties :=
  match o with
  | [] => [(k, v)]
  | (k', v') :: o' =>
      match array_index k' with
      | Some n' => if (n' <? n)%N then (k', v') :: insert_index n k v o'
                   else (k, v) :: o
      | None => (k, v) :: o
      end
  end.

(** Defining a property, as [obj_set] does for the flat objects. *)
Definition define (k : text) (v : value) (o : properties) : properties :=
  match own k o with
  | Some _ => overwrite k v o
  | None =>
      match array_index k with
      | Some n => insert_index n k v o
      | None => o ++ [(k, v)]
      end
  end.

Fixpoint index_entries {A} (f : A -> value) (i : N) (l : list A) : properties :=
  match l with
  | [] => []
  | a :: l' => (num_to_text i, f a) :: index_entries f (i + 1) l'
  end.

(** What an object spread copies from a value: the properties of an object,
    the elements of an array and the code units of a string under their
    indices, nothing from undefined, null, a boolean or a number. *)
Definition entries_of (v : value) : properties :=
  match v with
  | VObj o => o
  | VArr l => index_entries (fun x => x) 0 l
  | VStr s => index_entries (fun c => VStr [c]) 0 s
  | _ => []
  end.

(** [{ ...target, ...v }] *)
Definition assign (target : properties) (v : value) : properties :=
  fold_left (fun acc e => define (fst e) (snd e) acc) (entries_of v) target.

(** [v.k], for the names the source reads (frontmatter, chapter, objectives,
    outputDir): an own property of an object, undefined on any other value
    that has properties at all, a TypeError on undefined and null. *)
Definition member (k : string) (v : value) : result value :=
  match v with
  | VUndefined =>
      Err (js "Cannot read properties of undefined (reading '" ++ js k ++ js "')")
  | VNull =>
      Err (js "Cannot read properties of null (reading '" ++ js k ++ js "')")
  | VObj o => Ok (match own (js k) o with Some x => x | None => VUndefined end)
  | _ => Ok VUndefined
  end.

(** [v?.k] *)
Definition optional_member (k : string) (v : value) : result value :=
  match v with
  | VUndefined | VNull => Ok VUndefined
  | _ => member k v
  end.

(** A parameter default: [param = {}]. *)
Definition or_empty_object (v : value) : value :=
  match v with VUndefined => VObj [] | _ => v end.

(** [v || {}] *)
Definition or_object (v : value) : value := if value_truthy v then v else VObj [].

Definition mergeOptions (configOptions cliOptions : value) : result properties :=
  let configOptions := or_empty_object configOptions in
  let cliOptions := or_empty_object cliOptions in
  let merged := assign (assign [] configOptions) cliOptions in
  (* Merge nested objects *)
  rbind (member "frontmatter" configOptions) (fun configFrontmatter =>
  rbind (member "frontmatter" cliOptions) (fun cliFrontmatter =>
  Ok (define (js "frontmatter")
        (VObj (assign (assign [] (or_object configFrontmatter)) (or_object cliFrontmatter)))
        merged))).

Definition is_undefined (v : value) : bool :=
  match v with VUndefined => true | _ => false end.

(** [typeof v === 'number'], [Array.isArray(v)], [typeof v === 'string'] *)
Definition is_number (v : value) : bool := match v with VNum _ => true | _ => false end.
Definition is_array (v : value) : bool := match v with VArr _ => true | _ => false end.
Definition is_string (v : value) : bool := match v with VStr _ => true | _ => false end.

(** Array.prototype.join *)
Fixpoint array_join (sep : text) (l : list text) : text :=
  match l with
  | [] => []
  | [a] => a
  | a :: l' => a ++ sep ++ array_join sep l'
  end.

Definition push_if (cond : bool) (message : string) (errors : list text) : list text :=
  if cond then errors ++ [js message] else errors.

Definition validateConfig (config : value) : result bool :=
  rbind (member "frontmatter" config) (fun frontmatter =>
  rbind (optional_member "chapter" frontmatter) (fun chapter =>
  rbind (optional_member "objectives" frontmatter) (fun objectives =>
  rbind (member "outputDir" config) (fun outputDir =>
  let errors := [] in
  (* Validate chapter is a number if provided *)
  let errors :=
    push_if (negb (is_undefined chapter) && negb (is_number chapter))
            "Chapter must be a number" errors in
  (* Validate objectives is an array if provided *)
  let errors :=
    push_if (negb (is_undefined objectives) && negb (is_array objectives))
            "Objectives must be an array" errors in
  (* Validate outputDir is a string if provided *)
  let errors :=
    push_if (negb (is_undefined outputDir) && negb (is_string outputDir))
            "outputDir must be a string" errors in
  if Nat.ltb 0 (List.length errors)
  then Err (js "Config validation failed:\n" ++ array_join (js "\n") errors)
  else Ok true)))).


Definition defaultNames : list text :=
  [js ".doc2mdrc.json"; js ".doc2mdrc.yaml"; js ".doc2mdrc.yml";
   js "doc2md.config.json"; js "doc2md.config.yaml"; js "doc2md.config.yml"].

Section Config.
Context {W : Type} {H : Host W}.
Local Open Scope m_scope.

(** for (const name of names) try { await fs.access(name); return name }
    catch { continue }; return null *)
Fixpoint first_accessible (names : list text) : M W (option text) :=
  match names with
  | [] => ret None
  | name :: names' =>
      try_catch (fs_access name ;;; ret (Some name))
                (fun _ => first_accessible names')
  end.

Definition findDefaultConfig : M W (option text) := first_accessible defaultNames.
End Config.

(** ** bin/doc2md.js: the options the convert command hands to mergeOptions

    [config] is the configuration that was loaded (the empty object when
    there is none); the other arguments are the values commander hands to
    the action: [options.output], [options.images !== false],
    [options.verbose || false], [options.title], [options.section],
    [options.chapter], and [options.objectives], a string or undefined. *)

Section Command.

(** ToNumber on the values it converts through a string (strings, arrays
    and objects): an operation of the engine. *)
Variable to_number : value -> double.





End Command.


(** ** Alternatives at the top of an expression

    [a|b] at the top of an expression is tried left to right at a position:
    the first alternative that matches wins.  An alternative may be closed
    by [$], which without the m flag holds at the end of the input only. *)
Record alternative := {
  alt_body : regex;
  alt_at_end : bool
}.

Definition accept (at_end : bool) : kont :=
  fun y => if at_end then match rest y with [] => Some y | _ :: _ => None end
           else Some y.

Fixpoint exec_alternatives (alts : list alternative) (p : option char) (s : text)
  : option rmatch_result :=
  match alts with
  | [] => None
  | a :: alts' =>
      match rmatch (alt_body a) (accept (alt_at_end a)) (MState p s []) with
      | Some y => Some (MatchResult (firstn (List.length s - List.length (rest y)) s) (caps y))
      | None => exec_alternatives alts' p s
      end
  end.

(** [replace_scan], for any way of matching at a position. *)
Fixpoint replace_scan_by (exec : option char -> text -> option rmatch_result)
         (f : rmatch_result -> text) (skip : nat) (p : option char) (s : text)
         {struct s} : text :=
  match s with
  | [] =>
      match skip with
      | O => match exec p [] with Some m => f m | None => [] end
      | S _ => []
      end
  | c :: t =>
      match skip with
      | S n => replace_scan_by exec f n (Some c) t
      | O =>
          match exec p s with
          | Some m =>
              match List.length (matched m) with
              | O => f m ++ c :: replace_scan_by exec f 0 (Some c) t
              | S n => f m ++ replace_scan_by exec f n (Some c) t
              end
          | None => c :: replace_scan_by exec f 0 (Some c) t
          end
      end
  end.

(** ** utils.js: sanitizeFilename *)

Module RxName.
Local Open Scope regex_scope.

(** The small letters ae, eth, thorn, o with diaeresis and the six vowels
    with an acute accent, and their capitals. *)
Definition icelandic_small (c : char) : bool :=
  existsb (N.eqb c) [230; 240; 254; 246; 225; 233; 237; 243; 250; 253]%N.

Definition icelandic_capital (c : char) : bool :=
  existsb (N.eqb c) [198; 208; 222; 214; 193; 201; 205; 211; 218; 221]%N.

(** The class [a-z0-9...ae...y-acute_\-\.] under the i flag: a code unit
    belongs to it when its canonical form (its upper case) is that of a
    member.  That holds for the members and for the capitals of the letters
    among them, and for no other code unit. *)
Definition kept (c : char) : bool :=
  Chars.isLower c || Chars.isUpper c || Chars.isDigit c
  || icelandic_small c || icelandic_capital c
  || Chars.eqc (ch "_") c || Chars.eqc (ch "-") c || Chars.eqc (ch ".") c.

(** Source: the negated class above, flags g and i. *)
Definition foreign : regex := Chr (fun c => negb (kept c)).

(** Source: /-+/g *)
Definition hyphens : regex := plus (lit "-").

(** Source: /^-|-$/g *)
Definition edge_hyphen : list alternative :=
  [ {| alt_body := Assert InputStart >> lit "-"; alt_at_end := false |};
    {| alt_body := lit "-"; alt_at_end := true |} ].
End RxName.

(** String.prototype.toLowerCase on Basic Latin and Latin-1, where the
    capitals are A to Z and U+00C0 to U+00DE without the multiplication
    sign; the text sanitizeFilename applies it to holds no other code
    unit. *)
Definition toLowerCase_latin1 (c : char) : char :=
  if Chars.isUpper c || (Chars.between 192 222 c && negb (c =? 215)%N)
  then (c + 32)%N else c.

Definition sanitizeFilename (filename : text) : text :=
  let filename := replace_all RxName.foreign (js "-") filename in
  let filename := replace_all RxName.hyphens (js "-") filename in
  let filename :=
    replace_scan_by (exec_alternatives RxName.edge_hyphen) (fun _ => []) 0 None filename in
  map toLowerCase_latin1 filename.

(** ** utils.js: findDocxFiles

    The file system as fs.stat and fs.readdir (with file types) show it: a
    regular file, something that is neither a file nor a directory, a
    directory with its entries in the order readdir lists them, or a
    directory that cannot be read. *)
Inductive entry :=
| RegularFile
| Special
| Folder (children : entries)
| Locked (e : error)
with entries :=
| NoEntry
| Entry (name : text) (e : entry) (others : entries).

Scheme entry_mutual := Induction for entry Sort Prop
  with entries_mutual := Induction for entries Sort Prop.

Definition isDirectory (e : entry) : bool :=
  match e with Folder _ | Locked _ => true | _ => false end.

Definition isFile (e : entry) : bool :=
  match e with RegularFile => true | _ => false end.

(** file.name === 'node_modules' || file.name === '.git' *)
Definition skipped (name : text) : bool :=
  text_eqb name (js "node_modules") || text_eqb name (js ".git").

(** file.name.toLowerCase().endsWith('.docx') && !file.name.startsWith('~$') *)
Definition wanted (name : text) : bool :=
  is_docx name && negb (starts_with (js "~$") name).

Section FindFiles.
Context {W : Type} {H : Host W}.
Variable path_resolve : text -> text.
Variable stat : text -> option entry.

(** [getDocxFilesRecursive dir e fileList]: [e] is what is found at [dir];
    [walk dir files fileList] is the loop over the entries read there. *)
Fixpoint getDocxFilesRecursive (dir : text) (e : entry) (fileList : list text)
         {struct e} : result (list text) :=
  match e with
  | Folder files => walk dir files fileList
  | Locked err => Err err
  | _ => Err (js "ENOTDIR: not a directory, scandir '" ++ dir ++ js "'")
  end
with walk (dir : text) (files : entries) (fileList : list text) {struct files}
  : result (list text) :=
  match files with
  | NoEntry => Ok fileList
  | Entry name file others =>
      let filePath := path_join [dir; name] in
      (* Skip node_modules and .git directories *)
      if skipped name then walk dir others fileList
      else if isDirectory file then
        rbind (getDocxFilesRecursive filePath file fileList) (walk dir others)
      else if wanted name then walk dir others (fileList ++ [path_resolve filePath])
      else walk dir others fileList
  end.

Definition findDocxFiles (inputPath : text) : result (list text) :=
  match
    match stat inputPath with
    | Some stats =>
        if isDirectory stats then getDocxFilesRecursive inputPath stats []
        else if isFile stats && is_docx inputPath then Ok [path_resolve inputPath]
        else Err (js "Invalid input: " ++ inputPath)
    | None => Err (js "Invalid input: " ++ inputPath)
    end
  with
  | Ok files => Ok files
  | Err message => Err (js "Failed to find files: " ++ message)
  end.
End FindFiles.

(** ** converter.js: configureTurndown

    The replacement function of the subscript rule: what Turndown writes
    for a sub element around [content]. *)
Definition subscript_replacement (content : text) : text := js "_" ++ content ++ js "_".

(** * Vocabulary of the further properties *)

(** A frontmatter whose title key is present but undefined, as the command
    line passes it when no title is given. *)
Definition undefined_title : FrontmatterOptions :=
  {| title := Some JUndefined; section := None; chapter := None;
     objectives := None; customFields := None |}.

Definition undefined_title_options : DocumentOptions :=
  {| outputDir := Some (js "/out"); outputFile_opt := None; extractImages := None;
     frontmatter_opt := Some undefined_title; verbose := None |}.

(** A document with a first-level heading, and the world after it has been
    converted to /out/a.md under [undefined_title_options]. *)
Definition titled_world : Sim.World :=
  Sim.world [(js "/in/a.docx", js "# Real Title\n\nBody.")] [].

Definition titled_world_after : Sim.World :=
  {| Sim.files := [(js "/in/a.docx", js "# Real Title\n\nBody.")];
     Sim.readonly := [];
     Sim.written := [(js "/out/a.md", js "---\ntitle: Untitled\n---\n\n# Real Title\n\nBody.")];
     Sim.console := [] |}.

Definition titled_result : DocumentResult :=
  {| inputFile := js "/in/a.docx"; outputFile := js "/out/a.md"; imagesExtracted := 0;
     doc_warnings := [];
     doc_metadata := {| originalFile := js "a.docx";
                        convertedAt := js "2024-01-01T00:00:00.000Z" |} |}.

(** [v.k] where nothing can throw: undefined unless [v] is an object that
    has the property. *)
Definition field (k : string) (v : value) : value :=
  match v with
  | VObj o => match own (js k) o with Some x => x | None => VUndefined end
  | _ => VUndefined
  end.

(** A configuration the way validateConfig wants it. *)
Definition well_typed (config : value) : Prop :=
  (field "chapter" (field "frontmatter" config) = VUndefined
   \/ is_number (field "chapter" (field "frontmatter" config)) = true)
  /\ (field "objectives" (field "frontmatter" config) = VUndefined
      \/ is_array (field "objectives" (field "frontmatter" config)) = true)
  /\ (field "outputDir" config = VUndefined
      \/ is_string (field "outputDir" config) = true).

(** An object, or nothing at all. *)
Definition object_or_missing (v : value) : Prop :=
  v = VUndefined \/ exists o, v = VObj o /\ NoDup (map fst o).

Section ConfigVocabulary.
Context {W : Type} {H : Host W}.

(** The world after each of [names] was probed in turn and none could be
    accessed; nothing when one of them can. *)
Fixpoint refused (names : list text) (w : W) : option W :=
  match names with
  | [] => Some w
  | name :: names' =>
      match fs_access name w with
      | (Err _, w1) => refused names' w1
      | (Ok _, _) => None
      end
  end.
End ConfigVocabulary.

(** A directory that holds two of the default configuration files. *)
Definition two_configs_world : Sim.World :=
  Sim.world [(js "doc2md.config.json", js "{}"); (js ".doc2mdrc.yaml", js "outputDir: out")] [].

(** ** Neighbouring code units *)

Definition letter (c : char) : bool := Chars.isUpper c || Chars.isLower c.

(** Somewhere in the text a code unit of the class [P] is directly followed
    by one of the class [Q]. *)
Fixpoint adjacent (P Q : char -> bool) (s : text) : bool :=
  match s with
  | [] => false
  | a :: t =>
      match t with
      | b :: _ => (P a && Q b) || adjacent P Q t
      | [] => false
      end
  end.

(** ** Titles from file names *)

Definition is_separator (c : char) : bool :=
  Chars.eqc (ch "-") c || Chars.eqc (ch "_") c.

Definition spaced (c : char) : char := if is_separator c then ch " " else c.

(** Upper-casing the first character of every run of word characters;
    [p] is the code unit before the text. *)
Fixpoint capitalized (p : option char) (s : text) : text :=
  match s with
  | [] => []
  | c :: t =>
      (if Chars.isWord c && negb (isWordOpt p) then Chars.toUpper c else c)
      :: capitalized (Some c) t
  end.

(** ** Headings *)

(** What both expressions of extractTitle share after the number signs:
    white space, the captured rest of the line, and the end of the line. *)
Definition heading_text : regex :=
  Seq (plus Rx.whitespace) (Seq (Grp 1 (plus Rx.dot)) (Assert LineEnd)).

(** [n] number signs. *)
Definition hashes (n : nat) : text := repeat 35%N n.

(** ** Equation spans *)

(** The tags mammoth puts around a paragraph of style Equation. *)
Definition span_open : text :=
  js "<span class=" ++ dquote ++ js "equation" ++ dquote ++ js ">".
Definition span_close : text := js "</span>".

(** [t] occurs in [s] (String.prototype.includes). *)
Fixpoint occurs (t s : text) : bool :=
  starts_with t s || match s with [] => false | _ :: s' => occurs t s' end.

Definition no_newline (s : text) : bool := forallb (fun c => negb (is_nl c)) s.

(** ** Sanitized names *)

Definition is_hyphen (c : char) : bool := Chars.eqc (ch "-") c.

(** The code units of a sanitized name: small letters, digits, underscore,
    hyphen and full stop. *)
Definition safe (c : char) : bool :=
  Chars.isLower c || Chars.isDigit c || RxName.icelandic_small c
  || Chars.eqc (ch "_") c || Chars.eqc (ch "-") c || Chars.eqc (ch ".") c.

(** Without a hyphen at the end, after the first code unit. *)
Fixpoint drop_last_hyphen (s : text) : text :=
  match s with
  | [] => []
  | c :: t =>
      match t with
      | [] => if is_hyphen c then [] else [c]
      | _ :: _ => c :: drop_last_hyphen t
      end
  end.

(** Without a hyphen at the start and without a hyphen at the end. *)
Definition strip_edges (s : text) : text :=
  match s with
  | [] => []
  | c :: t => if is_hyphen c then drop_last_hyphen t else drop_last_hyphen (c :: t)
  end.

(** ** Key order *)

(** The keys generateFrontmatter knows, in the order in which it writes
    them. *)
Definition recognized_keys : list text :=
  [js "title"; js "section"; js "chapter"; js "objectives"].

(** ** Files found in a directory *)

Section FoundFiles.
Context {W : Type} {H : Host W}.
Variable path_resolve : text -> text.

(** The paths a walk through the entries of [dir] comes upon: an entry that
    is not a directory and has a wanted name, or a path found in a
    subdirectory; nothing is found at or below an entry with a skipped
    name. *)
Inductive found : text -> entries -> text -> Prop :=
| found_here dir name file others :
    skipped name = false -> isDirectory file = false -> wanted name = true ->
    found dir (Entry name file others) (path_resolve (path_join [dir; name]))
| found_below dir name children others p :
    skipped name = false ->
    found (path_join [dir; name]) children p ->
    found dir (Entry name (Folder children) others) p
| found_later dir name file others p :
    found dir others p -> found dir (Entry name file others) p.
End FoundFiles.

(** ** The steps of a conversion *)

Section ConversionSteps.
Context {W : Type} {H : Host W}.

Definition conversion_dir (inputPath : text) (options : ConversionOptions) : text :=
  match opt_outputDir options with Some d => d | None => path_dirname inputPath end.

Definition extracting (options : ConversionOptions) : bool :=
  match opt_extractImages options with Some b => b | None => true end.

(** The directories are made: the output directory and, with image
    extraction, its images directory; [wb] is the world after that. *)
Definition dirs_made (inputPath : text) (options : ConversionOptions) (w wb : W) : Prop :=
  exists wa,
    fs_mkdir_recursive (conversion_dir inputPath options) w = (Ok tt, wa)
    /\ if extracting options
       then fs_mkdir_recursive (path_join [conversion_dir inputPath options; js "images"]) wa
            = (Ok tt, wb)
       else wb = wa.

(** The images the handler has collected when mammoth is done with [doc]. *)
Definition collected (inputPath : text) (options : ConversionOptions)
           (doc : MammothDocument) : list ImageRecord :=
  records_from (conversion_dir inputPath options)
               (path_basename inputPath (Some (js ".docx"))) 1 (doc_elements doc).

(** The step of convertDocxToMarkdown that fails first, in the order in
    which the steps run; [cause] is the message of its error and [w'] the
    world it leaves. *)
Inductive failing_step (inputPath : text) (options : ConversionOptions) (w : W)
          (cause : error) (w' : W) : Prop :=
| fails_output_dir :
    fs_mkdir_recursive (conversion_dir inputPath options) w = (Err cause, w') ->
    failing_step inputPath options w cause w'
| fails_images_dir (wa : W) :
    extracting options = true ->
    fs_mkdir_recursive (conversion_dir inputPath options) w = (Ok tt, wa) ->
    fs_mkdir_recursive (path_join [conversion_dir inputPath options; js "images"]) wa
    = (Err cause, w') ->
    failing_step inputPath options w cause w'
| fails_reading (wb : W) :
    dirs_made inputPath options w wb ->
    fs_readFile inputPath wb = (Err cause, w') ->
    failing_step inputPath options w cause w'
| fails_mammoth (wb : W) (buf : text) :
    dirs_made inputPath options w wb ->
    fs_readFile inputPath wb = (Ok buf, w') ->
    mammoth_read buf = Err cause ->
    failing_step inputPath options w cause w'
| fails_saving (wb wc : W) (buf : text) (doc : MammothDocument) :
    dirs_made inputPath options w wb ->
    fs_readFile inputPath wb = (Ok buf, wc) ->
    mammoth_read buf = Ok doc ->
    extracting options = true ->
    save_images (collected inputPath options doc) wc = (Err cause, w') ->
    failing_step inputPath options w cause w'
| fails_clock (wb wc wd : W) (buf : text) (doc : MammothDocument) :
    dirs_made inputPath options w wb ->
    fs_readFile inputPath wb = (Ok buf, wc) ->
    mammoth_read buf = Ok doc ->
    (if extracting options
     then save_images (collected inputPath options doc) wc = (Ok tt, wd)
     else wd = wc) ->
    date_toISOString wd = (Err cause, w') ->
    failing_step inputPath options w cause w'.
End ConversionSteps.

(** ** A walk that fails *)

(** Nothing in the way of a walk: no directory that cannot be read, except
    below entries with a skipped name. *)
Fixpoint readable (e : entry) : bool :=
  match e with
  | Folder children => all_readable children
  | Locked _ => false
  | RegularFile | Special => true
  end
with all_readable (files : entries) : bool :=
  match files with
  | NoEntry => true
  | Entry name e others => (skipped name || readable e) && all_readable others
  end.

(** The first directory that a walk cannot read, by the error of reading
    it: the entries before it are skipped or readable. *)
Inductive blocked : entries -> error -> Prop :=
| blocked_here name err others :
    skipped name = false -> blocked (Entry name (Locked err) others) err
| blocked_below name children others err :
    skipped name = false -> blocked children err ->
    blocked (Entry name (Folder children) others) err
| blocked_later name file others err :
    skipped name || readable file = true -> blocked others err ->
    blocked (Entry name file others) err.

(** ** Texts in which the rules find nothing *)

Definition is_hash (c : char) : bool := Chars.eqc (ch "#") c.
Definition is_bar (c : char) : bool := Chars.eqc (ch "|") c.
Definition is_underscore (c : char) : bool := Chars.eqc (ch "_") c.

(** After [c], which is no line feed, comes exactly one line feed and then
    another character. *)
Definition lone_at (c : char) (t : text) : bool :=
  negb (is_nl c) && Nat.eqb (lead t) 1
  && match after_nl t with [] => false | _ :: _ => true end.

(** Somewhere in the text a single line feed stands between two lines. *)
Fixpoint lone_nl (s : text) : bool :=
  match s with
  | [] => false
  | c :: t => lone_at c t || lone_nl t
  end.

(** A text in which the rules after the blank-line rule find nothing to
    do.  No line feed is directly followed by a number sign (the rule for
    the space before a heading) or by a vertical bar (the table rule); the
    text has no number sign, or no single line feed between two lines (the
    rule for the space after a heading); no digit is directly followed by an
    underscore (the subscript rule); and the text lacks a letter directly
    followed by a digit, or a digit directly followed by a capital letter
    (the formula rule). *)
Definition quiet (s : text) : bool :=
  negb (adjacent is_nl is_hash s)
  && (forallb (fun c => negb (is_hash c)) s || negb (lone_nl s))
  && negb (adjacent is_nl is_bar s)
  && negb (adjacent Chars.isDigit is_underscore s)
  && (negb (adjacent letter Chars.isDigit s)
      || negb (adjacent Chars.isDigit Chars.isUpper s)).

(** A project directory: a document, the lock file Word keeps beside it, a
    node_modules directory that cannot be read, and a subdirectory. *)
Definition project_files : entries :=
  Entry (js "a.docx") RegularFile
 (Entry (js "~$a.docx") RegularFile
 (Entry (js "node_modules") (Locked (js "EACCES: permission denied"))
 (Entry (js "sub")
        (Folder (Entry (js "B.DOCX") RegularFile
                (Entry (js "notes.txt") RegularFile NoEntry)))
  NoEntry))).

Definition project_tree : entry := Folder project_files.

Definition project_stat (p : text) : option entry :=
  if text_eqb p (js "/p") then Some project_tree else None.

(** * Properties *)

(** ** Text equality *)

Lemma text_eqb_refl (a : text) : text_eqb a a = true.
Proof.
  induction a as [|x a IH]; simpl; [reflexivity|].
  now rewrite N.eqb_refl, IH.
Qed.

Lemma text_eqb_eq (a b : text) : text_eqb a b = true <-> a = b.
Proof.
  split.
  - revert b; induction a as [|x a IH]; intros [|y b]; simpl; try discriminate; auto.
    intros E. apply andb_true_iff in E as [E1 E2].
    apply N.eqb_eq in E1. apply IH in E2. now subst.
  - intros ->. apply text_eqb_refl.
Qed.

Lemma text_eqb_neq (a b : text) : a <> b -> text_eqb a b = false.
Proof.
  intros N. destruct (text_eqb a b) eqn:E; [|reflexivity].
  apply text_eqb_eq in E. contradiction.
Qed.

(** ** The image handler *)

Section ImageHandlerFacts.
Context {W : Type} {H : Host W}.

Lemma handler_step (outputDir documentName : text) (element : ImageElement)
      (st : ImageHandler) :
  handler outputDir documentName element st =
  (placeholder (record_of outputDir documentName (imageCounter st) element),
   {| imageCounter := imageCounter st + 1;
      images := images st ++ [record_of outputDir documentName (imageCounter st) element] |}).
Proof.
  unfold handler. rewrite last_last. reflexivity.
Qed.

Lemma run_handler_from (outputDir documentName : text) (elements : list ImageElement) :
  forall st,
    run_handler outputDir documentName elements st =
    (map placeholder (records_from outputDir documentName (imageCounter st) elements),
     {| imageCounter := imageCounter st + N.of_nat (List.length elements);
        images := images st
                  ++ records_from outputDir documentName (imageCounter st) elements |}).
Proof.
  induction elements as [|element elements IH]; intros st.
  - simpl. unfold records_from. simpl. rewrite N.add_0_r, app_nil_r.
    now destruct st.
  - cbn [run_handler]. rewrite handler_step, IH. cbn [imageCounter images].
    unfold records_from. cbn [List.length ordinals combine map fst snd].
    rewrite <- app_assoc. cbn [app].
    replace (imageCounter st + 1 + N.of_nat (List.length elements))%N
      with (imageCounter st + N.of_nat (S (List.length elements)))%N
      by (rewrite Nat2N.inj_succ; lia).
    reflexivity.
Qed.

Lemma ordinals_length (first : N) (n : nat) : List.length (ordinals first n) = n.
Proof. revert first; induction n; intros; simpl; auto. Qed.

Lemma ordinals_nth (n : nat) :
  forall first i, (i < n)%nat -> nth_error (ordinals first n) i = Some (first + N.of_nat i)%N.
Proof.
  induction n as [|n IH]; intros first i Hi; [lia|].
  destruct i as [|i]; simpl.
  - now rewrite N.add_0_r.
  - rewrite IH by lia. f_equal. lia.
Qed.

(** C6.  A conversion that meets N images (N >= 0) leaves exactly N image
    records: record number i (counting from 1, in the order of the calls,
    which is the document order) has the name
    documentName-image-i.extension and the placeholder
    ![Image i](./images/name), and the handler returned that placeholder as
    the src of the image.  The ordinals are exactly 1, 2, ..., N: dense,
    strictly increasing and never reused; the counter ends at N + 1. *)
Theorem image_handler_ordinals (outputDir documentName : text)
        (elements : list ImageElement) :
  let run := run_handler outputDir documentName elements
                         (createImageHandler outputDir documentName) in
  let N_images := List.length elements in
  List.length (images (snd run)) = N_images
  /\ images (snd run) = records_from outputDir documentName 1 elements
  /\ fst run = map placeholder (images (snd run))
  /\ imageCounter (snd run) = (N.of_nat N_images + 1)%N
  /\ (forall i element,
         nth_error elements i = Some element ->
         exists record,
           nth_error (images (snd run)) i = Some record
           /\ name record
              = documentName ++ js "-image-" ++ num_to_text (N.of_nat (i + 1))
                ++ js "." ++ extension_of element
           /\ placeholder record
              = js "![Image " ++ num_to_text (N.of_nat (i + 1)) ++ js "](./images/"
                ++ name record ++ js ")").
Proof.
  cbv zeta. rewrite run_handler_from. cbn [fst snd images imageCounter createImageHandler].
  cbn [app].
  assert (L : List.length (records_from outputDir documentName 1 elements)
              = List.length elements).
  { unfold records_from. rewrite length_map, length_combine, ordinals_length.
    apply Nat.min_id. }
  repeat split; auto.
  - lia.
  - intros i element Hi.
    assert (Hlt : (i < List.length elements)%nat)
      by (apply nth_error_Some; congruence).
    exists (record_of outputDir documentName (N.of_nat (i + 1)) element).
    split; [|split; reflexivity].
    unfold records_from. rewrite nth_error_map.
    assert (Hc : nth_error (combine (ordinals 1 (List.length elements)) elements) i
                 = Some ((1 + N.of_nat i)%N, element)).
    { clear L. revert i Hi Hlt. generalize 1%N as first.
      induction elements as [|e es IH]; intros first i Hi Hlt;
        cbn [List.length] in Hlt; [lia|].
      destruct i as [|i]; cbn [nth_error combine ordinals List.length] in *.
      - injection Hi as ->. now rewrite N.add_0_r.
      - rewrite (IH (first + 1)%N i Hi) by lia.
        replace (first + 1 + N.of_nat i)%N with (first + N.of_nat (S i))%N
          by (rewrite Nat2N.inj_succ; lia).
        reflexivity. }
    rewrite Hc. cbn [option_map fst snd].
    replace (1 + N.of_nat i)%N with (N.of_nat (i + 1))
      by (rewrite Nat.add_1_r, Nat2N.inj_succ; lia).
    reflexivity.
Qed.
End ImageHandlerFacts.

Lemma image_handler_ordinals_witness :
  exists record,
    nth_error (images (snd (run_handler (H := Sim.host) (js "out") (js "doc")
                                        [Sim.png; Sim.png]
                                        (createImageHandler (js "out") (js "doc"))))) 1
    = Some record
    /\ name record = js "doc-image-2.png"
    /\ placeholder record = js "![Image 2](./images/doc-image-2.png)".
Proof.
  destruct (image_handler_ordinals (H := Sim.host) (js "out") (js "doc") [Sim.png; Sim.png])
    as (_ & _ & _ & _ & Hnth).
  destruct (Hnth 1%nat Sim.png eq_refl) as (record & Hr & Hn & Hp).
  exists record. split; [exact Hr|]. split.
  - rewrite Hn. reflexivity.
  - rewrite Hp, Hn. reflexivity.
Defined.

(** ** The post-processor on headings *)

(** C3.  A heading with five blank lines before and after it keeps two blank
    lines before it: the first rule leaves one blank line, and the rule that
    fixes the spacing before a header then adds a second one, although the
    heading is already preceded by a blank line.  After the heading there
    is exactly one blank line. *)
Theorem heading_blank_lines_not_normalized :
  postprocessMarkdown (js "Intro\n\n\n\n\n\n# Title\n\n\n\n\n\nBody")
  = js "Intro\n\n\n# Title\n\nBody"
  /\ replace_all Rx.before_header (js "\n\n$1") (js "Intro\n\n# Title")
     = js "Intro\n\n\n# Title".
Proof. split; vm_compute; reflexivity. Qed.

(** ** The matcher on cases whose JavaScript result is known *)

Example replace_empty_matches :
  replace_all (Rep true 0 None (lit "b")) (js "X") (js "abc") = js "XaXXcX".
Proof. vm_compute. reflexivity. Qed.

Example replace_lazy_empty_matches :
  replace_all (Rep false 0 None (lit "a")) (js "-") (js "aaa") = js "-a-a-a-".
Proof. vm_compute. reflexivity. Qed.

Example greedy_backtracks :
  option_map matched
    (str_match (Seq (lit "a") (Seq (Rep true 0 None Rx.dot) (lit "b"))) (js "a1b2b3"))
  = Some (js "a1b2b").
Proof. vm_compute. reflexivity. Qed.

Example lazy_stops_early :
  option_map matched
    (str_match (Seq (lit "a") (Seq (Rep false 0 None Rx.dot) (lit "b"))) (js "a1b2b3"))
  = Some (js "a1b").
Proof. vm_compute. reflexivity. Qed.

Example capture_of_last_iteration :
  option_map (fun m => (matched m, cap_text 1 m))
    (str_match (plus (Grp 1 (Seq (lit "a") (opt Rx.digit)))) (js "a1a"))
  = Some (js "a1a", js "a").
Proof. vm_compute. reflexivity. Qed.

Example unset_capture_is_empty :
  replace_all (Seq (lit "a") (opt (Grp 1 (lit "b")))) (js "[$1]") (js "a ab")
  = js "[] [b]".
Proof. vm_compute. reflexivity. Qed.

Example replacement_patterns :
  replace_all (Rep true 0 None (lit "a")) (js "$$-$&-$1-$0") (js "a")
  = js "$-a-$1-$0$--$1-$0".
Proof. vm_compute. reflexivity. Qed.

Example multiline_anchors :
  option_map (cap_text 1) (str_match RxTitle.h1 (js "a\n# T \nb")) = Some (js "T ").
Proof. vm_compute. reflexivity. Qed.

Example title_case :
  replace_all_with RxTitle.word_start (fun m => map Chars.toUpper (matched m))
                   (js "hello wide_world x")
  = js "Hello Wide_world X".
Proof. vm_compute. reflexivity. Qed.

Example postprocess_sample :
  postprocessMarkdown (js "Intro\n# Water\nH_2_O is C6H12O6 free\n\n\n\n|a|b|\nend \n")
  = js "Intro\n\n# Water\n\nH_2O is $C6H12O6$ free\n\n|a|b|\n\nend".
Proof. vm_compute. reflexivity. Qed.

(** ** The matcher: what a match has consumed *)

Lemma rep_loop_sound (body : kont -> mstate -> option mstate) (L : text -> Prop)
      (gs : list nat) (greedy : bool) (k : kont)
      (Hbody : forall d x z, body d x = Some z ->
                 exists y w, rest x = w ++ rest y /\ L w /\ d y = Some z) :
  forall fuel min max x z,
    rep_loop body gs greedy k fuel min max x = Some z ->
    exists y ws, rest x = List.concat ws ++ rest y /\ Forall L ws
                 /\ count_ok min max (List.length ws) /\ k y = Some z.
Proof.
  induction fuel as [|fuel IH]; intros min max x z E; [discriminate|].
  assert (Hstop : k x = Some z ->
                  (match max with Some m => (m < min)%nat | None => False end)
                  \/ min = 0%nat ->
                  exists y ws, rest x = List.concat ws ++ rest y /\ Forall L ws
                               /\ count_ok min max (List.length ws) /\ k y = Some z).
  { intros Hk Hc. exists x, []. repeat split; auto.
    destruct Hc as [Hc| ->]; [left; exact Hc | right; apply Nat.le_refl]. }
  assert (Hiter : body (fun y => if stalled min x y then None
                                 else rep_loop body gs greedy k fuel (Nat.pred min)
                                               (option_map Nat.pred max) y)
                       (clear_caps gs x) = Some z ->
                  max <> Some 0%nat ->
                  exists y ws, rest x = List.concat ws ++ rest y /\ Forall L ws
                               /\ count_ok min max (List.length ws) /\ k y = Some z).
  { intros Hb Hmax. apply Hbody in Hb as (y1 & w1 & Hr1 & Hw1 & Hd).
    destruct (stalled min x y1); [discriminate|].
    apply IH in Hd as (y & ws & Hr & Hws & Hc & Hk).
    exists y, (w1 :: ws). cbn [List.concat List.length]. repeat split; auto.
    - cbn [clear_caps rest] in Hr1. rewrite Hr1, Hr. now rewrite app_assoc.
    - destruct Hc as [Hc|Hc].
      + left. destruct max as [[|m]|]; cbn in *; try contradiction; try congruence. lia.
      + right. lia. }
  cbn [rep_loop] in E.
  destruct max as [[|m]|].
  - apply Hstop; auto. destruct min; [right; reflexivity | left; lia].
  - destruct (Nat.eqb min 0) eqn:Emin; cbn [negb] in E.
    + apply Nat.eqb_eq in Emin. destruct greedy.
      * destruct (body _ _) eqn:Eb in E.
        -- injection E as ->. apply Hiter; [exact Eb | discriminate].
        -- apply Hstop; auto.
      * destruct (k x) eqn:Ek.
        -- injection E as ->. apply Hstop; auto.
        -- apply Hiter; [exact E | discriminate].
    + apply Hiter; [exact E | discriminate].
  - destruct (Nat.eqb min 0) eqn:Emin; cbn [negb] in E.
    + apply Nat.eqb_eq in Emin. destruct greedy.
      * destruct (body _ _) eqn:Eb in E.
        -- injection E as ->. apply Hiter; [exact Eb | discriminate].
        -- apply Hstop; auto.
      * destruct (k x) eqn:Ek.
        -- injection E as ->. apply Hstop; auto.
        -- apply Hiter; [exact E | discriminate].
    + apply Hiter; [exact E | discriminate].
Qed.

Lemma rmatch_sound (r : regex) :
  forall k x z,
    rmatch r k x = Some z ->
    exists y w, rest x = w ++ rest y /\ lang r w /\ k y = Some z.
Proof.
  induction r as [p|r1 IH1 r2 IH2|greedy min max r IH|i r IH|a]; intros k x z E;
    cbn [rmatch] in E.
  - destruct (rest x) as [|c t] eqn:Er; [discriminate|].
    destruct (p c) eqn:Ep; [|discriminate].
    exists (advance c t x), [c]. repeat split; auto. exists c. auto.
  - apply IH1 in E as (y1 & w1 & Hr1 & Hw1 & E).
    apply IH2 in E as (y2 & w2 & Hr2 & Hw2 & E).
    exists y2, (w1 ++ w2). repeat split; auto.
    + rewrite Hr1, Hr2. now rewrite app_assoc.
    + cbn [lang]. exists w1, w2. auto.
  - apply rep_loop_sound with (L := lang r) in E; [|exact IH].
    destruct E as (y & ws & Hr & Hws & Hc & Hk).
    exists y, (List.concat ws). repeat split; auto. cbn [lang]. exists ws. auto.
  - apply IH in E as (y & w & Hr & Hw & E).
    eexists _, w. repeat split; [|exact Hw|exact E]. exact Hr.
  - destruct (check a x); [|discriminate]. exists x, []. repeat split; auto.
Qed.

(** A match found at a position is a prefix of the input there, and belongs
    to the language of the expression. *)
Lemma exec_at_sound (r : regex) (p : option char) (s : text) (m : rmatch_result) :
  exec_at r p s = Some m ->
  exists s', s = matched m ++ s' /\ lang r (matched m).
Proof.
  unfold exec_at. intros E.
  destruct (rmatch r _ _) as [y|] eqn:Er; [|discriminate]. injection E as <-.
  apply rmatch_sound in Er as (y' & w & Hr & Hw & Hk). injection Hk as ->.
  cbn [rest matched] in *. exists (rest y). subst s.
  rewrite length_app, Nat.add_sub.
  rewrite firstn_app, firstn_all, Nat.sub_diag. cbn [firstn]. rewrite app_nil_r. auto.
Qed.

(** ** The bound of the repeat loop is never what stops it

    [rmatch] calls its continuation only on states that have no more input
    left than the state it started from; so every iteration of a quantifier
    either uses up one of the required iterations or consumes input, and the
    loop gives the same result with any larger bound. *)

Lemma rep_loop_ext (body : kont -> mstate -> option mstate) (gs : list nat)
      (greedy : bool) (k1 k2 : kont)
      (Hbody : forall d1 d2 x, kont_agree d1 d2 (List.length (rest x)) ->
                               body d1 x = body d2 x) :
  forall fuel min max x,
    kont_agree k1 k2 (List.length (rest x)) ->
    rep_loop body gs greedy k1 fuel min max x = rep_loop body gs greedy k2 fuel min max x.
Proof.
  induction fuel as [|fuel IH]; intros min max x Hk; [reflexivity|].
  cbn [rep_loop].
  assert (Hx : k1 x = k2 x) by (apply Hk; apply Nat.le_refl).
  assert (Hb : body (fun y => if stalled min x y then None
                              else rep_loop body gs greedy k1 fuel (Nat.pred min)
                                            (option_map Nat.pred max) y)
                    (clear_caps gs x)
               = body (fun y => if stalled min x y then None
                                else rep_loop body gs greedy k2 fuel (Nat.pred min)
                                              (option_map Nat.pred max) y)
                      (clear_caps gs x)).
  { apply Hbody. intros y Hy. destruct (stalled min x y); [reflexivity|].
    apply IH. intros z Hz. apply Hk. cbn [clear_caps rest] in Hy. lia. }
  rewrite Hx, Hb. reflexivity.
Qed.

Lemma rmatch_ext (r : regex) :
  forall k1 k2 x,
    kont_agree k1 k2 (List.length (rest x)) -> rmatch r k1 x = rmatch r k2 x.
Proof.
  induction r as [p|r1 IH1 r2 IH2|greedy min max r IH|i r IH|a]; intros k1 k2 x Hk;
    cbn [rmatch].
  - destruct (rest x) as [|c t] eqn:E; [reflexivity|].
    destruct (p c); [|reflexivity]. apply Hk. cbn. lia.
  - apply IH1. intros y Hy. apply IH2. intros z Hz. apply Hk. lia.
  - apply rep_loop_ext; [exact IH|exact Hk].
  - apply IH. intros y Hy. apply Hk. exact Hy.
  - destruct (check a x); [|reflexivity]. apply Hk. apply Nat.le_refl.
Qed.

Lemma rep_loop_fuel (r : regex) (gs : list nat) (greedy : bool) (k : kont) :
  forall fuel1 fuel2 min max x,
    (min + List.length (rest x) < fuel1)%nat ->
    (min + List.length (rest x) < fuel2)%nat ->
    rep_loop (rmatch r) gs greedy k fuel1 min max x
    = rep_loop (rmatch r) gs greedy k fuel2 min max x.
Proof.
  induction fuel1 as [|fuel1 IH]; intros fuel2 min max x H1 H2; [lia|].
  destruct fuel2 as [|fuel2]; [lia|]. cbn [rep_loop].
  assert (Hb : rmatch r (fun y => if stalled min x y then None
                                  else rep_loop (rmatch r) gs greedy k fuel1 (Nat.pred min)
                                                (option_map Nat.pred max) y)
                      (clear_caps gs x)
               = rmatch r (fun y => if stalled min x y then None
                                    else rep_loop (rmatch r) gs greedy k fuel2 (Nat.pred min)
                                                  (option_map Nat.pred max) y)
                        (clear_caps gs x)).
  { apply rmatch_ext. intros y Hy. cbn [clear_caps rest] in Hy.
    destruct (stalled min x y) eqn:Es; [reflexivity|].
    unfold stalled in Es. apply andb_false_iff in Es.
    assert (Hlt : (Nat.pred min + List.length (rest y) < min + List.length (rest x))%nat).
    { destruct Es as [Es|Es].
      - apply Nat.eqb_neq in Es. lia.
      - apply Nat.eqb_neq in Es. lia. }
    apply IH; lia. }
  rewrite Hb. reflexivity.
Qed.

(** The bound [rmatch] gives the loop can be replaced by any larger one. *)
Lemma rmatch_rep_any_fuel (greedy : bool) (min : nat) (max : option nat) (r : regex)
      (k : kont) (x : mstate) (fuel : nat) :
  (min + List.length (rest x) < fuel)%nat ->
  rmatch (Rep greedy min max r) k x
  = rep_loop (rmatch r) (groups r) greedy k fuel min max x.
Proof.
  intros Hf. cbn [rmatch]. apply rep_loop_fuel; [lia|exact Hf].
Qed.

(** ** Replacement where nothing matches *)

Lemma replace_scan_no_match (r : regex) (f : rmatch_result -> text) (Q : text -> Prop)
      (Htail : forall c t, Q (c :: t) -> Q t)
      (Hnone : forall p s, Q s -> exec_at r p s = None) :
  forall s p, Q s -> replace_scan r f 0 p s = s.
Proof.
  induction s as [|c t IH]; intros p HQ; cbn [replace_scan].
  - now rewrite Hnone.
  - rewrite Hnone by exact HQ. f_equal. apply IH. eapply Htail; eauto.
Qed.

(** ** What every match of an expression must contain *)

Lemma has_app_l (bad : char -> bool) (w1 w2 : text) : has bad w1 -> has bad (w1 ++ w2).
Proof. unfold has. rewrite existsb_app. intros ->. reflexivity. Qed.

Lemma has_app_r (bad : char -> bool) (w1 w2 : text) : has bad w2 -> has bad (w1 ++ w2).
Proof. unfold has. rewrite existsb_app. intros ->. apply orb_true_r. Qed.

Lemma needs_chr (bad p : char -> bool) :
  (forall c, p c = true -> bad c = true) -> needs bad (Chr p).
Proof.
  intros Hp w (c & -> & Hc). unfold has. cbn. now rewrite (Hp c Hc).
Qed.

Lemma needs_seq_l (bad : char -> bool) (r1 r2 : regex) :
  needs bad r1 -> needs bad (Seq r1 r2).
Proof. intros H1 w (w1 & w2 & -> & L1 & _). apply has_app_l. auto. Qed.

Lemma needs_seq_r (bad : char -> bool) (r1 r2 : regex) :
  needs bad r2 -> needs bad (Seq r1 r2).
Proof. intros H2 w (w1 & w2 & -> & _ & L2). apply has_app_r. auto. Qed.

Lemma needs_grp (bad : char -> bool) (i : nat) (r : regex) :
  needs bad r -> needs bad (Grp i r).
Proof. intros Hr w L. apply Hr. exact L. Qed.

Lemma needs_rep (bad : char -> bool) (greedy : bool) (min : nat) (max : option nat)
      (r : regex) :
  (0 < min)%nat ->
  match max with Some m => (min <= m)%nat | None => True end ->
  needs bad r -> needs bad (Rep greedy min max r).
Proof.
  intros Hmin Hmax Hr w (ws & -> & Hws & Hc).
  destruct Hc as [Hc|Hc]; [destruct max; [lia|contradiction]|].
  destruct ws as [|w ws]; [cbn in Hc; lia|].
  cbn [List.concat]. apply has_app_l. apply Hr. now inversion Hws.
Qed.

Lemma has_forallb (bad : char -> bool) (w s' : text) :
  has bad w -> forallb (fun c => negb (bad c)) (w ++ s') = true -> False.
Proof.
  unfold has. intros Hh Hf. rewrite forallb_app in Hf.
  apply andb_true_iff in Hf as [Hf _].
  apply existsb_exists in Hh as (c & Hin & Hb).
  rewrite forallb_forall in Hf. specialize (Hf c Hin). rewrite Hb in Hf. discriminate.
Qed.

(** An expression whose matches all contain a [bad] code unit matches nowhere
    in a text free of them, and replacing leaves such a text as it is. *)
Lemma exec_at_needs (bad : char -> bool) (r : regex) (p : option char) (s : text) :
  needs bad r -> forallb (fun c => negb (bad c)) s = true -> exec_at r p s = None.
Proof.
  intros Hn Hs. destruct (exec_at r p s) as [m|] eqn:E; [|reflexivity].
  apply exec_at_sound in E as (s' & Hs' & L).
  exfalso. apply (@has_forallb bad (matched m) s'); [apply Hn; exact L|].
  now rewrite <- Hs'.
Qed.

Lemma replace_all_needs (bad : char -> bool) (r : regex) (tpl s : text) :
  needs bad r -> forallb (fun c => negb (bad c)) s = true -> replace_all r tpl s = s.
Proof.
  intros Hn Hs. unfold replace_all, replace_all_with.
  apply replace_scan_no_match
    with (Q := fun s => forallb (fun c => negb (bad c)) s = true); auto.
  - intros c t Hq. cbn in Hq. apply andb_true_iff in Hq. tauto.
  - intros p s0 Hq. now apply exec_at_needs with (bad := bad).
Qed.

Lemma needs_before_header : needs (Chars.eqc (ch "#")) Rx.before_header.
Proof.
  apply needs_seq_r, needs_grp, needs_seq_l, needs_rep; [lia|lia|].
  apply needs_chr. auto.
Qed.

Lemma needs_after_header : needs (Chars.eqc (ch "#")) Rx.after_header.
Proof.
  apply needs_seq_l, needs_grp, needs_seq_l, needs_rep; [lia|lia|].
  apply needs_chr. auto.
Qed.

Lemma needs_table_row : needs (Chars.eqc (ch "|")) Rx.table_row.
Proof.
  apply needs_seq_r, needs_seq_l, needs_grp, needs_seq_l, needs_chr. auto.
Qed.

Lemma needs_subscript_digit : needs Chars.isDigit Rx.subscript.
Proof.
  apply needs_seq_r, needs_seq_r, needs_seq_l, needs_grp, needs_rep; [lia|exact I|].
  apply needs_chr. auto.
Qed.

Lemma needs_formula_digit : needs Chars.isDigit Rx.formula.
Proof.
  apply needs_seq_r, needs_seq_r, needs_seq_l, needs_grp, needs_rep; [lia|exact I|].
  apply needs_chr. auto.
Qed.

Lemma needs_subscript_underscore : needs (Chars.eqc (ch "_")) Rx.subscript.
Proof. apply needs_seq_r, needs_seq_l, needs_chr. auto. Qed.

Lemma needs_blank_lines_nl : needs is_nl Rx.blank_lines.
Proof. apply needs_rep; [lia|exact I|]. apply needs_chr. auto. Qed.

Lemma needs_before_header_nl : needs is_nl Rx.before_header.
Proof. apply needs_seq_l, needs_chr. auto. Qed.

Lemma needs_after_header_nl : needs is_nl Rx.after_header.
Proof. apply needs_seq_r, needs_seq_l, needs_chr. auto. Qed.

Lemma needs_table_row_nl : needs is_nl Rx.table_row.
Proof. apply needs_seq_l, needs_chr. auto. Qed.

(** ** A greedy run over one character class *)

Lemma clear_caps_nil (x : mstate) : clear_caps [] x = x.
Proof.
  destruct x as [pv rs cs]. unfold clear_caps. cbn [prev rest caps existsb negb].
  f_equal. induction cs as [|e cs IH]; cbn; [reflexivity|]. now rewrite IH.
Qed.

Lemma length_neq_succ (n : nat) : Nat.eqb n (S n) = false.
Proof. apply Nat.eqb_neq. lia. Qed.

Lemma first_some {A} (o d : option A) (v : A) :
  o = Some v -> match o with Some z => Some z | None => d end = Some v.
Proof. now intros ->. Qed.

(** With the accepting continuation, a greedy quantifier over a class takes
    the whole run of code units of the class. *)
Lemma greedy_run (p : char -> bool) (s' : text) (cs : list (nat * text))
      (Hs' : not_headed p s') :
  forall run min fuel pv,
    forallb p run = true ->
    (min <= List.length run)%nat ->
    (List.length run < fuel)%nat ->
    exists pv',
      rep_loop (rmatch (Chr p)) [] true (fun y => Some y) fuel min None
               (MState pv (run ++ s') cs)
      = Some (MState pv' s' cs).
Proof.
  induction run as [|c run IH]; intros min fuel pv Hp Hmin Hfuel.
  - cbn [List.length] in *. assert (min = 0%nat) by lia. subst min.
    destruct fuel as [|fuel]; [lia|].
    exists pv. cbn [rep_loop app Nat.eqb negb]. rewrite clear_caps_nil.
    cbn [rmatch rest]. destruct s' as [|c t]; [reflexivity|].
    cbn in Hs'. now rewrite Hs'.
  - cbn [forallb] in Hp. apply andb_true_iff in Hp as [Hc Hp].
    destruct fuel as [|fuel]; [cbn in Hfuel; lia|].
    cbn [List.length] in *.
    destruct (IH (Nat.pred min) fuel (Some c) Hp ltac:(lia) ltac:(lia)) as (pv' & E).
    exists pv'. cbn [rep_loop app option_map]. rewrite clear_caps_nil.
    cbn [rmatch rest]. rewrite Hc. unfold advance, stalled. cbn [rest caps List.length].
    rewrite length_neq_succ, andb_false_r.
    destruct (Nat.eqb min 0); cbn [negb]; [apply first_some|]; exact E.
Qed.

(** ** The blank-line rule *)

Lemma exec_at_of (r : regex) (p : option char) (s : text) (y : mstate) :
  rmatch r (fun y => Some y) (MState p s []) = Some y ->
  exec_at r p s
  = Some (MatchResult (firstn (List.length s - List.length (rest y)) s) (caps y)).
Proof. unfold exec_at. now intros ->. Qed.

Lemma forallb_nls (k : nat) : forallb is_nl (nls k) = true.
Proof. induction k as [|k IH]; [reflexivity|exact IH]. Qed.

Lemma exec_at_blank_lines (p : option char) (k : nat) (s' : text) :
  (3 <= k)%nat -> not_headed is_nl s' ->
  exec_at Rx.blank_lines p (nls k ++ s') = Some (MatchResult (nls k) []).
Proof.
  intros Hk Hs'.
  assert (Hp : forallb is_nl (nls k) = true) by apply forallb_nls.
  assert (Hlen : (3 <= List.length (nls k))%nat)
    by (unfold nls; now rewrite repeat_length).
  assert (Hfuel : (List.length (nls k)
                   < S (3 + List.length (rest (MState p (nls k ++ s') []))))%nat)
    by (cbn [rest]; rewrite length_app; lia).
  destruct (@greedy_run is_nl s' [] Hs' (nls k) 3 _ p Hp Hlen Hfuel) as (pv' & E).
  rewrite (@exec_at_of Rx.blank_lines p (nls k ++ s') _ E). cbn [rest caps].
  rewrite length_app, Nat.add_sub, firstn_app, firstn_all, Nat.sub_diag.
  cbn [firstn]. now rewrite app_nil_r.
Qed.

Lemma is_nl_eq (c : char) : is_nl c = true -> c = 10%N.
Proof. unfold is_nl, Chars.eqc. apply N.eqb_eq. Qed.

Lemma lead_split (s : text) : s = nls (lead s) ++ after_nl s.
Proof.
  induction s as [|c t IH]; [reflexivity|]. cbn [lead after_nl].
  destruct (is_nl c) eqn:E; [|reflexivity].
  apply is_nl_eq in E. subst c. cbn [nls repeat app]. f_equal. exact IH.
Qed.

Lemma after_nl_not_headed (s : text) : not_headed is_nl (after_nl s).
Proof.
  induction s as [|c t IH]; [exact I|]. cbn [after_nl].
  destruct (is_nl c) eqn:E; [exact IH|exact E].
Qed.

Lemma lead_nls_app (k : nat) (s : text) : lead (nls k ++ s) = (k + lead s)%nat.
Proof. induction k as [|k IH]; [reflexivity|]. cbn. now rewrite <- IH. Qed.

Lemma lang_blank_lines (w : text) :
  lang Rx.blank_lines w -> exists k, (3 <= k)%nat /\ w = nls k.
Proof.
  intros (ws & -> & Hws & Hc). destruct Hc as [[]|Hc].
  exists (List.length ws). split; [exact Hc|]. clear Hc.
  induction Hws as [|w ws (c & -> & Hw) _ IH]; [reflexivity|].
  apply is_nl_eq in Hw. subst c. cbn [List.concat List.length nls repeat app].
  f_equal. exact IH.
Qed.

Lemma exec_at_blank_lines_none (p : option char) (s : text) :
  (lead s < 3)%nat -> exec_at Rx.blank_lines p s = None.
Proof.
  intros Hl. destruct (exec_at Rx.blank_lines p s) as [m|] eqn:E; [|reflexivity].
  apply exec_at_sound in E as (s' & Hs & L).
  apply lang_blank_lines in L as (k & Hk & Hm).
  rewrite Hs, Hm, lead_nls_app in Hl. lia.
Qed.

Lemma exec_at_blank_lines_some (p : option char) (s : text) :
  (3 <= lead s)%nat ->
  exec_at Rx.blank_lines p s = Some (MatchResult (nls (lead s)) []).
Proof.
  intros Hl. rewrite (lead_split s) at 1.
  apply exec_at_blank_lines; [exact Hl|apply after_nl_not_headed].
Qed.

Lemma replace_scan_skip (r : regex) (f : rmatch_result -> text) (u s' : text) :
  forall p, exists p',
    replace_scan r f (List.length u) p (u ++ s') = replace_scan r f 0 p' s'.
Proof.
  induction u as [|c u IH]; intros p.
  - exists p. reflexivity.
  - destruct (IH (Some c)) as (p' & E). exists p'. exact E.
Qed.

Lemma scan_blank_lines_prev (s : text) :
  forall skip p p',
    replace_scan Rx.blank_lines two_nl skip p s
    = replace_scan Rx.blank_lines two_nl skip p' s.
Proof.
  induction s as [|c t IH]; intros skip p p'; cbn [replace_scan].
  - destruct skip; [|reflexivity].
    now rewrite !exec_at_blank_lines_none by (cbn; lia).
  - destruct skip as [|n]; [|apply IH].
    destruct (Nat.ltb (lead (c :: t)) 3) eqn:El.
    + apply Nat.ltb_lt in El. rewrite !exec_at_blank_lines_none by exact El.
      reflexivity.
    + apply Nat.ltb_ge in El. rewrite !exec_at_blank_lines_some by exact El.
      reflexivity.
Qed.

Lemma collapse_nil : collapse [] = [].
Proof. reflexivity. Qed.

Lemma collapse_copy (c : char) (t : text) :
  (lead (c :: t) < 3)%nat -> collapse (c :: t) = c :: collapse t.
Proof.
  intros Hl. unfold collapse, replace_all, replace_all_with. cbn [replace_scan].
  rewrite exec_at_blank_lines_none by exact Hl. f_equal.
  apply scan_blank_lines_prev.
Qed.

Lemma collapse_run (s : text) :
  (3 <= lead s)%nat -> collapse s = 10%N :: 10%N :: collapse (after_nl s).
Proof.
  intros Hl. unfold collapse, replace_all, replace_all_with.
  pose proof (exec_at_blank_lines_some None s Hl) as E.
  pose proof (lead_split s) as Hs.
  destruct (lead s) as [|k] eqn:Ek; [lia|].
  cbn [nls repeat app] in Hs.
  rewrite Hs at 1. cbn [replace_scan]. rewrite <- Hs, E.
  cbn [matched]. unfold nls at 1. rewrite repeat_length.
  destruct (@replace_scan_skip Rx.blank_lines
              (substitute (List.length (groups Rx.blank_lines)) (js "\n\n"))
              (repeat 10%N k) (after_nl s) (Some 10%N)) as (p' & E').
  rewrite repeat_length in E'.
  etransitivity; [apply f_equal; exact E'|].
  change (10%N :: 10%N :: replace_scan Rx.blank_lines two_nl 0 p' (after_nl s)
          = 10%N :: 10%N :: replace_scan Rx.blank_lines two_nl 0 None (after_nl s)).
  do 2 f_equal. apply scan_blank_lines_prev.
Qed.

Lemma after_nl_length (s : text) : (List.length (after_nl s) <= List.length s)%nat.
Proof.
  induction s as [|c t IH]; [apply Nat.le_refl|]. cbn [after_nl].
  destruct (is_nl c); cbn [List.length]; lia.
Qed.

Lemma lead_after_nl (s : text) : lead (after_nl s) = 0%nat.
Proof.
  pose proof (after_nl_not_headed s) as Hn.
  destruct (after_nl s) as [|c t]; [reflexivity|]. cbn in *. now rewrite Hn.
Qed.

Lemma collapse_facts (n : nat) :
  forall s, (List.length s <= n)%nat ->
            lead (collapse s) = Nat.min (lead s) 2 /\ no3 (collapse s) = true.
Proof.
  induction n as [|n IH]; intros s Hn.
  - destruct s; [split; reflexivity|cbn in Hn; lia].
  - destruct s as [|c t]; [split; reflexivity|].
    destruct (Nat.ltb (lead (c :: t)) 3) eqn:El.
    + apply Nat.ltb_lt in El. rewrite (collapse_copy c t El).
      cbn [List.length] in Hn. destruct (IH t ltac:(lia)) as [IHl IHn].
      assert (Hlead : lead (c :: collapse t) = Nat.min (lead (c :: t)) 2).
      { cbn [lead] in *. destruct (is_nl c); [|reflexivity]. rewrite IHl. lia. }
      split; [exact Hlead|].
      cbn [no3]. rewrite IHn, andb_true_r, Hlead. apply Nat.ltb_lt. lia.
    + apply Nat.ltb_ge in El. rewrite (collapse_run _ El).
      assert (Hlen : (List.length (after_nl (c :: t)) <= n)%nat).
      { cbn [lead after_nl] in *. destruct (is_nl c); [|lia].
        pose proof (after_nl_length t). cbn [List.length] in Hn. lia. }
      destruct (IH _ Hlen) as [IHl IHn]. rewrite lead_after_nl in IHl.
      cbn [Nat.min] in IHl.
      assert (H1 : lead (10%N :: collapse (after_nl (c :: t))) = 1%nat)
        by (cbn [lead]; rewrite IHl; reflexivity).
      assert (H2 : lead (10%N :: 10%N :: collapse (after_nl (c :: t))) = 2%nat).
      { change (lead (10%N :: 10%N :: collapse (after_nl (c :: t))))
          with (S (lead (10%N :: collapse (after_nl (c :: t))))).
        now rewrite H1. }
      split; [rewrite H2; lia|].
      cbn [no3]. rewrite H2, H1, IHn. reflexivity.
Qed.

Lemma no3_collapse (s : text) : no3 (collapse s) = true.
Proof. apply (@collapse_facts (List.length s) s). apply Nat.le_refl. Qed.

(** The blank-line rule leaves a text without three line feeds in a row as
    it is. *)
Lemma collapse_no3 (s : text) : no3 s = true -> collapse s = s.
Proof.
  intros Hs. unfold collapse, replace_all, replace_all_with.
  apply replace_scan_no_match with (Q := fun s => no3 s = true); auto.
  - intros c t Hq. cbn [no3] in Hq. apply andb_true_iff in Hq. tauto.
  - intros p s0 Hq. apply exec_at_blank_lines_none.
    destruct s0 as [|c t]; [cbn; lia|].
    cbn [no3] in Hq. apply andb_true_iff in Hq as [Hq _]. now apply Nat.ltb_lt.
Qed.

(** ** trim *)

Lemma trimStart_suffix (s : text) : exists d, s = d ++ trimStart s.
Proof.
  induction s as [|c t (d & IH)]; [exists []; reflexivity|]. cbn [trimStart].
  destruct (Chars.isSpace c).
  - exists (c :: d). cbn. now rewrite <- IH.
  - exists []. reflexivity.
Qed.

Lemma trimEnd_prefix (s : text) : exists d, s = trimEnd s ++ d.
Proof.
  unfold trimEnd. destruct (trimStart_suffix (rev s)) as (d & E).
  exists (rev d). rewrite <- rev_app_distr, <- E. now rewrite rev_involutive.
Qed.

Lemma trimStart_headed (s : text) : not_headed Chars.isSpace (trimStart s).
Proof.
  induction s as [|c t IH]; [exact I|]. cbn [trimStart].
  destruct (Chars.isSpace c) eqn:E; [exact IH|exact E].
Qed.

Lemma trimStart_fixed (s : text) : not_headed Chars.isSpace s -> trimStart s = s.
Proof. destruct s as [|c t]; [reflexivity|]. cbn. now intros ->. Qed.

Lemma trimStart_idem (s : text) : trimStart (trimStart s) = trimStart s.
Proof. apply trimStart_fixed, trimStart_headed. Qed.

Lemma trimEnd_idem (s : text) : trimEnd (trimEnd s) = trimEnd s.
Proof. unfold trimEnd. now rewrite rev_involutive, trimStart_idem. Qed.

Lemma trimEnd_headed (s : text) :
  not_headed Chars.isSpace s -> not_headed Chars.isSpace (trimEnd s).
Proof.
  intros Hs. destruct (trimEnd_prefix s) as (d & E).
  destruct (trimEnd s) as [|c t]; [exact I|].
  rewrite E in Hs. exact Hs.
Qed.

Lemma trim_idem (s : text) : trim (trim s) = trim s.
Proof.
  unfold trim.
  rewrite (trimStart_fixed _ (trimEnd_headed _ (trimStart_headed s))).
  apply trimEnd_idem.
Qed.

Lemma forallb_trim (P : char -> bool) (s : text) :
  forallb P s = true -> forallb P (trim s) = true.
Proof.
  intros Hs. unfold trim.
  destruct (trimStart_suffix s) as (d1 & E1).
  destruct (trimEnd_prefix (trimStart s)) as (d2 & E2).
  rewrite E1, E2, !forallb_app in Hs.
  apply andb_true_iff in Hs as [_ Hs]. apply andb_true_iff in Hs. tauto.
Qed.

Lemma lead_app_le (a b : text) : (lead a <= lead (a ++ b))%nat.
Proof.
  induction a as [|c a IH]; cbn [lead app]; [lia|].
  destruct (is_nl c); lia.
Qed.

Lemma no3_app_l (a b : text) : no3 (a ++ b) = true -> no3 a = true.
Proof.
  induction a as [|c a IH]; [reflexivity|]. cbn [app no3].
  intros Hn. apply andb_true_iff in Hn as [H1 H2].
  rewrite (IH H2), andb_true_r. apply Nat.ltb_lt. apply Nat.ltb_lt in H1.
  pose proof (lead_app_le (c :: a) b). cbn [app] in *. lia.
Qed.

Lemma no3_app_r (a b : text) : no3 (a ++ b) = true -> no3 b = true.
Proof.
  induction a as [|c a IH]; [auto|]. cbn [app no3].
  intros Hn. apply andb_true_iff in Hn as [_ H2]. auto.
Qed.

Lemma no3_trim (s : text) : no3 s = true -> no3 (trim s) = true.
Proof.
  intros Hs. unfold trim.
  destruct (trimStart_suffix s) as (d1 & E1).
  destruct (trimEnd_prefix (trimStart s)) as (d2 & E2).
  rewrite E1 in Hs. apply no3_app_r in Hs. rewrite E2 in Hs.
  now apply no3_app_l in Hs.
Qed.

(** ** Replacement keeps the code units of the text and of the replacement *)

Lemma forallb_replace_scan (P : char -> bool) (r : regex) (f : rmatch_result -> text)
      (Hf : forall m, forallb P (f m) = true) :
  forall s skip p, forallb P s = true -> forallb P (replace_scan r f skip p s) = true.
Proof.
  induction s as [|c t IH]; intros skip p Hs; cbn [replace_scan].
  - destruct skip; [|reflexivity]. destruct (exec_at r p []); [apply Hf|reflexivity].
  - cbn [forallb] in Hs. apply andb_true_iff in Hs as [Hc Ht].
    destruct skip as [|n]; [|now apply IH].
    destruct (exec_at r p (c :: t)) as [m|].
    + destruct (List.length (matched m)).
      * rewrite forallb_app, Hf. cbn [forallb andb]. rewrite Hc. now apply IH.
      * rewrite forallb_app, Hf. now apply IH.
    + cbn [forallb]. rewrite Hc. now apply IH.
Qed.

Lemma forallb_collapse (P : char -> bool) (s : text) :
  P 10%N = true -> forallb P s = true -> forallb P (collapse s) = true.
Proof.
  intros Hnl Hs. unfold collapse, replace_all, replace_all_with.
  apply forallb_replace_scan; [|exact Hs].
  intros m. cbn. now rewrite Hnl.
Qed.

(** ** Idempotence of the post-processor on prose *)

Lemma forallb_weaken (P Q : char -> bool) (s : text) :
  (forall c, P c = true -> Q c = true) -> forallb P s = true -> forallb Q s = true.
Proof.
  intros HPQ Hs. apply forallb_forall. intros c Hc.
  apply HPQ. rewrite forallb_forall in Hs. auto.
Qed.

Lemma prose_free (bad : char -> bool) (s : text) :
  (forall c, prose_char c = true -> bad c = false) ->
  prose s = true -> forallb (fun c => negb (bad c)) s = true.
Proof.
  intros Hb. apply forallb_weaken. intros c Hc. now rewrite (Hb c Hc).
Qed.

Lemma prose_no_digit (c : char) : prose_char c = true -> Chars.isDigit c = false.
Proof.
  unfold prose_char. intros Hc. apply negb_true_iff in Hc.
  apply orb_false_iff in Hc as [Hc _]. apply orb_false_iff in Hc. tauto.
Qed.

Lemma prose_no_hash (c : char) : prose_char c = true -> Chars.eqc (ch "#") c = false.
Proof.
  unfold prose_char. intros Hc. apply negb_true_iff in Hc.
  apply orb_false_iff in Hc as [Hc _]. apply orb_false_iff in Hc. tauto.
Qed.

Lemma prose_no_bar (c : char) : prose_char c = true -> Chars.eqc (ch "|") c = false.
Proof.
  unfold prose_char. intros Hc. apply negb_true_iff in Hc.
  apply orb_false_iff in Hc. tauto.
Qed.

(** On prose only the blank-line rule and the final trim act. *)
Lemma postprocess_prose (s : text) :
  prose s = true -> postprocessMarkdown s = trim (collapse s).
Proof.
  intros Hs. unfold postprocessMarkdown. fold (collapse s).
  assert (Hc : prose (collapse s) = true)
    by (apply forallb_collapse; [reflexivity|exact Hs]).
  rewrite (@replace_all_needs _ _ _ _ needs_before_header
             (prose_free _ _ prose_no_hash Hc)).
  rewrite (@replace_all_needs _ _ _ _ needs_after_header
             (prose_free _ _ prose_no_hash Hc)).
  rewrite (@replace_all_needs _ _ _ _ needs_table_row
             (prose_free _ _ prose_no_bar Hc)).
  rewrite (@replace_all_needs _ _ _ _ needs_subscript_digit
             (prose_free _ _ prose_no_digit Hc)).
  rewrite (@replace_all_needs _ _ _ _ needs_formula_digit
             (prose_free _ _ prose_no_digit Hc)).
  reflexivity.
Qed.

(** C2 as stated fails: a second pass wraps an already wrapped formula
    again. *)
Lemma postprocess_not_idempotent :
  postprocessMarkdown (js "Hello H2O world") = js "Hello $H2O$ world"
  /\ postprocessMarkdown (postprocessMarkdown (js "Hello H2O world"))
     = js "Hello $$H2O$$ world"
  /\ postprocessMarkdown (postprocessMarkdown (js "Hello H2O world"))
     <> postprocessMarkdown (js "Hello H2O world").
Proof.
  split; [vm_compute; reflexivity|].
  split; [vm_compute; reflexivity|].
  vm_compute. discriminate.
Qed.

(** ** Matches that the greedy path reaches *)









(** ** Character classes *)

Ltac class_solve :=
  unfold is_nl in *;
  unfold Chars.isWord, Chars.isUpper, Chars.isLower, Chars.isDigit, Chars.between,
    Chars.eqc in *;
  change (ch "\n") with 10%N in *; change (ch "_") with 95%N in *;
  change (ch "#") with 35%N in *; change (ch "|") with 124%N in *;
  repeat match goal with
         | H : _ && _ = true |- _ => apply andb_true_iff in H; destruct H
         | H : (_ <=? _)%N = true |- _ => apply N.leb_le in H
         | H : (_ =? _)%N = true |- _ => apply N.eqb_eq in H
         end;
  repeat match goal with
         | |- context [(?a <=? ?b)%N] => destruct (N.leb_spec a b)
         | |- context [(?a =? ?b)%N] => destruct (N.eqb_spec a b)
         end;
  cbn; try reflexivity; try lia.

Lemma upper_word (c : char) : Chars.isUpper c = true -> Chars.isWord c = true.
Proof. intros H. class_solve. Qed.

Lemma lower_word (c : char) : Chars.isLower c = true -> Chars.isWord c = true.
Proof. intros H. class_solve. Qed.

Lemma digit_word (c : char) : Chars.isDigit c = true -> Chars.isWord c = true.
Proof. intros H. class_solve. Qed.

Lemma upper_not_lower (c : char) : Chars.isUpper c = true -> Chars.isLower c = false.
Proof. intros H. class_solve. Qed.

Lemma upper_not_digit (c : char) : Chars.isUpper c = true -> Chars.isDigit c = false.
Proof. intros H. class_solve. Qed.

Lemma digit_not_lower (c : char) : Chars.isDigit c = true -> Chars.isLower c = false.
Proof. intros H. class_solve. Qed.

Lemma digit_not_upper (c : char) : Chars.isDigit c = true -> Chars.isUpper c = false.
Proof. intros H. class_solve. Qed.

Lemma lower_not_digit (c : char) : Chars.isLower c = true -> Chars.isDigit c = false.
Proof. intros H. class_solve. Qed.

Lemma word_not_nl (c : char) : Chars.isWord c = true -> is_nl c = false.
Proof.
  intros H. unfold Chars.isWord in H.
  repeat (apply orb_true_iff in H; destruct H as [H|H]); class_solve.
Qed.


(** ** Formula-shaped tokens *)


Lemma valid_parts (g : group) :
  valid g = true ->
  Chars.isUpper (sym g) = true
  /\ forallb Chars.isLower (low_text g) = true
  /\ forallb Chars.isDigit (cnt g) = true.
Proof.
  unfold valid, low_text. intros H.
  apply andb_true_iff in H as [H H3]. apply andb_true_iff in H as [H1 H2].
  repeat split; auto. destruct (low g); cbn; [now rewrite H2|reflexivity].
Qed.

Lemma low_text_length (g : group) : (List.length (low_text g) <= 1)%nat.
Proof. unfold low_text. destruct (low g); cbn; lia. Qed.








(** ** Scanning past a prefix without matches *)

Lemma replace_scan_prefix (r : regex) (f : rmatch_result -> text) (T : text) :
  forall pre p,
    (forall a b q, pre = a ++ b -> b <> [] -> exec_at r q (b ++ T) = None) ->
    replace_scan r f 0 p (pre ++ T) = pre ++ replace_scan r f 0 (prev_after pre p) T.
Proof.
  induction pre as [|c pre IH]; intros p Hnone; [reflexivity|].
  pose proof (Hnone [] (c :: pre) p eq_refl ltac:(discriminate)) as E.
  cbn [app replace_scan] in E |- *. rewrite E.
  f_equal. apply IH. intros a b q -> Hb.
  apply (Hnone (c :: a) b q eq_refl Hb).
Qed.




Lemma forallb_last (P : char -> bool) (b : text) (c : char) :
  forallb P (b ++ [c]) = true -> P c = true.
Proof.
  rewrite forallb_app. cbn. intros H. apply andb_true_iff in H as [_ H].
  now rewrite andb_true_r in H.
Qed.


Lemma replace_scan_hit (r : regex) (f : rmatch_result -> text) (p : option char)
      (w post : text) (m : rmatch_result) :
  exec_at r p (w ++ post) = Some m -> matched m = w -> w <> [] ->
  exists p', replace_scan r f 0 p (w ++ post) = f m ++ replace_scan r f 0 p' post.
Proof.
  intros E Hm Hw. destruct w as [|c u]; [congruence|].
  cbn [app] in E |- *. cbn [replace_scan]. rewrite E, Hm. cbn [List.length].
  destruct (replace_scan_skip r f u post (Some c)) as (p' & Es).
  exists p'. now rewrite Es.
Qed.

(** ** The formula rule on a standalone token *)

Lemma plain_no_digit (s : text) :
  plain s = true -> forallb (fun c => negb (Chars.isDigit c)) s = true.
Proof.
  apply forallb_weaken. unfold plain_char. intros c Hc.
  apply negb_true_iff in Hc. apply orb_false_iff in Hc as [Hc _].
  apply orb_false_iff in Hc as [Hc _]. now rewrite Hc.
Qed.

Lemma plain_no_nl (s : text) :
  plain s = true -> forallb (fun c => negb (is_nl c)) s = true.
Proof.
  apply forallb_weaken. unfold plain_char. intros c Hc.
  apply negb_true_iff in Hc. apply orb_false_iff in Hc as [Hc _].
  apply orb_false_iff in Hc as [_ Hc]. now rewrite Hc.
Qed.

Lemma plain_no_underscore (s : text) :
  plain s = true -> forallb (fun c => negb (Chars.eqc (ch "_") c)) s = true.
Proof.
  apply forallb_weaken. unfold plain_char. intros c Hc.
  apply negb_true_iff in Hc. apply orb_false_iff in Hc as [_ Hc]. now rewrite Hc.
Qed.








(** ** Literal text and the lazy quantifier *)

Lemma rmatch_chr_eqc (c : char) (k : kont) (x : mstate) :
  rmatch (Chr (Chars.eqc c)) k x
  = if starts_with [c] (rest x) then k (after_lits [c] x) else None.
Proof.
  cbn [rmatch]. destruct (rest x) as [|a s] eqn:E; [reflexivity|].
  unfold Chars.eqc. cbn [starts_with]. rewrite andb_true_r.
  destruct (N.eqb_spec a c) as [->|]; [|reflexivity].
  unfold after_lits, advance. rewrite E. reflexivity.
Qed.

Lemma rmatch_lits (t : text) :
  forall k x,
    rmatch (lits t) k x
    = if starts_with t (rest x) then k (after_lits t x) else None.
Proof.
  induction t as [|c t IH]; intros k x.
  - cbn. now destruct x.
  - destruct t as [|c2 t].
    + apply rmatch_chr_eqc.
    + remember (c2 :: t) as t2 eqn:Ht2.
      assert (Hl : lits (c :: t2) = Seq (Chr (Chars.eqc c)) (lits t2))
        by (subst t2; reflexivity).
      rewrite Hl. cbn [rmatch]. destruct (rest x) as [|a s] eqn:E; [reflexivity|].
      unfold Chars.eqc. cbn [starts_with].
      destruct (N.eqb_spec a c) as [->|]; [|reflexivity].
      rewrite IH. cbn [advance rest andb].
      destruct (starts_with t2 s); [|reflexivity].
      unfold after_lits. cbn [prev rest caps]. rewrite E. reflexivity.
Qed.

Lemma starts_with_app (t s : text) : starts_with t (t ++ s) = true.
Proof. induction t as [|c t IH]; [reflexivity|]. cbn. now rewrite N.eqb_refl, IH. Qed.

Lemma starts_with_long (t : text) :
  forall u v, (List.length t <= List.length u)%nat ->
              starts_with t (u ++ v) = starts_with t u.
Proof.
  induction t as [|c t IH]; intros u v Hl; [reflexivity|].
  destruct u as [|a u]; [cbn in Hl; lia|].
  cbn [app starts_with]. rewrite IH; [reflexivity|cbn in Hl; lia].
Qed.

(** With a continuation that fails before [s'] and succeeds there, the lazy
    quantifier over any character stops exactly at [s']. *)
Lemma lazy_any_reaches (K : kont) (s' : text) (cs : list (nat * text))
      (Hs : forall pv, exists z, K (MState pv s' cs) = Some z) :
  forall y fuel pv,
    (forall a b pv', y = a ++ b -> b <> [] -> K (MState pv' (b ++ s') cs) = None) ->
    (List.length y < fuel)%nat ->
    exists pv',
      rep_loop (rmatch (Chr Chars.any)) [] false K fuel 0 None (MState pv (y ++ s') cs)
      = K (MState pv' s' cs).
Proof.
  induction y as [|c y IH]; intros fuel pv Hnone Hfuel.
  - destruct fuel as [|fuel]; [lia|]. exists pv.
    cbn [rep_loop app Nat.eqb negb]. destruct (Hs pv) as (z & ->). reflexivity.
  - destruct fuel as [|fuel]; [cbn in Hfuel; lia|]. cbn [List.length] in Hfuel.
    destruct (IH fuel (Some c)) as (pv' & E).
    + intros a b pv' -> Hb. apply (Hnone (c :: a) b pv' eq_refl Hb).
    + lia.
    + exists pv'.
      pose proof (Hnone [] (c :: y) pv eq_refl ltac:(discriminate)) as Hk.
      cbn [rep_loop app Nat.eqb negb] in Hk |- *. rewrite Hk.
      pose proof (clear_caps_nil (MState pv (c :: y ++ s') cs)) as Hcc.
      rewrite Hcc. cbn [rmatch rest Chars.any].
      unfold advance, stalled. cbn [rest caps List.length Nat.eqb andb].
      rewrite length_neq_succ. exact E.
Qed.

(** ** Frontmatter: composing and parsing back *)

Lemma no_early_end_split (y : text) :
  no_early_end y = true ->
  forall a b body, y = a ++ b -> b <> [] ->
                   starts_with terminator (b ++ terminator ++ body) = false.
Proof.
  intros Hy a. revert y Hy. induction a as [|c a IH]; intros y Hy b body -> Hb.
  - cbn [app] in Hy. destruct b as [|c b]; [congruence|].
    cbn [no_early_end] in Hy. apply andb_true_iff in Hy as [Hy _].
    apply negb_true_iff in Hy.
    rewrite app_assoc, starts_with_long; [exact Hy|].
    rewrite length_app. cbn. lia.
  - cbn [app no_early_end] in Hy. apply andb_true_iff in Hy as [_ Hy].
    now apply (IH _ Hy b body eq_refl).
Qed.

Lemma search_hit (r : regex) (p : option char) (s : text) (m : rmatch_result) :
  exec_at r p s = Some m ->
  search r p s = Some ([], m, skipn (List.length (matched m)) s).
Proof. intros E. destruct s; cbn [search]; now rewrite E. Qed.

Lemma skipn_app_exact (a b : text) : skipn (List.length a) (a ++ b) = b.
Proof. induction a as [|c a IH]; [reflexivity|exact IH]. Qed.

Lemma frontmatter_match (y body : text) :
  no_early_end y = true ->
  exec_at RxFrontmatter.frontmatterRegex None (opener ++ y ++ terminator ++ body)
  = Some (MatchResult (opener ++ y ++ terminator) [(1%nat, y)]).
Proof.
  intros Hy.
  assert (E : rmatch RxFrontmatter.frontmatterRegex (fun z => Some z)
                     (MState None (opener ++ y ++ terminator ++ body) [])
              = Some (MState (Some 10%N) body [(1%nat, y)])).
  { unfold RxFrontmatter.frontmatterRegex. cbn [rmatch check prev].
    rewrite rmatch_lits. cbn [rest].
    change (js "---\n") with opener. rewrite starts_with_app.
    unfold after_lits. cbn [rest prev caps]. rewrite skipn_app_exact.
    unfold star_lazy. cbn [rmatch groups rest].
    set (K := fun y0 : mstate =>
                rmatch (lits (js "\n---\n\n")) (fun z => Some z)
                       (set_cap 1 (firstn (List.length (y ++ terminator ++ body)
                                           - List.length (rest y0))
                                          (y ++ terminator ++ body)) y0)).
    destruct (@lazy_any_reaches K (terminator ++ body) []) with
      (y := y) (fuel := S (0 + List.length (y ++ terminator ++ body)))
      (pv := prev_after opener None) as (pv' & El).
    - intros pv. unfold K. rewrite rmatch_lits. cbn [set_cap rest].
      change (js "\n---\n\n") with terminator. rewrite starts_with_app. eauto.
    - intros a b pv0 Hab Hb. unfold K. rewrite rmatch_lits. cbn [set_cap rest].
      change (js "\n---\n\n") with terminator.
      now rewrite (no_early_end_split y Hy a b body Hab Hb).
    - rewrite length_app. lia.
    - refine (eq_trans El _). unfold K. rewrite rmatch_lits.
      unfold set_cap. cbn [rest prev caps filter].
      change (js "\n---\n\n") with terminator. rewrite starts_with_app.
      unfold after_lits. cbn [rest prev caps]. rewrite skipn_app_exact.
      rewrite length_app, Nat.add_sub, firstn_app, firstn_all, Nat.sub_diag.
      cbn [firstn]. rewrite app_nil_r. reflexivity. }
  rewrite (@exec_at_of _ _ _ _ E). cbn [rest caps].
  do 2 f_equal.
  replace (opener ++ y ++ terminator ++ body) with ((opener ++ y ++ terminator) ++ body)
    by now rewrite <- !app_assoc.
  rewrite length_app, Nat.add_sub, firstn_app, firstn_all, Nat.sub_diag.
  cbn [firstn]. now rewrite app_nil_r.
Qed.

Section FrontmatterFacts.
Context {Y : Yaml}.

(** C7.  Composing frontmatter over a body and parsing the result back gives
    the composed fields and the body, for every body text, provided js-yaml
    keeps its part: the dumped text ends with a line break, the closing
    marker does not occur inside it, and loading the dumped text returns the
    mapping that was dumped. *)
Theorem frontmatter_round_trip (options : FrontmatterOptions) (fm : obj)
        (y body : text) :
  generateFrontmatter options = Ok fm ->
  yaml_dump fm = Ok (y ++ js "\n") ->
  no_early_end y = true ->
  yaml_load y = Ok (YMap fm) ->
  exists md,
    addFrontmatterToMarkdown body options = Ok md
    /\ parseFrontmatter md = {| frontmatter := Some (YMap fm); content := body |}.
Proof.
  intros Hgen Hdump Hclean Hload.
  exists (opener ++ y ++ terminator ++ body).
  assert (Hmd : addFrontmatterToMarkdown body options
                = Ok (opener ++ y ++ terminator ++ body)).
  { unfold addFrontmatterToMarkdown, frontmatterToYaml. rewrite Hgen. cbn [rbind].
    rewrite Hdump. cbn [rbind]. f_equal. unfold opener, terminator.
    rewrite <- !app_assoc. reflexivity. }
  split; [exact Hmd|].
  pose proof (frontmatter_match y body Hclean) as E.
  unfold parseFrontmatter, str_match, replace_first.
  rewrite (search_hit _ _ _ _ E). unfold cap_text. cbn [captures get_cap Nat.eqb matched].
  rewrite Hload. f_equal.
  replace (opener ++ y ++ terminator ++ body) with ((opener ++ y ++ terminator) ++ body)
    by now rewrite <- !app_assoc.
  now rewrite skipn_app_exact.
Qed.
End FrontmatterFacts.

Lemma frontmatter_round_trip_witness :
  exists md,
    addFrontmatterToMarkdown (Y := Sim.yaml) (js "# Intro\n\nSome text.\n") round_trip_fields
    = Ok md
    /\ parseFrontmatter (Y := Sim.yaml) md
       = {| frontmatter := Some (YMap round_trip_frontmatter);
            content := js "# Intro\n\nSome text.\n" |}.
Proof.
  apply (frontmatter_round_trip (Y := Sim.yaml) round_trip_fields round_trip_frontmatter
           (removelast (match Sim.dump round_trip_frontmatter with
                        | Ok t => t
                        | Err _ => []
                        end))
           (js "# Intro\n\nSome text.\n")); reflexivity.
Defined.

(** ** Objects *)

Lemma obj_has_in (k : text) (o : obj) : obj_has k o = true <-> In k (keys o).
Proof.
  unfold obj_has. induction o as [|[k' v'] o IH]; cbn [obj_get keys map fst In].
  - split; [discriminate|contradiction].
  - destruct (text_eqb k' k) eqn:E.
    + apply text_eqb_eq in E. split; auto.
    + split; [intros H; right; now apply IH|].
      intros [->|H]; [now rewrite text_eqb_refl in E|now apply IH].
Qed.

Lemma obj_has_not_in (k : text) (o : obj) : obj_has k o = false <-> ~ In k (keys o).
Proof.
  rewrite <- obj_has_in. destruct (obj_has k o); split; congruence.
Qed.

Lemma keys_update (k : text) (v : jsval) (o : obj) : keys (obj_update k v o) = keys o.
Proof.
  induction o as [|[k' v'] o IH]; [reflexivity|]. cbn [obj_update].
  destruct (text_eqb k' k); cbn [keys map fst]; [reflexivity|]. f_equal. exact IH.
Qed.

Lemma keys_insert_index (n : N) (k : text) (v : jsval) (o : obj) :
  exists a b, keys o = a ++ b /\ keys (obj_insert_index n k v o) = a ++ k :: b.
Proof.
  induction o as [|[k' v'] o (a & b & Ho & Hi)].
  - exists [], []. split; reflexivity.
  - cbn [obj_insert_index].
    destruct (array_index k') as [n'|]; [destruct (n' <? n)%N|].
    + exists (k' :: a), b. unfold keys in *. cbn [map fst app]. now rewrite Ho, Hi.
    + exists [], (k' :: keys o). split; reflexivity.
    + exists [], (k' :: keys o). split; reflexivity.
Qed.

Lemma keys_set (k : text) (v : jsval) (o : obj) :
  (In k (keys o) /\ keys (obj_set k v o) = keys o)
  \/ (~ In k (keys o) /\ exists a b, keys o = a ++ b /\ keys (obj_set k v o) = a ++ k :: b).
Proof.
  unfold obj_set. destruct (obj_has k o) eqn:E.
  - left. split; [now apply obj_has_in|apply keys_update].
  - right. split; [now apply obj_has_not_in|].
    destruct (array_index k) as [n|]; [apply keys_insert_index|].
    exists (keys o), []. unfold keys. rewrite map_app, app_nil_r. split; reflexivity.
Qed.

Lemma obj_set_nodup (k : text) (v : jsval) (o : obj) :
  NoDup (keys o) -> NoDup (keys (obj_set k v o)).
Proof.
  intros Hn. destruct (keys_set k v o) as [[_ ->]|[Hk (a & b & Ho & ->)]]; [exact Hn|].
  rewrite Ho in Hn, Hk. apply NoDup_Add with (a := k) (l := a ++ b); [|split; assumption].
  apply Add_app.
Qed.

Lemma obj_get_update_same (k : text) (v : jsval) (o : obj) :
  obj_has k o = true -> obj_get k (obj_update k v o) = Some v.
Proof.
  unfold obj_has. induction o as [|[k' v'] o IH]; cbn [obj_get obj_update]; [discriminate|].
  destruct (text_eqb k' k) eqn:E; cbn [obj_get]; rewrite E; [reflexivity|exact IH].
Qed.

Lemma obj_get_update_other (k k' : text) (v : jsval) (o : obj) :
  k <> k' -> obj_get k (obj_update k' v o) = obj_get k o.
Proof.
  intros Hk. induction o as [|[k0 v0] o IH]; [reflexivity|]. cbn [obj_update].
  destruct (text_eqb k0 k') eqn:E; cbn [obj_get]; [|now rewrite IH].
  apply text_eqb_eq in E. subst k0.
  now rewrite (text_eqb_neq k' k) by congruence.
Qed.

Lemma obj_get_insert_same (n : N) (k : text) (v : jsval) (o : obj) :
  obj_has k o = false -> obj_get k (obj_insert_index n k v o) = Some v.
Proof.
  unfold obj_has. induction o as [|[k' v'] o IH]; cbn [obj_get obj_insert_index].
  - now rewrite text_eqb_refl.
  - destruct (text_eqb k' k) eqn:E; [discriminate|]. intros Ho.
    destruct (array_index k') as [n'|]; [destruct (n' <? n)%N|];
      cbn [obj_get]; rewrite ?E, ?text_eqb_refl; auto.
Qed.

Lemma obj_get_insert_other (n : N) (k k' : text) (v : jsval) (o : obj) :
  k <> k' -> obj_get k (obj_insert_index n k' v o) = obj_get k o.
Proof.
  intros Hk. induction o as [|[k0 v0] o IH]; cbn [obj_get obj_insert_index].
  - now rewrite (text_eqb_neq k' k) by congruence.
  - destruct (array_index k0) as [n'|]; [destruct (n' <? n)%N|]; cbn [obj_get];
      rewrite ?IH, ?(text_eqb_neq k' k) by congruence; reflexivity.
Qed.

Lemma obj_get_app (k : text) (o1 o2 : obj) :
  obj_get k (o1 ++ o2)
  = match obj_get k o1 with Some v => Some v | None => obj_get k o2 end.
Proof.
  induction o1 as [|[k' v'] o1 IH]; [reflexivity|]. cbn [app obj_get].
  destruct (text_eqb k' k); [reflexivity|exact IH].
Qed.

Lemma obj_get_set_same (k : text) (v : jsval) (o : obj) :
  obj_get k (obj_set k v o) = Some v.
Proof.
  unfold obj_set. destruct (obj_has k o) eqn:E.
  - now apply obj_get_update_same.
  - destruct (array_index k) as [n|]; [now apply obj_get_insert_same|].
    rewrite obj_get_app. unfold obj_has in E.
    destruct (obj_get k o); [discriminate|]. cbn. now rewrite text_eqb_refl.
Qed.

Lemma obj_get_set_other (k k' : text) (v : jsval) (o : obj) :
  k <> k' -> obj_get k (obj_set k' v o) = obj_get k o.
Proof.
  intros Hk. unfold obj_set. destruct (obj_has k' o).
  - now apply obj_get_update_other.
  - destruct (array_index k') as [n|]; [now apply obj_get_insert_other|].
    rewrite obj_get_app. cbn [obj_get].
    rewrite (text_eqb_neq k' k) by congruence. now destruct (obj_get k o).
Qed.

Lemma spread_nodup (src : obj) :
  forall target, NoDup (keys target) -> NoDup (keys (spread target src)).
Proof.
  unfold spread. induction src as [|[k v] src IH]; intros target Hn; [exact Hn|].
  cbn [fold_left fst snd]. apply IH. now apply obj_set_nodup.
Qed.

Lemma obj_get_spread_other (k : text) (src : obj) :
  forall target, ~ In k (keys src) -> obj_get k (spread target src) = obj_get k target.
Proof.
  unfold spread. induction src as [|[k' v'] src IH]; intros target Hk; [reflexivity|].
  cbn [fold_left fst snd keys map In] in *.
  rewrite IH by tauto. apply obj_get_set_other. intros ->. tauto.
Qed.

Lemma obj_get_spread (k : text) (v : jsval) (src : obj) :
  forall target,
    NoDup (keys src) -> In (k, v) src -> obj_get k (spread target src) = Some v.
Proof.
  unfold spread. induction src as [|[k' v'] src IH]; intros target Hn Hin; [contradiction|].
  cbn [fold_left fst snd keys map] in *. inversion Hn as [|? ? Hk' Hn']; subst.
  destruct Hin as [E|Hin].
  - injection E as -> ->.
    fold (spread (obj_set k v target) src).
    rewrite obj_get_spread_other by exact Hk'. apply obj_get_set_same.
  - now apply IH.
Qed.

(** ** generateFrontmatter *)

(** C10.  A custom field overrides: whatever key a custom field has, the
    composed frontmatter maps that key to the custom value, and no key occurs
    twice.  In particular a custom field named title replaces the value of
    the recognized title instead of being emitted after it. *)
Theorem custom_field_overrides (options : FrontmatterOptions) (cf : obj)
        (k : text) (v : jsval) (fm : obj) :
  customFields options = Some cf ->
  NoDup (keys cf) ->
  In (k, v) cf ->
  generateFrontmatter options = Ok fm ->
  obj_get k fm = Some v /\ NoDup (keys fm).
Proof.
  intros Hcf Hn Hin Hgen. unfold generateFrontmatter in Hgen. rewrite Hcf in Hgen.
  destruct (length_gt0 _) as [nonempty|e]; cbn [rbind] in Hgen; [|discriminate].
  injection Hgen as <-. split.
  - now apply obj_get_spread.
  - repeat apply spread_nodup. cbn. constructor; [intros []|constructor].
Qed.

Lemma custom_field_overrides_witness :
  generateFrontmatter override_options
  = Ok [(js "title", JStr (js "Custom")); (js "section", JStr (js "1.1"));
        (js "author", JStr (js "A"))]
  /\ obj_get (js "title")
             [(js "title", JStr (js "Custom")); (js "section", JStr (js "1.1"));
              (js "author", JStr (js "A"))]
     = Some (JStr (js "Custom")).
Proof.
  split; [reflexivity|].
  apply (custom_field_overrides override_options
           [(js "author", JStr (js "A")); (js "title", JStr (js "Custom"))]
           (js "title") (JStr (js "Custom"))).
  - reflexivity.
  - cbn. repeat constructor; cbn; intuition discriminate.
  - right. left. reflexivity.
  - reflexivity.
Defined.

Section ComposeFacts.
Context {Y : Yaml}.

End ComposeFacts.



(** ** Batch conversion *)

Lemma filter_split_length {A} (f : A -> bool) (l : list A) :
  (List.length (filter f l) + List.length (filter (fun x => negb (f x)) l)
   = List.length l)%nat.
Proof.
  induction l as [|x l IH]; [reflexivity|]. cbn [filter].
  destruct (f x); cbn [negb List.length]; lia.
Qed.

Lemma converted_count_filter (entries : list BatchEntry) :
  List.length (filter (fun r => success r) entries) = converted_count entries.
Proof.
  induction entries as [|[d|f e] entries IH]; cbn; [reflexivity| |exact IH].
  now rewrite IH.
Qed.

Lemma failed_count_filter (entries : list BatchEntry) :
  List.length (filter (fun r => negb (success r)) entries) = failed_count entries.
Proof.
  induction entries as [|[d|f e] entries IH]; cbn; [reflexivity|exact IH|].
  now rewrite IH.
Qed.

Lemma counts_add_up (entries : list BatchEntry) :
  (converted_count entries + failed_count entries = List.length entries)%nat.
Proof. induction entries as [|[d|f e] entries IH]; cbn; lia. Qed.

Lemma summary_counts (entries : list BatchEntry) :
  createConversionSummary entries
  = {| total := List.length entries;
       successful := converted_count entries;
       failed := failed_count entries;
       successRate :=
         match entries with
         | [] => JNum 0
         | _ :: _ => JStr (percentage (converted_count entries) (List.length entries))
         end |}.
Proof.
  unfold createConversionSummary, percentage.
  rewrite converted_count_filter, failed_count_filter.
  destruct entries; reflexivity.
Qed.

Section BatchFacts.
Context {W : Type} {H : Host W}.

Lemma convertDocument_inputFile (inputPath : text) (options : DocumentOptions)
      (w w' : W) (d : DocumentResult) :
  convertDocument inputPath options w = (Ok d, w') -> inputFile d = inputPath.
Proof.
  unfold convertDocument, bind, ret. intros E.
  repeat match type of E with
         | context [match ?m with _ => _ end] =>
             destruct m as [[?|?] ?]; try discriminate
         end.
  now injection E as <- _.
Qed.

Lemma convert_one_outcome (inputFile : text) (options : DocumentOptions)
      (acc : list BatchEntry) (w w1 : W) (r : result DocumentResult) :
  convertDocument inputFile options w = (r, w1) ->
  convert_one inputFile options acc w
  = (Ok (acc ++ [outcome inputFile r]), log_outcome options inputFile r w1).
Proof.
  intros E. unfold convert_one, try_catch, bind, ret, log_outcome, log.
  rewrite E. destruct r; destruct (flag (verbose options) false); reflexivity.
Qed.

Lemma convert_each_processed (options : DocumentOptions) (inputFiles : list text) :
  forall acc w,
  exists entries w',
    processed options inputFiles w entries w'
    /\ convert_each inputFiles options acc w = (Ok (acc ++ entries), w').
Proof.
  induction inputFiles as [|f fs IH]; intros acc w.
  - exists [], w. split; [constructor|]. cbn. now rewrite app_nil_r.
  - destruct (convertDocument f options w) as [r w1] eqn:E.
    destruct (IH (acc ++ [outcome f r]) (log_outcome options f r w1))
      as (entries & w' & Hp & Hc).
    exists (outcome f r :: entries), w'. split; [econstructor; eauto|].
    cbn [convert_each]. unfold bind at 1.
    rewrite (convert_one_outcome f options acc w w1 r E), Hc.
    now rewrite <- app_assoc.
Qed.

Lemma processed_inputs (options : DocumentOptions) (inputFiles : list text)
      (w w' : W) (entries : list BatchEntry) :
  processed options inputFiles w entries w' ->
  map entry_inputFile entries = inputFiles.
Proof.
  induction 1 as [|f fs w w1 w2 r es E _ IH]; [reflexivity|].
  cbn [map]. rewrite IH. f_equal.
  destruct r as [d|e]; [|reflexivity]. cbn. eapply convertDocument_inputFile; eauto.
Qed.

(** C9.  Batch conversion never fails as a whole.  Every input file is
    converted in turn; a document whose conversion throws gets a failure
    entry with its path and the error message, and the documents after it
    are still converted.  The results have one entry per input file, in
    order.  The summary counts them: total is the number of input files,
    successful the number of documents that were converted, failed the
    number of those that were not, and the two add up to the total;
    successRate is the number 0 for an empty batch and otherwise
    toFixed(1) of the percentage of successful documents.  Three results
    with one failure give total 3, successful 2, failed 1, successRate
    66.7. *)
Theorem batch_isolates_failures :
  (forall inputFiles options w,
      exists entries w1,
        processed options inputFiles (batch_start inputFiles options w) entries w1
        /\ convertMultipleDocuments inputFiles options w
           = (Ok {| results := entries; summary := createConversionSummary entries |},
              batch_end entries options w1)
        /\ List.length entries = List.length inputFiles
        /\ map entry_inputFile entries = inputFiles
        /\ createConversionSummary entries
           = {| total := List.length inputFiles;
                successful := converted_count entries;
                failed := failed_count entries;
                successRate :=
                  match inputFiles with
                  | [] => JNum 0
                  | _ :: _ =>
                      JStr (percentage (converted_count entries) (List.length inputFiles))
                  end |}
        /\ (converted_count entries + failed_count entries = List.length inputFiles)%nat)
  /\ (forall entries,
         List.length entries = 3%nat ->
         failed_count entries = 1%nat ->
         createConversionSummary entries
         = {| total := 3; successful := 2; failed := 1; successRate := JStr (js "66.7") |}).
Proof.
  split.
  - intros inputFiles options w.
    destruct (convert_each_processed options inputFiles []
                (batch_start inputFiles options w)) as (entries & w1 & Hp & Hc).
    pose proof (processed_inputs _ _ _ _ _ Hp) as Hin.
    assert (Hlen : List.length entries = List.length inputFiles)
      by (rewrite <- Hin; now rewrite length_map).
    exists entries, w1.
    split; [exact Hp|]. split; [|split; [exact Hlen|split; [exact Hin|]]].
    + unfold convertMultipleDocuments, bind, ret, log, batch_start, batch_end in *.
      destruct (flag (verbose options) false); cbn [app] in Hc; rewrite Hc; reflexivity.
    + split; [|rewrite <- Hlen; apply counts_add_up].
      rewrite summary_counts, Hlen.
      destruct entries, inputFiles; try discriminate; reflexivity.
  - intros entries Hlen Hfail. rewrite summary_counts.
    destruct entries as [|e1 [|e2 [|e3 [|e4 entries]]]]; try discriminate.
    destruct e1, e2, e3; cbn in Hfail; try discriminate; vm_compute; reflexivity.
Qed.
End BatchFacts.

Lemma batch_isolates_failures_witness :
  exists entries w',
    convertMultipleDocuments (H := Sim.host) batch_files batch_options batch_world
    = (Ok {| results := entries;
             summary := {| total := 3; successful := 2; failed := 1;
                           successRate := JStr (js "66.7") |} |}, w')
    /\ map success entries = [true; false; true]
    /\ map entry_inputFile entries = batch_files.
Proof.
  destruct (proj1 (batch_isolates_failures (H := Sim.host))
                  batch_files batch_options batch_world)
    as (entries & w1 & _ & Hrun & Hlen & Hin & _).
  assert (Hs : map success entries = [true; false; true]).
  { clear - Hrun.
    apply (f_equal (fun p => match fst p with
                             | Ok b => map success (results b)
                             | Err _ => []
                             end)) in Hrun.
    cbn [fst results] in Hrun. rewrite <- Hrun. vm_compute. reflexivity. }
  exists entries, (batch_end (H := Sim.host) entries batch_options w1).
  split; [|split; [exact Hs|exact Hin]].
  rewrite Hrun. do 3 f_equal.
  apply (proj2 (batch_isolates_failures (H := Sim.host))); [exact Hlen|].
  clear - Hs. destruct entries as [|e1 [|e2 [|e3 [|e4 entries]]]]; try discriminate.
  destruct e1, e2, e3; try discriminate. reflexivity.
Defined.

(** ** Saving the images *)

Section ConverterFacts.
Context {W : Type} {H : Host W}.

Lemma save_images_cons (img : ImageRecord) (rest : list ImageRecord) (w : W) :
  save_images (img :: rest) w
  = match save_image img w with
    | (Ok _, w1) => save_images rest w1
    | (Err e, w1) => (Err e, w1)
    end.
Proof.
  cbn [save_images]. unfold save_image, bind, lift.
  destruct (Buffer_from_base64 (buffer img)) as [data|e]; [|reflexivity].
  destruct (fs_writeFile (path img) data w) as [[[]|e] w1]; reflexivity.
Qed.

Lemma save_images_fails (pre : list ImageRecord) (img : ImageRecord)
      (post : list ImageRecord) (e : error) :
  forall w w1 w2,
    save_images pre w = (Ok tt, w1) ->
    save_image img w1 = (Err e, w2) ->
    save_images (pre ++ img :: post) w = (Err e, w2).
Proof.
  induction pre as [|a pre IH]; intros w w1 w2 Hpre Hw.
  - cbn in Hpre. injection Hpre as <-. cbn [app]. rewrite save_images_cons.
    now rewrite Hw.
  - cbn [app] in *. rewrite save_images_cons in *.
    destruct (save_image a w) as [[[]|e'] wa]; [|discriminate].
    eapply IH; eauto.
Qed.

(** Saving a stored image fails before anything is written: Buffer.from
    rejects the promise that the handler kept. *)
Lemma save_image_rejected (img : ImageRecord) (w : W) :
  exists e, Buffer_from_base64 (buffer img) = Err e /\ save_image img w = (Err e, w).
Proof.
  unfold save_image, bind, lift. destruct (buffer img) as [content].
  eexists. split; reflexivity.
Qed.

(** C1, as the code has it.  When the directories are made, the document is
    read and converted, and then saving one of the images fails, the whole
    conversion fails: convertDocxToMarkdown throws
    Failed to convert document: followed by the message of that failure.
    No result is returned, so no warning is recorded, and the world is left
    as the failing step left it: the images after the failing one are not
    saved. *)
Theorem image_save_failure_is_fatal
        (inputPath outputDir buf : text) (doc : MammothDocument)
        (pre : list ImageRecord) (img : ImageRecord) (post : list ImageRecord)
        (e : error) (w wa wb wc wd we : W) :
  fs_mkdir_recursive outputDir w = (Ok tt, wa) ->
  fs_mkdir_recursive (path_join [outputDir; js "images"]) wa = (Ok tt, wb) ->
  fs_readFile inputPath wb = (Ok buf, wc) ->
  mammoth_read buf = Ok doc ->
  images (snd (run_handler outputDir (path_basename inputPath (Some (js ".docx")))
                           (doc_elements doc)
                           (createImageHandler outputDir
                              (path_basename inputPath (Some (js ".docx"))))))
  = pre ++ img :: post ->
  save_images pre wc = (Ok tt, wd) ->
  save_image img wd = (Err e, we) ->
  convertDocxToMarkdown inputPath
    {| opt_outputDir := Some outputDir; opt_extractImages := Some true |} w
  = (Err (js "Failed to convert document: " ++ e), we).
Proof.
  intros Hmk1 Hmk2 Hread Hdoc Himgs Hpre Hsaved.
  pose proof (save_images_fails pre img post e wc wd we Hpre Hsaved) as Hsave.
  unfold convertDocxToMarkdown, try_catch, bind, lift, throw.
  cbn [opt_outputDir opt_extractImages].
  rewrite Hmk1, Hmk2, Hread, Hdoc.
  destruct (run_handler _ _ _ _) as [srcs st]. cbn [snd] in Himgs.
  rewrite Himgs, Hsave. reflexivity.
Qed.
End ConverterFacts.

(** C1 as stated fails: in a directory where every file can be written,
    saving the first of two images fails, and the conversion throws; no
    result with a warning is returned, and neither image is written. *)
Lemma image_save_failure_aborts :
  fst (convertDocxToMarkdown (H := Sim.host) (js "/d/doc.docx") default_conversion
                             two_images_world)
  = Err (js "Failed to convert document: The first argument must be of type string or an instance of Buffer, ArrayBuffer, or Array or an Array-like Object. Received an instance of Promise")
  /\ Sim.written (snd (convertDocxToMarkdown (H := Sim.host) (js "/d/doc.docx")
                                             default_conversion two_images_world))
     = [].
Proof. split; vm_compute; reflexivity. Qed.

Lemma image_save_failure_is_fatal_witness :
  convertDocxToMarkdown (H := Sim.host) (js "/d/doc.docx")
    {| opt_outputDir := Some (js "/d"); opt_extractImages := Some true |}
    two_images_world
  = (Err (js "Failed to convert document: The first argument must be of type string or an instance of Buffer, ArrayBuffer, or Array or an Array-like Object. Received an instance of Promise"),
     two_images_world).
Proof.
  apply (image_save_failure_is_fatal (H := Sim.host)
           (js "/d/doc.docx") (js "/d") (js "First @ then @.")
           {| doc_elements := [Sim.png; Sim.png];
              doc_html := fun srcs =>
                match srcs with
                | Some l => Sim.render (js "First @ then @.") l
                | None => Sim.render (js "First @ then @.")
                            (repeat (js "data:image/png;base64,iVBORw0KGgo=") 2)
                end;
              doc_messages := [] |}
           []
           (record_of (H := Sim.host) (js "/d") (js "doc") 1 Sim.png)
           [record_of (H := Sim.host) (js "/d") (js "doc") 2 Sim.png]
           (js "The first argument must be of type string or an instance of Buffer, ArrayBuffer, or Array or an Array-like Object. Received an instance of Promise")
           two_images_world two_images_world two_images_world two_images_world
           two_images_world two_images_world); reflexivity.
Defined.

(** ** Title resolution *)

Lemma search_none (r : regex) (Q : text -> Prop)
      (Htail : forall c t, Q (c :: t) -> Q t)
      (Hnone : forall p s, Q s -> exec_at r p s = None) :
  forall s p, Q s -> search r p s = None.
Proof.
  induction s as [|c t IH]; intros p HQ; cbn [search]; rewrite Hnone by exact HQ.
  - reflexivity.
  - rewrite IH; [reflexivity|]. eapply Htail; eauto.
Qed.

Lemma str_match_needs (bad : char -> bool) (r : regex) (s : text) :
  needs bad r -> forallb (fun c => negb (bad c)) s = true -> str_match r s = None.
Proof.
  intros Hn Hs. unfold str_match.
  rewrite search_none with (Q := fun s => forallb (fun c => negb (bad c)) s = true); auto.
  - intros c t Hq. cbn in Hq. apply andb_true_iff in Hq. tauto.
  - intros p s0 Hq. now apply exec_at_needs with (bad := bad).
Qed.

Lemma needs_h1 : needs (Chars.eqc (ch "#")) RxTitle.h1.
Proof. apply needs_seq_r, needs_seq_l, needs_chr. auto. Qed.

Lemma needs_heading : needs (Chars.eqc (ch "#")) RxTitle.heading.
Proof.
  apply needs_seq_r, needs_seq_l, needs_rep; [lia|lia|]. apply needs_chr. auto.
Qed.

Lemma extractTitle_no_heading (markdown : text) :
  forallb (fun c => negb (Chars.eqc (ch "#") c)) markdown = true ->
  extractTitle markdown = js "Untitled Document".
Proof.
  intros Hm. unfold extractTitle.
  now rewrite (str_match_needs _ _ _ needs_h1 Hm), (str_match_needs _ _ _ needs_heading Hm).
Qed.

Section TitleFacts.
Context {W : Type} {H : Host W}.

(** C4.  Without a caller title, a document whose Markdown has no number
    sign (so no heading at all) gets the fixed title Untitled Document,
    whatever its file name is: extractTitle never returns an empty string
    for it, so the file-name branch of the resolution is not reached. *)
Theorem title_without_heading_is_constant
        (frontmatter : FrontmatterOptions) (markdown inputPath : text) :
  title frontmatter = None ->
  forallb (fun c => negb (Chars.eqc (ch "#") c)) markdown = true ->
  resolve_title frontmatter markdown inputPath = JStr (js "Untitled Document").
Proof.
  intros Ht Hm. unfold resolve_title. rewrite Ht, (extractTitle_no_heading _ Hm).
  reflexivity.
Qed.
End TitleFacts.

Lemma title_without_heading_is_constant_witness :
  resolve_title (H := Sim.host) no_frontmatter (js "Just a paragraph, no heading.")
                (js "/docs/lab-report.docx")
  = JStr (js "Untitled Document")
  /\ extractTitleFromFilename (H := Sim.host) (js "/docs/lab-report.docx")
     = js "Lab Report".
Proof.
  split.
  - apply (title_without_heading_is_constant (H := Sim.host)); reflexivity.
  - vm_compute. reflexivity.
Defined.

(** * Further properties *)

(** ** The extension of an image file *)

Lemma forallb_rev_true {A} (P : A -> bool) (l : list A) :
  forallb P l = true -> forallb P (rev l) = true.
Proof.
  rewrite !forallb_forall. intros Hl x Hx. apply Hl. now apply in_rev.
Qed.

Lemma split_on_pieces (sep : char) (s : text) :
  forall cur piece,
    forallb (Chars.neqc sep) cur = true ->
    In piece (split_on sep cur s) -> forallb (Chars.neqc sep) piece = true.
Proof.
  induction s as [|c t IH]; intros cur piece Hcur Hin; cbn [split_on] in Hin.
  - destruct Hin as [<-|[]]. now apply forallb_rev_true.
  - destruct (N.eqb_spec c sep) as [E|E].
    + destruct Hin as [<-|Hin]; [now apply forallb_rev_true|].
      now apply (IH [] piece).
    + apply (IH (c :: cur) piece); [|exact Hin].
      cbn [forallb]. rewrite Hcur, andb_true_r.
      unfold Chars.neqc. now apply negb_true_iff, N.eqb_neq.
Qed.

Lemma extension_of_safe (element : ImageElement) :
  extension_of element <> []
  /\ forallb (Chars.neqc (ch "/")) (extension_of element) = true.
Proof.
  unfold extension_of, or_default.
  destruct (nth_error (split (ch "/") (contentType element)) 1) as [[|c e]|] eqn:E;
    try (split; [discriminate|reflexivity]).
  split; [discriminate|].
  apply nth_error_In in E. now apply (split_on_pieces _ _ [] _ eq_refl) in E.
Qed.

Section ImageNames.
Context {W : Type} {H : Host W}.

(** X1.  The file name of an extracted image ends with an extension that is
    never empty and holds no slash, whatever the content type of the image
    says; the file goes to the images directory under that name. *)
Theorem image_names_are_safe (outputDir documentName : text)
        (elements : list ImageElement) (record : ImageRecord) :
  In record (images (snd (run_handler outputDir documentName elements
                                      (createImageHandler outputDir documentName)))) ->
  exists ordinal extension,
    name record
    = documentName ++ js "-image-" ++ num_to_text ordinal ++ js "." ++ extension
    /\ extension <> []
    /\ forallb (Chars.neqc (ch "/")) extension = true
    /\ path record = path_join [outputDir; js "images"; name record].
Proof.
  rewrite run_handler_from. cbn [snd images createImageHandler app].
  unfold records_from. intros Hin. apply in_map_iff in Hin as ([ordinal element] & <- & _).
  exists ordinal, (extension_of element). cbn [fst snd record_of name path].
  destruct (extension_of_safe element) as [Hne Hslash].
  repeat split; auto.
Qed.
End ImageNames.

Lemma image_names_are_safe_witness :
  exists ordinal extension,
    js "doc-image-2.png"
    = js "doc" ++ js "-image-" ++ num_to_text ordinal ++ js "." ++ extension
    /\ extension <> []
    /\ forallb (Chars.neqc (ch "/")) extension = true
    /\ js "out/images/doc-image-2.png"
       = path_join (Host := Sim.host) [js "out"; js "images"; js "doc-image-2.png"].
Proof.
  apply (image_names_are_safe (H := Sim.host) (js "out") (js "doc")
           [Sim.png; {| read_base64 := js "AAAA"; contentType := js "image/" |}]
           {| buffer := Pending (js "AAAA"); path := js "out/images/doc-image-2.png";
              name := js "doc-image-2.png";
              placeholder := js "![Image 2](./images/doc-image-2.png)" |}).
  vm_compute. right. left. reflexivity.
Defined.

(** ** generateFrontmatter: the one way it throws *)

(** X2.  generateFrontmatter throws exactly when objectives is null: the
    default (an empty array) replaces a missing or undefined value only, and
    null has no length.  A null section or chapter, by contrast, is left
    out. *)
Theorem generateFrontmatter_throws_iff (options : FrontmatterOptions) :
  (exists e, generateFrontmatter options = Err e) <-> objectives options = Some JNull.
Proof.
  unfold generateFrontmatter. split.
  - intros [e E]. destruct (objectives options) as [[| | | | |]|]; cbn in E;
      try discriminate; reflexivity.
  - intros ->. cbn. eauto.
Qed.

(** ** convertDocxToMarkdown: every failure is reported the same way *)

Section ConversionErrors.
Context {W : Type} {H : Host W}.

(** X3.  convertDocxToMarkdown throws exactly when one of its steps fails
    (making the output directory, making the images directory, reading the
    document, mammoth, saving the images, reading the clock), and the error
    that leaves it then has the message Failed to convert document:
    followed by the message of the step that failed first; the world is the
    one that step left. *)
Theorem conversion_errors_are_wrapped (inputPath : text) (options : ConversionOptions)
        (w w' : W) (e : error) :
  convertDocxToMarkdown inputPath options w = (Err e, w')
  <-> exists cause,
        e = js "Failed to convert document: " ++ cause
        /\ failing_step inputPath options w cause w'.
Proof.
  unfold convertDocxToMarkdown, try_catch, throw, bind, lift, ret.
  fold (conversion_dir inputPath options). fold (extracting options).
  split.
  - intros E.
    destruct (fs_mkdir_recursive (conversion_dir inputPath options) w)
      as [[[]|c] wa] eqn:E1;
      [|injection E as <- <-; eexists; split; [reflexivity|now apply fails_output_dir]].
    destruct (extracting options) eqn:Ex.
    + destruct (fs_mkdir_recursive _ wa) as [[[]|c] wb] eqn:E2;
        [|injection E as <- <-; eexists; split;
          [reflexivity|now apply (fails_images_dir _ _ _ _ _ wa)]].
      assert (Hd : dirs_made inputPath options w wb).
      { exists wa. rewrite Ex. auto. }
      destruct (fs_readFile inputPath wb) as [[buf|c] wc] eqn:E3;
        [|injection E as <- <-; eexists; split;
          [reflexivity|now apply (fails_reading _ _ _ _ _ wb)]].
      destruct (mammoth_read buf) as [doc|c] eqn:E4;
        [|injection E as <- <-; eexists; split;
          [reflexivity|now apply (fails_mammoth _ _ _ _ _ wb buf)]].
      rewrite run_handler_from in E.
      cbn [images createImageHandler imageCounter app] in E.
      fold (collected inputPath options doc) in E.
      destruct (save_images (collected inputPath options doc) wc) as [[[]|c] wd] eqn:E5;
        [|injection E as <- <-; eexists; split;
          [reflexivity|now apply (fails_saving _ _ _ _ _ wb wc buf doc)]].
      destruct (date_toISOString wd) as [[t|c] we] eqn:E6; [discriminate|].
      injection E as <- <-. eexists. split; [reflexivity|].
      apply (fails_clock _ _ _ _ _ wb wc wd buf doc); auto. now rewrite Ex.
    + assert (Hd : dirs_made inputPath options w wa).
      { exists wa. rewrite Ex. auto. }
      destruct (fs_readFile inputPath wa) as [[buf|c] wc] eqn:E3;
        [|injection E as <- <-; eexists; split;
          [reflexivity|now apply (fails_reading _ _ _ _ _ wa)]].
      destruct (mammoth_read buf) as [doc|c] eqn:E4;
        [|injection E as <- <-; eexists; split;
          [reflexivity|now apply (fails_mammoth _ _ _ _ _ wa buf)]].
      destruct (date_toISOString wc) as [[t|c] we] eqn:E6; [discriminate|].
      injection E as <- <-. eexists. split; [reflexivity|].
      apply (fails_clock _ _ _ _ _ wa wc wc buf doc); auto. now rewrite Ex.
  - intros (cause & -> & F).
    destruct F as [E1|wa Ex E1 E2|wb (wa & E1 & E2) E3|wb buf (wa & E1 & E2) E3 E4
                   |wb wc buf doc (wa & E1 & E2) E3 E4 Ex E5
                   |wb wc wd buf doc (wa & E1 & E2) E3 E4 E5 E6].
    + now rewrite E1.
    + now rewrite E1, Ex, E2.
    + rewrite E1. destruct (extracting options); [rewrite E2|subst wb]; now rewrite E3.
    + rewrite E1. destruct (extracting options); [rewrite E2|subst wb];
        now rewrite E3, E4.
    + rewrite E1. rewrite Ex in *. rewrite E2, E3, E4, run_handler_from.
      cbn [images createImageHandler imageCounter app].
      fold (collected inputPath options doc). now rewrite E5.
    + rewrite E1. destruct (extracting options).
      * rewrite E2, E3, E4, run_handler_from.
        cbn [images createImageHandler imageCounter app].
        fold (collected inputPath options doc). now rewrite E5, E6.
      * subst wb wd. now rewrite E3, E4, E6.
Qed.
(** ** validateInputFile and what convertDocument does before converting *)

(** X4.  validateInputFile returns true, and nothing else, exactly when the
    file can be accessed, its name ends with .docx in any letter case, and it
    can be read; the two probes run in that order. *)
Theorem validation_accepts_iff (filePath : text) (w w' : W) (b : bool) :
  validateInputFile filePath w = (Ok b, w')
  <-> b = true
      /\ is_docx filePath = true
      /\ exists w1, fs_access filePath w = (Ok tt, w1)
                    /\ fs_access_R_OK filePath w1 = (Ok tt, w').
Proof.
  unfold validateInputFile, fileExists, try_catch, bind, ret, throw. split.
  - destruct (fs_access filePath w) as [[[]|e] w1] eqn:Ea; cbn [negb]; [|discriminate].
    destruct (is_docx filePath); cbn [negb]; [|discriminate].
    destruct (fs_access_R_OK filePath w1) as [[[]|e] w2] eqn:Er; [|discriminate].
    intros E. injection E as <- <-. eauto.
  - intros (-> & Hd & w1 & Ea & Er). rewrite Ea. cbn [negb]. rewrite Hd. cbn [negb].
    now rewrite Er.
Qed.

(** X5.  A path that fails validation is rejected before anything is
    converted: convertDocument throws the message of the first check that
    fails (existence, then extension, then readability), not wrapped in Failed
    to convert document, and the world has only been probed. *)
Theorem invalid_input_is_rejected_first (inputPath : text) (options : DocumentOptions)
        (w : W) :
  (forall e w1,
      fs_access inputPath w = (Err e, w1) ->
      convertDocument inputPath options w
      = (Err (js "File not found: " ++ inputPath), w1))
  /\ (forall w1,
         fs_access inputPath w = (Ok tt, w1) ->
         is_docx inputPath = false ->
         convertDocument inputPath options w
         = (Err (js "Invalid file type. Expected .docx file, got: "
                 ++ path_extname inputPath), w1))
  /\ (forall w1 e w2,
         fs_access inputPath w = (Ok tt, w1) ->
         is_docx inputPath = true ->
         fs_access_R_OK inputPath w1 = (Err e, w2) ->
         convertDocument inputPath options w
         = (Err (js "File is not readable: " ++ inputPath), w2)).
Proof.
  unfold convertDocument, validateInputFile, fileExists, try_catch, bind, ret, throw.
  repeat split.
  - intros e w1 ->. reflexivity.
  - intros w1 -> ->. reflexivity.
  - intros w1 e w2 -> ->. cbn [negb]. intros ->. reflexivity.
Qed.
End ConversionErrors.

Lemma validation_accepts_iff_witness :
  validateInputFile (H := Sim.host) (js "/in/A.DOCX")
    (Sim.world [(js "/in/A.DOCX", js "text")] [])
  = (Ok true, Sim.world [(js "/in/A.DOCX", js "text")] []).
Proof.
  apply (validation_accepts_iff (H := Sim.host)).
  split; [reflexivity|]. split; [reflexivity|].
  exists (Sim.world [(js "/in/A.DOCX", js "text")] []). split; reflexivity.
Defined.

Lemma invalid_input_is_rejected_first_witness :
  convertDocument (H := Sim.host) (js "/in/missing.txt") batch_options batch_world
  = (Err (js "File not found: /in/missing.txt"), batch_world)
  /\ convertDocument (H := Sim.host) (js "/in/notes.txt") batch_options
       (Sim.world [(js "/in/notes.txt", js "text")] [])
     = (Err (js "Invalid file type. Expected .docx file, got: .txt"),
        Sim.world [(js "/in/notes.txt", js "text")] []).
Proof.
  split.
  - apply (proj1 (invalid_input_is_rejected_first (H := Sim.host)
                    (js "/in/missing.txt") batch_options batch_world)
             (js "ENOENT: no such file or directory, access '/in/missing.txt'")).
    reflexivity.
  - apply (proj1 (proj2 (invalid_input_is_rejected_first (H := Sim.host)
                    (js "/in/notes.txt") batch_options
                    (Sim.world [(js "/in/notes.txt", js "text")] []))));
      reflexivity.
Defined.

Lemma conversion_errors_are_wrapped_witness :
  exists cause,
    js "Failed to convert document: ENOENT: no such file or directory, open '/in/none.docx'"
    = js "Failed to convert document: " ++ cause
    /\ failing_step (H := Sim.host) (js "/in/none.docx") default_conversion batch_world
                    cause batch_world.
Proof.
  apply (proj1 (conversion_errors_are_wrapped (H := Sim.host) (js "/in/none.docx")
                  default_conversion batch_world batch_world _)).
  reflexivity.
Defined.

(** ** convertDocument: a title key that is present *)

Section TitleKey.
Context {W : Type} {H : Host W}.

(** X6.  When the frontmatter option has a title key, that key alone decides
    the title of the front matter, even when its value is null or the empty
    string: the title extracted from the document is computed and then
    overwritten by the spread of the option.  With an undefined title (what
    the command line passes when no title is given) the front matter written
    has the title Untitled, whatever the headings of the document are. *)
Theorem present_title_key_wins (inputPath : text) (options : DocumentOptions)
        (f : FrontmatterOptions) (v : jsval) (w w' : W) (r : DocumentResult) :
  frontmatter_opt options = Some f ->
  title f = Some v ->
  customFields f = None ->
  convertDocument inputPath options w = (Ok r, w') ->
  exists conv fm yamlString conversionOptions w0 w1,
    convertDocxToMarkdown inputPath conversionOptions w0 = (Ok conv, w1)
    /\ generateFrontmatter f = Ok fm
    /\ obj_get (js "title") fm = Some (js_default (JStr (js "Untitled")) (Some v))
    /\ yaml_dump fm = Ok yamlString
    /\ fs_writeFile (outputFile r)
                    (js "---\n" ++ yamlString ++ js "---\n\n" ++ markdown conv) w1
       = (Ok tt, w').
Proof.
  intros Hf Ht Hc. unfold convertDocument, bind, lift. rewrite Hf.
  destruct (validateInputFile inputPath w) as [[b|e] wa]; [|discriminate].
  set (wb := snd ((if flag (verbose options) false
                   then log console_log (js "Converting: " ++ path_basename inputPath None)
                   else ret tt) wa)).
  assert (Hlog : (if flag (verbose options) false
                  then log console_log (js "Converting: " ++ path_basename inputPath None)
                  else ret tt) wa = (Ok tt, wb)).
  { subst wb. destruct (flag (verbose options) false); reflexivity. }
  rewrite Hlog.
  match goal with
  | |- context [convertDocxToMarkdown ?p ?o ?x] =>
      set (co := o); destruct (convertDocxToMarkdown p co x) as [[conv|e] w1] eqn:Ec
  end; [|discriminate].
  assert (Hw : with_title (resolve_title f (markdown conv) inputPath) f = f).
  { unfold with_title. rewrite Ht. destruct f; cbn in *. now subst. }
  rewrite Hw. unfold addFrontmatterToMarkdown, frontmatterToYaml, rbind.
  destruct (generateFrontmatter f) as [fm|e] eqn:Eg; [|discriminate].
  destruct (yaml_dump fm) as [y|e] eqn:Ey; [|discriminate].
  match goal with
  | |- context [fs_writeFile ?p ?d ?x] =>
      destruct (fs_writeFile p d x) as [[[]|e] w2] eqn:Ew; [|discriminate]
  end.
  unfold ret. intros E. injection E as <- <-. cbn [outputFile].
  exists conv, fm, y, co, wb, w1. split; [exact Ec|]. split; [reflexivity|]. split.
  - unfold generateFrontmatter in Eg. rewrite Ht, Hc in Eg. unfold rbind in Eg.
    destruct (length_gt0 _) as [n|] in Eg; [|discriminate].
    injection Eg as <-.
    rewrite !obj_get_spread_other.
    all: try (unfold when;
              match goal with |- ~ In _ (keys (if ?c then _ else _)) => destruct c end;
              cbn; [intros [E|[]]; discriminate|tauto]).
    cbn [obj_get]. now rewrite text_eqb_refl.
  - split; [exact Ey|]. rewrite <- !app_assoc in Ew. exact Ew.
Qed.
End TitleKey.

Lemma present_title_key_wins_witness :
  convertDocument (H := Sim.host) (js "/in/a.docx") undefined_title_options titled_world
  = (Ok titled_result, titled_world_after)
  /\ exists conv fm yamlString conversionOptions w0 w1,
       convertDocxToMarkdown (H := Sim.host) (js "/in/a.docx") conversionOptions w0
       = (Ok conv, w1)
       /\ generateFrontmatter undefined_title = Ok fm
       /\ obj_get (js "title") fm = Some (JStr (js "Untitled"))
       /\ yaml_dump (Yaml := Sim.yaml) fm = Ok yamlString
       /\ fs_writeFile (Host := Sim.host) (js "/out/a.md")
            (js "---\n" ++ yamlString ++ js "---\n\n" ++ markdown conv) w1
          = (Ok tt, titled_world_after).
Proof.
  split; [vm_compute; reflexivity|].
  apply (present_title_key_wins (H := Sim.host) (js "/in/a.docx") undefined_title_options
           undefined_title JUndefined titled_world titled_world_after titled_result);
    reflexivity.
Defined.

(** ** mergeFrontmatter *)

Lemma obj_get_in (k : text) (v : jsval) (o : obj) :
  obj_get k o = Some v -> In (k, v) o.
Proof.
  induction o as [|[k' v'] o IH]; cbn [obj_get]; [discriminate|].
  destruct (text_eqb k' k) eqn:E.
  - apply text_eqb_eq in E as ->. intros [= ->]. now left.
  - intros Hg. right. now apply IH.
Qed.

Lemma obj_get_spread_either (k : text) (src target : obj) :
  NoDup (keys src) ->
  obj_get k (spread target src)
  = match obj_get k src with Some v => Some v | None => obj_get k target end.
Proof.
  intros Hn. destruct (obj_get k src) as [v|] eqn:E.
  - apply obj_get_in in E. now apply obj_get_spread.
  - apply obj_get_spread_other. apply obj_has_not_in. unfold obj_has. now rewrite E.
Qed.

(** X7.  Merging updates that carry an array of objectives: the merged
    objectives are the existing ones (none when the key is missing) followed
    by the new ones; every other key has the value of the updates when they
    have the key and the existing value otherwise; no key occurs twice. *)
Theorem merge_concatenates_objectives (existing updates : obj) (old new : list jsval) :
  NoDup (keys existing) -> NoDup (keys updates) ->
  obj_get (js "objectives") existing = Some (JArr old)
  \/ (obj_get (js "objectives") existing = None /\ old = []) ->
  obj_get (js "objectives") updates = Some (JArr new) ->
  exists merged,
    mergeFrontmatter existing updates = Ok merged
    /\ obj_get (js "objectives") merged = Some (JArr (old ++ new))
    /\ (forall k, k <> js "objectives" ->
                  obj_get k merged
                  = match obj_get k updates with
                    | Some v => Some v
                    | None => obj_get k existing
                    end)
    /\ NoDup (keys merged).
Proof.
  intros Hne Hnu Hold Hnew.
  assert (Ho : iterate "(existing.objectives || [])"
                       (or_else (prop "objectives" existing) (JArr [])) = Ok old).
  { unfold prop. destruct Hold as [->|[-> ->]]; reflexivity. }
  unfold mergeFrontmatter. rewrite Ho. unfold prop at 1 2. rewrite Hnew.
  cbn [truthy iterate rbind].
  eexists. split; [reflexivity|]. split; [|split].
  - apply obj_get_spread; [repeat constructor; auto|now left].
  - intros k Hk. rewrite obj_get_spread_other
      by (cbn [keys map fst In]; intros [E|[]]; now apply Hk).
    rewrite obj_get_spread_either by exact Hnu.
    destruct (obj_get k updates); [reflexivity|].
    rewrite obj_get_spread_either by exact Hne.
    destruct (obj_get k existing); reflexivity.
  - repeat apply spread_nodup. constructor.
Qed.

Lemma merge_concatenates_objectives_witness :
  exists merged,
    mergeFrontmatter
      [(js "title", JStr (js "T")); (js "objectives", JArr [JStr (js "a")])]
      [(js "objectives", JArr [JStr (js "b")]); (js "section", JStr (js "1.2"))]
    = Ok merged
    /\ obj_get (js "objectives") merged = Some (JArr ([JStr (js "a")] ++ [JStr (js "b")]))
    /\ (forall k, k <> js "objectives" ->
                  obj_get k merged
                  = match obj_get k [(js "objectives", JArr [JStr (js "b")]);
                                     (js "section", JStr (js "1.2"))] with
                    | Some v => Some v
                    | None => obj_get k [(js "title", JStr (js "T"));
                                         (js "objectives", JArr [JStr (js "a")])]
                    end)
    /\ NoDup (keys merged).
Proof.
  apply merge_concatenates_objectives.
  - repeat constructor; cbn; intuition discriminate.
  - repeat constructor; cbn; intuition discriminate.
  - left. reflexivity.
  - reflexivity.
Defined.

(** X8.  Merging updates whose objectives are falsy (null, the empty string,
    0, false) or are not iterable.  A falsy value is not merged: it replaces
    the existing objectives, which are lost.  A truthy number or boolean makes
    mergeFrontmatter throw. *)
Theorem merge_without_array_of_objectives (existing updates : obj) (v : jsval) :
  NoDup (keys updates) ->
  obj_get (js "objectives") updates = Some v ->
  (truthy v = false ->
   exists merged, mergeFrontmatter existing updates = Ok merged
                  /\ obj_get (js "objectives") merged = Some v)
  /\ (truthy v = true -> (forall l, v <> JArr l) -> (forall s, v <> JStr s) ->
      exists e, mergeFrontmatter existing updates = Err e).
Proof.
  intros Hnu Hv. unfold mergeFrontmatter, prop. rewrite Hv. split.
  - intros ->. eexists. split; [reflexivity|].
    rewrite obj_get_spread_either by exact Hnu. now rewrite Hv.
  - intros -> Ha Hs. unfold rbind.
    destruct (iterate _ (or_else _ _)) as [old|e]; [|eauto].
    destruct v as [| |b|n|s|l]; cbn [iterate]; eauto.
    + now destruct (Hs s).
    + now destruct (Ha l).
Qed.

Lemma merge_without_array_of_objectives_witness :
  (exists merged,
      mergeFrontmatter [(js "objectives", JArr [JStr (js "a")])] [(js "objectives", JNull)]
      = Ok merged
      /\ obj_get (js "objectives") merged = Some JNull)
  /\ exists e,
       mergeFrontmatter [(js "objectives", JArr [JStr (js "a")])] [(js "objectives", JNum 3)]
       = Err e.
Proof.
  split.
  - apply (merge_without_array_of_objectives _ [(js "objectives", JNull)] JNull);
      [repeat constructor; cbn; tauto|reflexivity|reflexivity].
  - apply (merge_without_array_of_objectives _ [(js "objectives", JNum 3)] (JNum 3));
      [repeat constructor; cbn; tauto|reflexivity|reflexivity|discriminate|discriminate].
Defined.

(** ** Properties of configuration objects *)

Lemma own_in (k : text) (o : properties) :
  (exists v, own k o = Some v) <-> In k (map fst o).
Proof.
  induction o as [|[k' v'] o IH]; cbn [own map fst In].
  - split; [intros [v E]; discriminate|contradiction].
  - destruct (text_eqb k' k) eqn:E.
    + apply text_eqb_eq in E. split; eauto.
    + split; [intros Hv; right; now apply IH|].
      intros [->|Hi]; [now rewrite text_eqb_refl in E|now apply IH].
Qed.

Lemma own_some_in (k : text) (v : value) (o : properties) :
  own k o = Some v -> In (k, v) o.
Proof.
  induction o as [|[k' v'] o IH]; cbn [own]; [discriminate|].
  destruct (text_eqb k' k) eqn:E.
  - apply text_eqb_eq in E as ->. intros [= ->]. now left.
  - intros Hg. right. now apply IH.
Qed.

Lemma own_overwrite_same (k : text) (v : value) (o : properties) :
  own k o <> None -> own k (overwrite k v o) = Some v.
Proof.
  induction o as [|[k' v'] o IH]; cbn [own overwrite]; [congruence|].
  destruct (text_eqb k' k) eqn:E; cbn [own]; rewrite E; [reflexivity|exact IH].
Qed.

Lemma own_overwrite_other (k k' : text) (v : value) (o : properties) :
  k <> k' -> own k (overwrite k' v o) = own k o.
Proof.
  intros Hk. induction o as [|[k0 v0] o IH]; [reflexivity|]. cbn [overwrite].
  destruct (text_eqb k0 k') eqn:E; cbn [own]; [|now rewrite IH].
  apply text_eqb_eq in E. subst k0.
  now rewrite (text_eqb_neq k' k) by congruence.
Qed.

Lemma own_insert_same (n : N) (k : text) (v : value) (o : properties) :
  own k o = None -> own k (insert_index n k v o) = Some v.
Proof.
  induction o as [|[k' v'] o IH]; cbn [own insert_index].
  - now rewrite text_eqb_refl.
  - destruct (text_eqb k' k) eqn:E; [discriminate|]. intros Ho.
    destruct (array_index k') as [n'|]; [destruct (n' <? n)%N|];
      cbn [own]; rewrite ?E, ?text_eqb_refl; auto.
Qed.

Lemma own_insert_other (n : N) (k k' : text) (v : value) (o : properties) :
  k <> k' -> own k (insert_index n k' v o) = own k o.
Proof.
  intros Hk. induction o as [|[k0 v0] o IH]; cbn [own insert_index].
  - now rewrite (text_eqb_neq k' k) by congruence.
  - destruct (array_index k0) as [n'|]; [destruct (n' <? n)%N|]; cbn [own];
      rewrite ?IH, ?(text_eqb_neq k' k) by congruence; reflexivity.
Qed.

Lemma own_app (k : text) (o1 o2 : properties) :
  own k (o1 ++ o2) = match own k o1 with Some v => Some v | None => own k o2 end.
Proof.
  induction o1 as [|[k' v'] o1 IH]; [reflexivity|]. cbn [app own].
  destruct (text_eqb k' k); [reflexivity|exact IH].
Qed.

Lemma own_define_same (k : text) (v : value) (o : properties) :
  own k (define k v o) = Some v.
Proof.
  unfold define. destruct (own k o) eqn:E.
  - apply own_overwrite_same. congruence.
  - destruct (array_index k) as [n|]; [now apply own_insert_same|].
    rewrite own_app, E. cbn. now rewrite text_eqb_refl.
Qed.

Lemma own_define_other (k k' : text) (v : value) (o : properties) :
  k <> k' -> own k (define k' v o) = own k o.
Proof.
  intros Hk. unfold define. destruct (own k' o).
  - now apply own_overwrite_other.
  - destruct (array_index k') as [n|]; [now apply own_insert_other|].
    rewrite own_app. cbn [own].
    rewrite (text_eqb_neq k' k) by congruence. now destruct (own k o).
Qed.

Lemma own_fold_other (k : text) (src : properties) :
  forall target,
    ~ In k (map fst src) ->
    own k (fold_left (fun acc e => define (fst e) (snd e) acc) src target) = own k target.
Proof.
  induction src as [|[k' v'] src IH]; intros target Hk; [reflexivity|].
  cbn [fold_left fst snd map In] in *.
  rewrite IH by tauto. apply own_define_other. intros ->. tauto.
Qed.

Lemma own_fold_in (k : text) (v : value) (src : properties) :
  forall target,
    NoDup (map fst src) -> In (k, v) src ->
    own k (fold_left (fun acc e => define (fst e) (snd e) acc) src target) = Some v.
Proof.
  induction src as [|[k' v'] src IH]; intros target Hn Hin; [contradiction|].
  cbn [fold_left fst snd map] in *. inversion Hn as [|? ? Hk' Hn']; subst.
  destruct Hin as [E|Hin].
  - injection E as -> ->. rewrite own_fold_other by exact Hk'. apply own_define_same.
  - now apply IH.
Qed.

Lemma own_fold_either (k : text) (src target : properties) :
  NoDup (map fst src) ->
  own k (fold_left (fun acc e => define (fst e) (snd e) acc) src target)
  = match own k src with Some v => Some v | None => own k target end.
Proof.
  intros Hn. destruct (own k src) as [v|] eqn:E.
  - apply own_some_in in E. now apply own_fold_in.
  - apply own_fold_other. intros Hi. apply own_in in Hi as [v Hv]. congruence.
Qed.

(** ** mergeOptions under the options of the command line *)

Lemma optional_member_field (k : string) (v : value) :
  optional_member k v = Ok (field k v).
Proof. destruct v; reflexivity. Qed.





(** ** validateConfig and mergeOptions *)

Lemma validateConfig_object (c : properties) :
  validateConfig (VObj c) = Ok true <-> well_typed (VObj c).
Proof.
  unfold validateConfig, well_typed. cbn [member rbind].
  rewrite !optional_member_field. cbn [rbind]. cbn [field].
  set (fm := match own (js "frontmatter") c with Some x => x | None => VUndefined end).
  set (out := match own (js "outputDir") c with Some x => x | None => VUndefined end).
  unfold push_if.
  destruct (field "chapter" fm) as [| | | | | |] eqn:Ec;
    destruct (field "objectives" fm) as [| | | | | |] eqn:Eo;
    destruct out as [| | | | | |] eqn:Eu; cbn;
    (split; [try discriminate; intros _; repeat split; auto
            |try reflexivity; intros (H1 & H2 & H3);
             repeat match goal with
                    | H : _ \/ _ |- _ => destruct H; try discriminate
                    end]).
Qed.

Lemma object_or_missing_entries (v : value) :
  object_or_missing v ->
  exists o, NoDup (map fst o)
            /\ entries_of (or_object v) = o
            /\ forall k, field k v
                         = match own (js k) o with Some x => x | None => VUndefined end.
Proof.
  intros [->|(o & -> & Hn)].
  - exists []. repeat split; constructor.
  - exists o. repeat split; auto.
Qed.

Lemma own_merged (k : text) (a b : properties) :
  NoDup (map fst a) -> NoDup (map fst b) ->
  own k (fold_left (fun acc e => define (fst e) (snd e) acc) b
           (fold_left (fun acc e => define (fst e) (snd e) acc) a []))
  = match own k b with Some v => Some v | None => own k a end.
Proof.
  intros Ha Hb. rewrite own_fold_either by exact Hb.
  destruct (own k b); [reflexivity|].
  rewrite own_fold_either by exact Ha. now destruct (own k a).
Qed.

(** X10.  Merging keeps a configuration well typed: when the options of the
    configuration file and those of the command line both pass validateConfig,
    so do the merged options. *)
Theorem merged_options_stay_valid (c l merged : properties) :
  NoDup (map fst c) -> NoDup (map fst l) ->
  object_or_missing (field "frontmatter" (VObj c)) ->
  object_or_missing (field "frontmatter" (VObj l)) ->
  validateConfig (VObj c) = Ok true ->
  validateConfig (VObj l) = Ok true ->
  mergeOptions (VObj c) (VObj l) = Ok merged ->
  validateConfig (VObj merged) = Ok true.
Proof.
  intros Hnc Hnl Hfc Hfl Hc Hl Hm.
  apply validateConfig_object in Hc as (Hc1 & Hc2 & Hc3).
  apply validateConfig_object in Hl as (Hl1 & Hl2 & Hl3).
  apply validateConfig_object.
  unfold mergeOptions in Hm. cbn [or_empty_object member rbind] in Hm.
  injection Hm as <-.
  destruct (object_or_missing_entries _ Hfc) as (co & Hnco & Eco & Fc).
  destruct (object_or_missing_entries _ Hfl) as (lo & Hnlo & Elo & Fl).
  cbn [field] in Eco, Elo.
  rewrite Fc in Hc1, Hc2. rewrite Fl in Hl1, Hl2.
  unfold well_typed. cbn [field].
  rewrite own_define_same, own_define_other by discriminate.
  unfold assign. rewrite Eco, Elo. cbn [entries_of field].
  rewrite !own_merged by assumption.
  cbn [field] in Hc3, Hl3.
  repeat split.
  - destruct (own (js "chapter") lo); [exact Hl1|exact Hc1].
  - destruct (own (js "objectives") lo); [exact Hl2|exact Hc2].
  - destruct (own (js "outputDir") l); [exact Hl3|exact Hc3].
Qed.

Lemma merged_options_stay_valid_witness :
  validateConfig
    (VObj [(js "outputDir", VStr (js "./output"));
           (js "extractImages", VBool true);
           (js "frontmatter",
            VObj [(js "chapter", VNum (to_double 2));
                  (js "section", VStr (js "1.1"));
                  (js "objectives", VArr [VStr (js "Example objective 1");
                                          VStr (js "Example objective 2")])])])
  = Ok true.
Proof.
  apply (merged_options_stay_valid
           [(js "outputDir", VStr (js "./output"));
            (js "extractImages", VBool true);
            (js "frontmatter",
             VObj [(js "chapter", VNum (to_double 1));
                   (js "section", VStr (js "1.1"));
                   (js "objectives", VArr [VStr (js "Example objective 1");
                                           VStr (js "Example objective 2")])])]
           [(js "frontmatter", VObj [(js "chapter", VNum (to_double 2))])]).
  - repeat constructor; cbn; intuition discriminate.
  - repeat constructor; cbn; intuition discriminate.
  - right. eexists. split; [reflexivity|]. repeat constructor; cbn; intuition discriminate.
  - right. eexists. split; [reflexivity|]. repeat constructor; cbn; intuition discriminate.
  - reflexivity.
  - reflexivity.
  - vm_compute. reflexivity.
Defined.

(** ** findDefaultConfig *)

Section DefaultConfig.
Context {W : Type} {H : Host W}.

Lemma first_accessible_found (pre : list text) (name : text) (post : list text) :
  forall w w1 w2,
    refused pre w = Some w1 ->
    fs_access name w1 = (Ok tt, w2) ->
    first_accessible (pre ++ name :: post) w = (Ok (Some name), w2).
Proof.
  induction pre as [|p pre IH]; intros w w1 w2 Hr Ha; cbn [refused] in Hr.
  - injection Hr as <-. cbn [app first_accessible]. unfold try_catch, bind, ret.
    now rewrite Ha.
  - cbn [app first_accessible]. unfold try_catch, bind.
    destruct (fs_access p w) as [[[]|e] w0]; [discriminate|]. now apply (IH w0 w1).
Qed.

Lemma first_accessible_none (names : list text) :
  forall w w1, refused names w = Some w1 -> first_accessible names w = (Ok None, w1).
Proof.
  induction names as [|p names IH]; intros w w1 Hr; cbn [refused] in Hr.
  - now injection Hr as <-.
  - cbn [first_accessible]. unfold try_catch, bind.
    destruct (fs_access p w) as [[[]|e] w0]; [discriminate|]. now apply IH.
Qed.

Lemma first_accessible_total (names : list text) :
  forall w, exists r w',
    first_accessible names w = (Ok r, w')
    /\ match r with Some name => In name names | None => True end.
Proof.
  induction names as [|p names IH]; intros w.
  - exists None, w. split; [reflexivity|exact I].
  - cbn [first_accessible]. unfold try_catch, bind, ret.
    destruct (fs_access p w) as [[[]|e] w0].
    + exists (Some p), w0. split; [reflexivity|now left].
    + destruct (IH w0) as (r & w' & E & Hr). exists r, w'. split; [exact E|].
      destruct r; [now right|exact I].
Qed.

(** X11.  findDefaultConfig never throws.  It returns the first of the six
    default names, in their fixed order (the three .doc2mdrc names before the
    three doc2md.config names, json before yaml before yml), that can be
    accessed once the names before it have been refused, and null when all six
    are refused. *)
Theorem default_config_priority (w : W) :
  (exists r w', findDefaultConfig w = (Ok r, w')
                /\ match r with Some name => In name defaultNames | None => True end)
  /\ (forall pre name post w1 w2,
         defaultNames = pre ++ name :: post ->
         refused pre w = Some w1 ->
         fs_access name w1 = (Ok tt, w2) ->
         findDefaultConfig w = (Ok (Some name), w2))
  /\ (forall w1, refused defaultNames w = Some w1 -> findDefaultConfig w = (Ok None, w1)).
Proof.
  unfold findDefaultConfig. split; [apply first_accessible_total|]. split.
  - intros pre name post w1 w2 ->. apply first_accessible_found.
  - apply first_accessible_none.
Qed.
End DefaultConfig.

Lemma default_config_priority_witness :
  findDefaultConfig (H := Sim.host) two_configs_world
  = (Ok (Some (js ".doc2mdrc.yaml")), two_configs_world).
Proof.
  apply (proj1 (proj2 (default_config_priority (H := Sim.host) two_configs_world))
           [js ".doc2mdrc.json"] (js ".doc2mdrc.yaml")
           [js ".doc2mdrc.yml"; js "doc2md.config.json"; js "doc2md.config.yaml";
            js "doc2md.config.yml"] two_configs_world two_configs_world);
    reflexivity.
Defined.

(** ** parseFrontmatter never loses text *)

Lemma frontmatter_not_after_start (s : text) :
  forall c, search RxFrontmatter.frontmatterRegex (Some c) s = None.
Proof.
  induction s as [|a s IH]; intros c; cbn [search]; [reflexivity|].
  rewrite IH. reflexivity.
Qed.

Lemma first_terminator (w s' : text) :
  exists y body,
    w ++ terminator ++ s' = y ++ terminator ++ body /\ no_early_end y = true.
Proof.
  induction w as [|c w (y & body & E & Hy)].
  - exists [], s'. split; reflexivity.
  - destruct (starts_with terminator ((c :: w) ++ terminator ++ s')) eqn:Es.
    + exists [], (skipn (List.length terminator) ((c :: w) ++ terminator ++ s')).
      split; [|reflexivity]. cbn [app].
      assert (G : forall t u, starts_with t u = true -> u = t ++ skipn (List.length t) u).
      { induction t as [|a t IHt]; intros [|b u] Hs; try reflexivity; try discriminate.
        cbn in Hs. apply andb_true_iff in Hs as [Hab Hs]. apply N.eqb_eq in Hab as ->.
        cbn [app List.length skipn]. f_equal. now apply IHt. }
      apply G. exact Es.
    + exists (c :: y), body. split; [cbn [app]; now rewrite <- E|].
      cbn [no_early_end]. rewrite Hy, andb_true_r. apply negb_true_iff.
      rewrite <- Es. cbn [app]. rewrite E.
      change (c :: y ++ terminator ++ body) with ((c :: y) ++ terminator ++ body).
      rewrite app_assoc. symmetry. apply starts_with_long.
      cbn [List.length]. rewrite length_app. lia.
Qed.

Lemma lang_frontmatter (w : text) :
  lang RxFrontmatter.frontmatterRegex w ->
  exists y, w = opener ++ y ++ terminator.
Proof.
  cbn [RxFrontmatter.frontmatterRegex lits lang js js_chars list_ascii_of_string app].
  intros H.
  repeat match goal with
         | H : exists _, _ |- _ => destruct H
         | H : _ /\ _ |- _ => destruct H
         end.
  subst. cbn [app].
  match goal with |- context [?y ++ [_; _; _; _; _; _]] => exists y end.
  repeat match goal with
         | H : Chars.eqc _ _ = true |- _ => apply N.eqb_eq in H; subst
         end.
  reflexivity.
Qed.

Section ParseFacts.
Context {Y : Yaml}.

(** X12.  parseFrontmatter either finds no front matter and returns the text
    as it is, or splits the text exactly: the opening marker, a YAML text that
    does not contain the closing marker and that js-yaml loads to the front
    matter returned, the closing marker with its blank line, and the content
    returned.  A text whose YAML does not load, or whose closing marker is not
    followed by a blank line, comes back whole. *)
Theorem parseFrontmatter_splits_the_text (markdown : text) :
  match frontmatter (parseFrontmatter markdown) with
  | Some fm =>
      exists y,
        markdown = opener ++ y ++ terminator ++ content (parseFrontmatter markdown)
        /\ no_early_end y = true
        /\ yaml_load y = Ok fm
  | None => content (parseFrontmatter markdown) = markdown
  end.
Proof.
  unfold parseFrontmatter, str_match, replace_first.
  destruct (search RxFrontmatter.frontmatterRegex None markdown) as [[[pre m] post]|] eqn:Es;
    [|reflexivity].
  assert (Ee : exists m', exec_at RxFrontmatter.frontmatterRegex None markdown = Some m').
  { destruct markdown as [|c t]; cbn [search] in Es.
    - destruct (exec_at _ None []); [eauto|discriminate].
    - destruct (exec_at _ None (c :: t)); [eauto|].
      now rewrite frontmatter_not_after_start in Es. }
  destruct Ee as [m' Ee].
  destruct (exec_at_sound _ _ _ _ Ee) as (s' & Hs & Hl).
  apply lang_frontmatter in Hl as [w Hw]. rewrite Hw in Hs.
  destruct (first_terminator w s') as (y & body & E & Hy).
  assert (Hmd : markdown = opener ++ y ++ terminator ++ body).
  { rewrite Hs, <- !app_assoc. f_equal. exact E. }
  clear Hs Hw E Ee. subst markdown.
  pose proof (frontmatter_match y body Hy) as Hm.
  rewrite (search_hit _ _ _ _ Hm) in Es. cbn [matched] in Es.
  assert (Hpost : skipn (List.length (opener ++ y ++ terminator))
                        (opener ++ y ++ terminator ++ body) = body).
  { replace (opener ++ y ++ terminator ++ body)
      with ((opener ++ y ++ terminator) ++ body) by now rewrite <- !app_assoc.
    apply skipn_app_exact. }
  rewrite Hpost in Es. injection Es as <- <- <-.
  cbn [cap_text captures get_cap Nat.eqb].
  destruct (yaml_load y) as [fm|e] eqn:El; cbn [frontmatter content]; [|reflexivity].
  exists y. split; [reflexivity|split; [exact Hy|exact El]].
Qed.
End ParseFacts.

(** ** The formula rule needs a count after a symbol and a symbol after a count *)

Lemma adjacent_mid (P Q : char -> bool) (a b : text) (x y : char) :
  P x = true -> Q y = true -> adjacent P Q (a ++ x :: y :: b) = true.
Proof.
  intros Hx Hy. induction a as [|c a IH].
  - cbn. now rewrite Hx, Hy.
  - cbn [app adjacent]. destruct (a ++ x :: y :: b) eqn:E.
    + now destruct a.
    + rewrite IH. apply orb_true_r.
Qed.

Lemma adjacent_tail (P Q : char -> bool) (c : char) (t : text) :
  adjacent P Q (c :: t) = false -> adjacent P Q t = false.
Proof.
  cbn [adjacent]. destruct t as [|b t]; [reflexivity|].
  intros H. now apply orb_false_iff in H as [_ H].
Qed.

Lemma adjacent_prefix (P Q : char -> bool) (w s' : text) :
  adjacent P Q (w ++ s') = false -> adjacent P Q w = false.
Proof.
  induction w as [|a w IH]; [reflexivity|]. cbn [app adjacent].
  destruct w as [|b w]; [now destruct s'|]. cbn [app].
  intros H. apply orb_false_iff in H as [H1 H2]. rewrite H1. cbn [orb].
  now apply IH.
Qed.

Lemma lang_class_run (p : char -> bool) (ws : list text) :
  Forall (lang (Chr p)) ws ->
  forallb p (List.concat ws) = true /\ List.length (List.concat ws) = List.length ws.
Proof.
  induction 1 as [|w ws (c & -> & Hc) _ [IH1 IH2]]; [split; reflexivity|].
  cbn. now rewrite Hc, IH1, IH2.
Qed.

Lemma nonempty_last {A} (l : list A) : l <> [] -> exists a x, l = a ++ [x].
Proof.
  intros H. destruct (exists_last H) as (a & x & E). eauto.
Qed.

Lemma lang_formula_pairs (w : text) :
  lang Rx.formula w ->
  adjacent letter Chars.isDigit w = true /\ adjacent Chars.isDigit Chars.isUpper w = true.
Proof.
  cbn [Rx.formula lang Rx.upper Rx.lower Rx.digit opt plus].
  intros (w0 & w1 & -> & -> & w2 & w3 & -> & (wu & wl & -> & (u & -> & Hu) & Hl)
          & wd & w4 & -> & Hd & wg & w5 & -> & Hg & ->).
  destruct Hl as (ls & -> & Hls & _).
  destruct Hd as (ds & -> & Hds & [[]|Hdn]).
  destruct Hg as (gs & -> & Hgs & [[]|Hgn]).
  apply lang_class_run in Hls as [Hls _].
  apply lang_class_run in Hds as [Hds Hdl].
  assert (Hne : List.concat ds <> []).
  { intros E. rewrite E in Hdl. cbn in Hdl. lia. }
  destruct gs as [|g gs]; [cbn in Hgn; lia|].
  inversion Hgs as [|? ? (gu & gr & -> & (U & -> & HU) & _) _]; subst.
  cbn [app List.concat].
  split.
  - destruct (List.concat ds) as [|d ds'] eqn:Ed; [congruence|].
    cbn in Hds. apply andb_true_iff in Hds as [Hd0 _].
    destruct (nonempty_last (u :: List.concat ls)) as (a & x & E); [discriminate|].
    assert (Hx : letter x = true).
    { assert (Hall : forallb letter (u :: List.concat ls) = true).
      { cbn. unfold letter at 1. rewrite Hu. cbn.
        apply (forallb_weaken Chars.isLower); [|exact Hls].
        intros c Hc. unfold letter. rewrite Hc. apply orb_true_r. }
      rewrite E in Hall. now apply forallb_last in Hall. }
    rewrite app_comm_cons, E, <- app_assoc. cbn [app]. now apply adjacent_mid.
  - destruct (nonempty_last _ Hne) as (a & x & E).
    assert (Hx : Chars.isDigit x = true).
    { rewrite E in Hds. now apply forallb_last in Hds. }
    rewrite E, app_comm_cons, <- (app_assoc a), (app_assoc _ a). cbn [app].
    exact (adjacent_mid _ _ (u :: List.concat ls ++ a) _ x U Hx HU).
Qed.

Lemma formula_rule_without_pair (P Q : char -> bool) (s : text) :
  (forall w, lang Rx.formula w -> adjacent P Q w = true) ->
  adjacent P Q s = false ->
  replace_all Rx.formula (js "$$$&$$") s = s.
Proof.
  intros Hpair Hs. unfold replace_all, replace_all_with.
  apply (replace_scan_no_match _ _ (fun s => adjacent P Q s = false)); [| |exact Hs].
  - intros c t. apply adjacent_tail.
  - intros p s0 Hs0. destruct (exec_at Rx.formula p s0) as [m|] eqn:E; [|reflexivity].
    apply exec_at_sound in E as (s' & -> & Hl).
    apply adjacent_prefix in Hs0. apply Hpair in Hl. congruence.
Qed.

(** X13.  A one-line text without underscore is only trimmed, unless it holds
    both a letter directly followed by a digit and a digit directly followed
    by a capital letter: the formula rule asks for a symbol with a count and
    then another symbol, so CO2, H2, O2 or NaCl on their own are not put
    between dollar signs. *)
Theorem lone_symbols_are_not_wrapped (x : text) :
  forallb (fun c => negb (is_nl c)) x = true ->
  forallb (fun c => negb (Chars.eqc (ch "_") c)) x = true ->
  adjacent letter Chars.isDigit x = false
  \/ adjacent Chars.isDigit Chars.isUpper x = false ->
  postprocessMarkdown x = trim x.
Proof.
  intros Hnl Hu Hpair. unfold postprocessMarkdown.
  rewrite (replace_all_needs is_nl Rx.blank_lines _ _ needs_blank_lines_nl Hnl).
  rewrite (replace_all_needs is_nl Rx.before_header _ _ needs_before_header_nl Hnl).
  rewrite (replace_all_needs is_nl Rx.after_header _ _ needs_after_header_nl Hnl).
  rewrite (replace_all_needs is_nl Rx.table_row _ _ needs_table_row_nl Hnl).
  rewrite (replace_all_needs (Chars.eqc (ch "_")) Rx.subscript _ _
             needs_subscript_underscore Hu).
  f_equal. destruct Hpair as [H|H].
  - apply (formula_rule_without_pair letter Chars.isDigit); [|exact H].
    intros w Hw. now apply lang_formula_pairs.
  - apply (formula_rule_without_pair Chars.isDigit Chars.isUpper); [|exact H].
    intros w Hw. now apply lang_formula_pairs.
Qed.

Lemma lone_symbols_are_not_wrapped_witness :
  postprocessMarkdown (js " CO2 and O2 with NaCl ") = js "CO2 and O2 with NaCl".
Proof.
  apply (lone_symbols_are_not_wrapped (js " CO2 and O2 with NaCl "));
    [reflexivity|reflexivity|right; reflexivity].
Defined.

(** ** extractTitleFromFilename *)

Lemma replace_scan_class (p : char -> bool) (f : rmatch_result -> text) (s : text) :
  forall q,
    replace_scan (Chr p) f 0 q s
    = flat_map (fun c => if p c then f (MatchResult [c] []) else [c]) s.
Proof.
  induction s as [|c t IH]; intros q; [reflexivity|].
  cbn [replace_scan flat_map]. unfold exec_at. cbn [rmatch rest].
  destruct (p c); cbn [advance rest List.length matched].
  - replace (S (List.length t) - List.length t)%nat with 1%nat by lia.
    cbn [firstn List.length matched]. now rewrite IH.
  - now rewrite IH.
Qed.

Lemma replace_scan_word_start (s : text) :
  forall q,
    replace_scan RxTitle.word_start (fun m => map Chars.toUpper (matched m)) 0 q s
    = capitalized q s.
Proof.
  induction s as [|c t IH]; intros q.
  - cbn [replace_scan capitalized]. unfold exec_at, RxTitle.word_start.
    cbn [rmatch check rest prev hd_error isWordOpt]. rewrite xorb_false_r.
    now destruct (isWordOpt q).
  - cbn [replace_scan capitalized]. unfold exec_at, RxTitle.word_start.
    cbn [rmatch check rest prev hd_error isWordOpt].
    destruct (Chars.isWord c) eqn:Ec; destruct (isWordOpt q) eqn:Eq; cbn [xorb andb negb];
      rewrite ?Ec; cbn [advance rest List.length matched]; rewrite ?IH; try reflexivity.
    replace (S (List.length t) - List.length t)%nat with 1%nat by lia.
    cbn [firstn List.length matched map app]. now rewrite IH.
Qed.

Lemma capitalized_length (s : text) :
  forall q, List.length (capitalized q s) = List.length s.
Proof. induction s as [|c t IH]; intros q; cbn; [reflexivity|now rewrite IH]. Qed.

Lemma toUpper_not_separator (c : char) :
  is_separator c = false -> is_separator (Chars.toUpper c) = false.
Proof.
  unfold Chars.toUpper, Chars.isLower, Chars.between.
  destruct ((97 <=? c)%N && (c <=? 122)%N) eqn:E; [|auto]. intros _.
  apply andb_true_iff in E as [H1 H2]. apply N.leb_le in H1, H2.
  unfold is_separator, Chars.eqc. apply orb_false_iff.
  split; apply N.eqb_neq; cbn; lia.
Qed.

Lemma capitalized_no_separator (s : text) :
  forall q,
    forallb (fun c => negb (is_separator c)) s = true ->
    forallb (fun c => negb (is_separator c)) (capitalized q s) = true.
Proof.
  induction s as [|c t IH]; intros q Hs; [reflexivity|].
  cbn [forallb capitalized] in *. apply andb_true_iff in Hs as [Hc Ht].
  rewrite (IH _ Ht), andb_true_r.
  destruct (Chars.isWord c && negb (isWordOpt q)); [|exact Hc].
  apply negb_true_iff in Hc. apply negb_true_iff. now apply toUpper_not_separator.
Qed.

Section FilenameTitle.
Context {W : Type} {H : Host W}.

(** X14.  extractTitleFromFilename rewrites the base name (the file name
    without its extension) one code unit at a time: a hyphen or underscore
    becomes a space, a word character that starts the name or follows a
    character that is not a word character is upper-cased, every other code
    unit is kept.  So the title is as long as the base name and holds no
    hyphen and no underscore.  A letter outside ASCII is not a word character:
    it is never upper-cased, and the letter after it is. *)
Theorem filename_title_is_capitalized (filename : text) :
  let basename := path_basename filename (Some (path_extname filename)) in
  extractTitleFromFilename filename = capitalized None (map spaced basename)
  /\ List.length (extractTitleFromFilename filename) = List.length basename
  /\ forallb (fun c => negb (is_separator c)) (extractTitleFromFilename filename) = true.
Proof.
  intros basename.
  assert (E : extractTitleFromFilename filename = capitalized None (map spaced basename)).
  { unfold extractTitleFromFilename, replace_all, replace_all_with. fold basename.
    rewrite replace_scan_word_start. f_equal.
    unfold RxTitle.separator. rewrite replace_scan_class.
    induction basename as [|c t IH]; [reflexivity|].
    cbn [flat_map map]. rewrite IH. unfold spaced, is_separator.
    now destruct (Chars.eqc (ch "-") c || Chars.eqc (ch "_") c). }
  rewrite E. split; [reflexivity|]. split.
  - now rewrite capitalized_length, length_map.
  - apply capitalized_no_separator. apply forallb_forall. intros c Hc.
    apply in_map_iff in Hc as (d & <- & _). unfold spaced.
    destruct (is_separator d) eqn:Ed; [reflexivity|now rewrite Ed].
Qed.
End FilenameTitle.

(** ** A greedy run followed by the rest of the expression *)

Lemma rep_class_greedy (p : char -> bool) (K : kont) (s' : text) (cs : list (nat * text))
      (z : mstate) :
  forall run min max fuel pv,
    forallb p run = true ->
    (min <= List.length run)%nat ->
    (List.length run < fuel)%nat ->
    run_fits p run s' max ->
    K (MState (prev_after run pv) s' cs) = Some z ->
    rep_loop (rmatch (Chr p)) [] true K fuel min max (MState pv (run ++ s') cs) = Some z.
Proof.
  induction run as [|c run IH]; intros min max fuel pv Hp Hmin Hfuel Hfit HK.
  - cbn [List.length] in *. assert (min = 0%nat) by lia. subst min.
    destruct fuel as [|fuel]; [lia|]. cbn [prev_after fold_left] in HK.
    assert (Hbody : not_headed p s' ->
                    rmatch (Chr p)
                      (fun y => if stalled 0 (MState pv s' cs) y then None
                                else rep_loop (rmatch (Chr p)) [] true K fuel 0
                                              (option_map Nat.pred max) y)
                      (clear_caps [] (MState pv s' cs)) = None).
    { intros Hs'. rewrite clear_caps_nil. cbn [rmatch rest].
      destruct s' as [|c t]; [reflexivity|]. cbn in Hs'. now rewrite Hs'. }
    cbn [rep_loop app Nat.eqb negb Nat.pred].
    destruct max as [[|m]|]; cbn [run_fits List.length] in Hfit.
    + exact HK.
    + destruct Hfit as [_ [Hf|Hf]]; [discriminate|].
      cbn [option_map] in Hbody |- *. now rewrite (Hbody Hf).
    + cbn [option_map] in Hbody |- *. now rewrite (Hbody Hfit).
  - cbn [forallb] in Hp. apply andb_true_iff in Hp as [Hc Hp].
    destruct fuel as [|fuel]; [cbn in Hfuel; lia|].
    cbn [List.length] in *.
    assert (Hmax : max <> Some 0%nat).
    { intros ->. cbn in Hfit. lia. }
    assert (Hfit' : run_fits p run s' (option_map Nat.pred max)).
    { destruct max as [[|m]|]; cbn in Hfit |- *; [congruence| |exact Hfit].
      destruct Hfit as [H1 [H2|H2]]; (split; [lia|]); [left; lia|right; exact H2]. }
    pose proof (IH (Nat.pred min) (option_map Nat.pred max) fuel (Some c) Hp
                   ltac:(lia) ltac:(lia) Hfit' HK) as E.
    assert (Hbody : rmatch (Chr p)
                      (fun y => if stalled min (MState pv ((c :: run) ++ s') cs) y then None
                                else rep_loop (rmatch (Chr p)) [] true K fuel (Nat.pred min)
                                              (option_map Nat.pred max) y)
                      (clear_caps [] (MState pv ((c :: run) ++ s') cs)) = Some z).
    { rewrite clear_caps_nil. cbn [rmatch rest app]. rewrite Hc.
      unfold advance, stalled. cbn [rest caps List.length].
      rewrite length_neq_succ, andb_false_r. exact E. }
    cbn [rep_loop].
    destruct max as [[|m]|]; [congruence| |].
    + destruct (Nat.eqb min 0); cbn [negb]; [apply first_some|]; exact Hbody.
    + destruct (Nat.eqb min 0); cbn [negb]; [apply first_some|]; exact Hbody.
Qed.

Lemma rmatch_class_greedy (p : char -> bool) (K : kont) (run s' : text) (min : nat)
      (max : option nat) (x z : mstate) :
  rest x = run ++ s' ->
  forallb p run = true ->
  (min <= List.length run)%nat ->
  run_fits p run s' max ->
  K (MState (prev_after run (prev x)) s' (caps x)) = Some z ->
  rmatch (Rep true min max (Chr p)) K x = Some z.
Proof.
  intros Hr Hp Hmin Hfit HK. destruct x as [pv rs cs]. cbn [rest prev caps] in *. subst rs.
  cbn [rmatch groups rest]. apply rep_class_greedy; auto. rewrite length_app. lia.
Qed.

Lemma class_span (p : char -> bool) (s : text) :
  exists run s', s = run ++ s' /\ forallb p run = true /\ not_headed p s'.
Proof.
  induction s as [|c s (run & s' & -> & Hp & Hs')].
  - exists [], []. repeat split.
  - destruct (p c) eqn:Ec.
    + exists (c :: run), s'. cbn. now rewrite Ec, Hp.
    + exists [], (c :: run ++ s'). repeat split. exact Ec.
Qed.

Lemma firstn_consumed (w s' : text) :
  firstn (List.length (w ++ s') - List.length s') (w ++ s') = w.
Proof.
  rewrite length_app, Nat.add_sub, firstn_app, firstn_all, Nat.sub_diag.
  cbn [firstn]. apply app_nil_r.
Qed.

(** ** The text of a heading *)

Lemma space_not_dot (c : char) : Chars.isDot c = false -> Chars.isSpace c = true.
Proof.
  unfold Chars.isDot, Chars.isLineTerminator, Chars.isSpace. intros Hd.
  apply negb_false_iff in Hd.
  repeat (apply orb_true_iff in Hd as [Hd|Hd]); apply N.eqb_eq in Hd; subst; reflexivity.
Qed.

Lemma rmatch_seq (r1 r2 : regex) (k : kont) (x : mstate) :
  rmatch (Seq r1 r2) k x = rmatch r1 (fun y => rmatch r2 k y) x.
Proof. reflexivity. Qed.

Lemma rmatch_grp (i : nat) (r : regex) (k : kont) (x : mstate) :
  rmatch (Grp i r) k x
  = rmatch r (fun y => k (set_cap i (firstn (List.length (rest x) - List.length (rest y))
                                            (rest x)) y)) x.
Proof. reflexivity. Qed.

Lemma rmatch_assert (a : assertion) (k : kont) (x : mstate) :
  rmatch (Assert a) k x = if check a x then k x else None.
Proof. reflexivity. Qed.

Lemma heading_text_exact (x : mstate) (ws L after : text) :
  rest x = ws ++ L ++ after ->
  ws <> [] -> forallb Chars.isSpace ws = true ->
  L <> [] -> forallb Chars.isDot L = true -> not_headed Chars.isSpace L ->
  not_headed Chars.isDot after ->
  exists z,
    rmatch heading_text (fun y => Some y) x = Some z
    /\ rest z = after
    /\ get_cap 1 (caps z) = Some L.
Proof.
  intros Hr Hws Hsp HL Hdot Hhead Hafter. unfold heading_text.
  eexists. split; [|split].
  - rewrite rmatch_seq. unfold plus, Rx.whitespace.
    apply (rmatch_class_greedy Chars.isSpace _ ws (L ++ after)); auto.
    + destruct ws; [congruence|cbn; lia].
    + cbn [run_fits]. destruct L as [|c L]; [congruence|exact Hhead].
    + rewrite rmatch_seq, rmatch_grp. unfold Rx.dot.
      apply (rmatch_class_greedy Chars.isDot _ L after); auto.
      * destruct L; [congruence|cbn; lia].
      * cbn [rmatch check rest set_cap hd_error].
        replace (isTermOpt (hd_error after)) with true; [reflexivity|].
        destruct after as [|c after]; [reflexivity|]. cbn in Hafter |- *.
        unfold Chars.isDot in Hafter. now apply negb_false_iff in Hafter.
  - reflexivity.
  - cbn [caps set_cap get_cap Nat.eqb rest prev]. now rewrite firstn_consumed.
Qed.

Lemma trimStart_keeps (a b : text) (c : char) :
  Chars.isSpace c = false -> trimStart (a ++ c :: b) <> [].
Proof.
  intros Hc. induction a as [|d a IH]; cbn [app trimStart].
  - now rewrite Hc.
  - destruct (Chars.isSpace d); [exact IH|discriminate].
Qed.

Lemma trim_nonempty (L : text) : L <> [] -> not_headed Chars.isSpace L -> trim L <> [].
Proof.
  intros HL Hh. unfold trim, trimEnd. rewrite (trimStart_fixed _ Hh).
  destruct L as [|c L]; [congruence|]. cbn in Hh. cbn [rev].
  intros E. apply (f_equal (@rev _)) in E. rewrite rev_involutive in E. cbn in E.
  now apply (trimStart_keeps (rev L) [] c Hh).
Qed.

Lemma clean_suffix (P : char -> bool) (a b : text) :
  not_headed P (rev (a ++ b)) -> not_headed P (rev b).
Proof.
  rewrite rev_app_distr. destruct (rev b); [intros _; exact I|auto].
Qed.

Lemma heading_text_capture (x z : mstate) :
  not_headed Chars.isSpace (rev (rest x)) ->
  rmatch heading_text (fun y => Some y) x = Some z ->
  exists L, get_cap 1 (caps z) = Some L /\ L <> [] /\ not_headed Chars.isSpace L.
Proof.
  intros Hclean Hm.
  destruct (class_span Chars.isSpace (rest x)) as (ws & t & Hr & Hws & Ht).
  destruct ws as [|w ws].
  - exfalso. cbn [app] in Hr. unfold heading_text, plus in Hm. cbn [rmatch groups] in Hm.
    rewrite Nat.add_comm in Hm. cbn [rep_loop Nat.eqb negb Nat.add] in Hm.
    rewrite clear_caps_nil in Hm. unfold Rx.whitespace in Hm. cbn [rmatch] in Hm.
    rewrite Hr in Hm. destruct t as [|c t]; [discriminate|].
    cbn in Ht. rewrite Ht in Hm. discriminate.
  - destruct t as [|c t].
    + exfalso. rewrite app_nil_r in Hr. rewrite Hr in Hclean.
      assert (Hall : forallb Chars.isSpace (rev (w :: ws)) = true)
        by now apply forallb_rev_true.
      destruct (rev (w :: ws)) as [|d r] eqn:E.
      * apply (f_equal (@rev _)) in E. rewrite rev_involutive in E. discriminate.
      * cbn in Hclean, Hall. rewrite Hclean in Hall. discriminate.
    + cbn in Ht.
      destruct (class_span Chars.isDot (c :: t)) as (L & after & HL & Hdot & Hafter).
      assert (HLne : L <> []).
      { intros ->. cbn [app] in HL. subst after. cbn in Hafter.
        apply space_not_dot in Hafter. congruence. }
      assert (Hhead : not_headed Chars.isSpace L).
      { destruct L as [|d L]; [congruence|]. cbn [app] in HL. injection HL as <- _.
        exact Ht. }
      destruct (heading_text_exact x (w :: ws) L after) as (z' & E & _ & Hcap); auto.
      * now rewrite Hr, HL.
      * discriminate.
      * rewrite E in Hm. injection Hm as <-. eauto.
Qed.

(** ** Where a search ends *)

Lemma search_found (r : regex) (s : text) :
  forall p pre m post,
    search r p s = Some (pre, m, post) ->
    exists s1, s = pre ++ s1 /\ exec_at r (prev_after pre p) s1 = Some m.
Proof.
  induction s as [|c t IH]; intros p pre m post; cbn [search].
  - destruct (exec_at r p []) as [m'|] eqn:E; [|discriminate].
    intros [= <- <- <-]. exists []. split; [reflexivity|exact E].
  - destruct (exec_at r p (c :: t)) as [m'|] eqn:E.
    + intros [= <- <- <-]. exists (c :: t). split; [reflexivity|exact E].
    + destruct (search r (Some c) t) as [[[pre' m'] post']|] eqn:Es; [|discriminate].
      intros [= <- <- <-]. destruct (IH _ _ _ _ Es) as (s1 & -> & E1).
      exists s1. split; [reflexivity|exact E1].
Qed.

Lemma exec_at_caps (r : regex) (p : option char) (s : text) (m : rmatch_result) :
  exec_at r p s = Some m ->
  exists z, rmatch r (fun y => Some y) (MState p s []) = Some z /\ captures m = caps z.
Proof.
  unfold exec_at. destruct (rmatch r _ _) as [z|]; [|discriminate].
  intros [= <-]. eauto.
Qed.

(** ** extractTitle on a text without white space at its end *)

Lemma title_match_capture (hashes_part : regex) (md : text) (m : rmatch_result) :
  not_headed Chars.isSpace (rev md) ->
  str_match (Seq (Assert LineStart) (Seq hashes_part heading_text)) md = Some m ->
  trim (cap_text 1 m) <> [].
Proof.
  intros Hclean. unfold str_match.
  destruct (search _ None md) as [[[pre m'] post]|] eqn:Es; [|discriminate].
  intros [= ->]. apply search_found in Es as (s1 & -> & E).
  apply exec_at_caps in E as (z & E & Hc).
  rewrite rmatch_seq, rmatch_assert in E.
  destruct (check LineStart _); [|discriminate].
  rewrite rmatch_seq in E.
  apply rmatch_sound in E as (y & w & Hr & _ & Hy). cbn [rest] in Hr.
  apply heading_text_capture in Hy as (L & HL & Hne & Hh).
  - unfold cap_text. rewrite Hc, HL. now apply trim_nonempty.
  - rewrite Hr, app_assoc in Hclean. now apply clean_suffix in Hclean.
Qed.

Lemma extractTitle_nonempty (md : text) :
  not_headed Chars.isSpace (rev md) -> extractTitle md <> [].
Proof.
  intros Hclean. unfold extractTitle.
  destruct (str_match RxTitle.h1 md) as [m|] eqn:E1.
  - exact (title_match_capture (lit "#") md m Hclean E1).
  - destruct (str_match RxTitle.heading md) as [m|] eqn:E2; [|discriminate].
    exact (title_match_capture (from_to 1 6 (lit "#")) md m Hclean E2).
Qed.

Lemma trimmed_is_clean (s : text) : not_headed Chars.isSpace (rev (trim s)).
Proof.
  unfold trim, trimEnd. rewrite rev_involutive. apply trimStart_headed.
Qed.

Section FilenameFallback.
Context {W : Type} {H : Host W}.

(** X15.  The Markdown that convertDocxToMarkdown returns is trimmed, and on a
    text that does not end with white space extractTitle never returns the
    empty string: a heading it finds has text after its white space, and
    without a heading it returns Untitled Document.  So the title that
    convertDocument resolves never depends on the name of the input file: the
    last alternative, extractTitleFromFilename, is never taken. *)
Theorem title_never_from_filename (frontmatter : FrontmatterOptions) (x : text)
        (inputPath1 inputPath2 : text) :
  extractTitle (postprocessMarkdown x) <> []
  /\ resolve_title frontmatter (postprocessMarkdown x) inputPath1
     = resolve_title frontmatter (postprocessMarkdown x) inputPath2.
Proof.
  assert (Hne : extractTitle (postprocessMarkdown x) <> []).
  { apply extractTitle_nonempty. unfold postprocessMarkdown. apply trimmed_is_clean. }
  split; [exact Hne|]. unfold resolve_title.
  destruct (truthy _); [reflexivity|].
  cbn [truthy]. destruct (extractTitle (postprocessMarkdown x)); [congruence|reflexivity].
Qed.
End FilenameFallback.

(** ** extractTitle on a text that opens with a heading *)

Lemma search_none_prev (r : regex) (Q : option char -> text -> Prop)
      (Htail : forall p c t, Q p (c :: t) -> Q (Some c) t)
      (Hnone : forall p s, Q p s -> exec_at r p s = None) :
  forall s p, Q p s -> search r p s = None.
Proof.
  induction s as [|c t IH]; intros p HQ; cbn [search]; rewrite (Hnone _ _ HQ).
  - reflexivity.
  - now rewrite (IH (Some c) (Htail _ _ _ HQ)).
Qed.

Lemma forallb_hashes (n : nat) : forallb (Chars.eqc (ch "#")) (hashes n) = true.
Proof. induction n; cbn; auto. Qed.

Lemma heading_line_matches (hashes_part : regex) (n : nat) (t after : text) :
  (forall K x z,
      rest x = hashes n ++ js " " ++ t ++ after ->
      K (MState (Some 35%N) (js " " ++ t ++ after) (caps x)) = Some z ->
      rmatch hashes_part K x = Some z) ->
  t <> [] -> forallb Chars.isDot t = true -> not_headed Chars.isSpace t ->
  not_headed Chars.isDot after ->
  exists m,
    str_match (Seq (Assert LineStart) (Seq hashes_part heading_text))
              (hashes n ++ js " " ++ t ++ after) = Some m
    /\ cap_text 1 m = t.
Proof.
  intros Hh Ht Hdot Hhead Hafter.
  destruct (heading_text_exact (MState (Some 35%N) (js " " ++ t ++ after) [])
              (js " ") t after) as (z & Ez & _ & Hcap); auto; try discriminate.
  assert (E : rmatch (Seq (Assert LineStart) (Seq hashes_part heading_text))
                     (fun y => Some y)
                     (MState None (hashes n ++ js " " ++ t ++ after) []) = Some z).
  { rewrite rmatch_seq, rmatch_assert. cbn [check prev isTermOpt].
    rewrite rmatch_seq. apply Hh; [reflexivity|exact Ez]. }
  apply exec_at_of in E. unfold str_match. rewrite (search_hit _ _ _ _ E).
  eexists. split; [reflexivity|]. unfold cap_text. cbn [captures]. now rewrite Hcap.
Qed.

Lemma h1_skips_deeper_headings (n : nat) (u : text) :
  (2 <= n)%nat -> forallb (Chars.neqc (ch "#")) u = true ->
  str_match RxTitle.h1 (hashes n ++ u) = None.
Proof.
  intros Hn Hu. unfold str_match.
  rewrite (search_none_prev RxTitle.h1
             (fun p s => exists k v, s = hashes k ++ v
                                     /\ forallb (Chars.neqc (ch "#")) v = true
                                     /\ ((2 <= k)%nat \/ k = 0%nat \/ p = Some 35%N)));
    [reflexivity| | |exists n, u; auto].
  - intros p c t (k & v & E & Hv & Hk). destruct k as [|k].
    + cbn [hashes repeat app] in E. subst v. cbn [forallb] in Hv.
      apply andb_true_iff in Hv as [_ Hv]. exists 0%nat, t. auto.
    + cbn [hashes repeat app] in E. injection E as -> ->. exists k, v. auto.
  - intros p s (k & v & -> & Hv & Hk). unfold exec_at, RxTitle.h1.
    rewrite rmatch_seq, rmatch_assert.
    destruct (check LineStart _) eqn:Ec; [|reflexivity].
    rewrite rmatch_seq. unfold lit at 1. cbn [rmatch rest].
    destruct k as [|[|k]].
    + cbn [hashes repeat app]. destruct v as [|c v]; [reflexivity|].
      cbn [forallb] in Hv. apply andb_true_iff in Hv as [Hc _].
      unfold Chars.neqc in Hc. unfold Chars.eqc.
      apply negb_true_iff in Hc. now rewrite Hc.
    + destruct Hk as [Hk|[Hk|Hk]]; try lia. subst p. discriminate.
    + cbn [hashes repeat app]. change (Chars.eqc (ch "#") 35%N) with true. cbn iota.
      unfold plus, Rx.whitespace.
      cbn [rmatch groups advance rest]. rewrite Nat.add_comm.
      cbn [rep_loop Nat.eqb negb Nat.add]. rewrite clear_caps_nil.
      cbn [rmatch rest]. reflexivity.
Qed.

(** X16.  A text that opens with a heading of level one to six (number signs,
    a space, the heading text up to the end of the line) has that text,
    trimmed, as its title, provided that below a heading of a deeper level no
    number sign follows: deeper headings are only used when there is no
    first-level heading anywhere. *)
Theorem leading_heading_is_the_title (n : nat) (t after : text) :
  (1 <= n <= 6)%nat ->
  t <> [] -> forallb Chars.isDot t = true -> not_headed Chars.isSpace t ->
  not_headed Chars.isDot after ->
  n = 1%nat \/ forallb (Chars.neqc (ch "#")) (js " " ++ t ++ after) = true ->
  extractTitle (hashes n ++ js " " ++ t ++ after) = trim t.
Proof.
  intros Hn Ht Hdot Hhead Hafter Hcase. unfold extractTitle.
  destruct (Nat.eq_dec n 1) as [->|Hn1].
  - destruct (heading_line_matches (lit "#") 1 t after) as (m & Em & Hcap); auto.
    + intros K x z Hr HK. unfold lit. cbn [rmatch]. rewrite Hr.
      cbn [hashes repeat app]. unfold advance. exact HK.
    + change (Seq (Assert LineStart) (Seq (lit "#") heading_text)) with RxTitle.h1 in Em.
      now rewrite Em, Hcap.
  - destruct Hcase as [->|Hfree]; [congruence|].
    rewrite h1_skips_deeper_headings by (lia || exact Hfree).
    destruct (heading_line_matches (from_to 1 6 (lit "#")) n t after) as (m & Em & Hcap);
      auto.
    + intros K x z Hr HK. unfold from_to, lit.
      apply (rmatch_class_greedy _ _ (hashes n) (js " " ++ t ++ after)); auto.
      * apply forallb_hashes.
      * unfold hashes. rewrite repeat_length. lia.
      * cbn [run_fits]. unfold hashes. rewrite repeat_length. split; [lia|].
        right. reflexivity.
      * replace (prev_after (hashes n) (prev x)) with (Some 35%N); [exact HK|].
        destruct n as [|n]; [lia|]. clear. generalize (prev x).
        induction n as [|n IH]; intros p; [reflexivity|]. exact (IH (Some 35%N)).
    + change (Seq (Assert LineStart) (Seq (from_to 1 6 (lit "#")) heading_text))
        with RxTitle.heading in Em.
      now rewrite Em, Hcap.
Qed.

Lemma leading_heading_is_the_title_witness :
  extractTitle (js "### Acids and bases  \nBody text") = js "Acids and bases".
Proof.
  apply (leading_heading_is_the_title 3 (js "Acids and bases  ") (js "\nBody text"));
    try reflexivity; try discriminate; [lia|right; reflexivity].
Defined.

(** ** preprocessHtml *)

Lemma needs_blank_block_nl : needs is_nl RxHtml.blank_block.
Proof.
  apply needs_seq_l, needs_chr. intros c Hc. exact Hc.
Qed.

Lemma occurs_tail (t : text) (c : char) (s : text) :
  occurs t (c :: s) = false -> occurs t s = false.
Proof. cbn [occurs]. intros H. now apply orb_false_iff in H as [_ H]. Qed.

Lemma occurs_suffix (t a b : text) : occurs t (a ++ b) = false -> occurs t b = false.
Proof.
  induction a as [|c a IH]; [auto|]. cbn [app]. intros H. apply IH.
  now apply occurs_tail in H.
Qed.

Lemma occurs_here (t s : text) : occurs t s = false -> starts_with t s = false.
Proof. destruct s; cbn [occurs]; intros H; now apply orb_false_iff in H as [H _]. Qed.

Lemma starts_with_nth (t : text) :
  forall s i c, starts_with t s = true -> nth_error t i = Some c -> nth_error s i = Some c.
Proof.
  induction t as [|a t IH]; intros s i c Hs Hn; [now destruct i|].
  destruct s as [|b s]; [discriminate|]. cbn in Hs.
  apply andb_true_iff in Hs as [Hab Hs]. apply N.eqb_eq in Hab as ->.
  destruct i as [|i]; cbn in *; [exact Hn|]. now apply (IH s i c).
Qed.

Lemma span_open_not_astride (b r : text) :
  b <> [] -> (List.length b < List.length span_open)%nat ->
  starts_with span_open (b ++ span_open ++ r) = false.
Proof.
  intros Hb Hlen. destruct (starts_with span_open (b ++ span_open ++ r)) eqn:E; [|reflexivity].
  exfalso.
  assert (Hn : nth_error (b ++ span_open ++ r) (List.length b) = Some 60%N).
  { rewrite nth_error_app2 by lia. now rewrite Nat.sub_diag. }
  destruct (nth_error span_open (List.length b)) as [c|] eqn:Ec.
  - rewrite (starts_with_nth _ _ _ _ E Ec) in Hn. injection Hn as ->.
    destruct b as [|b0 b]; [congruence|]. cbn [List.length] in *.
    revert Ec Hlen. generalize (List.length b). intros n.
    do 23 (destruct n as [|n]; [discriminate|]). cbn. lia.
  - apply nth_error_None in Ec. lia.
Qed.

Lemma exec_at_equation_none (p : option char) (s : text) :
  starts_with span_open s = false -> exec_at RxHtml.equation p s = None.
Proof.
  intros Hs. unfold exec_at, RxHtml.equation. rewrite rmatch_seq, rmatch_lits.
  cbn [rest]. fold span_open. now rewrite Hs.
Qed.

Lemma exec_at_equation_hit (p : option char) (E post : text) :
  E <> [] -> forallb (Chars.neqc (ch "<")) E = true ->
  exec_at RxHtml.equation p (span_open ++ E ++ span_close ++ post)
  = Some (MatchResult (span_open ++ E ++ span_close) [(1%nat, E)]).
Proof.
  intros HE Hlt.
  assert (Ex : exists z,
             rmatch RxHtml.equation (fun y => Some y)
                    (MState p (span_open ++ E ++ span_close ++ post) []) = Some z
             /\ rest z = post /\ caps z = [(1%nat, E)]).
  { unfold RxHtml.equation. fold span_open. fold span_close.
    rewrite rmatch_seq, rmatch_lits. cbn [rest].
    rewrite starts_with_app. unfold after_lits. cbn [rest prev caps].
    rewrite skipn_app_exact. rewrite rmatch_seq, rmatch_grp. unfold plus, notc.
    eexists. split; [|split].
    - apply (rmatch_class_greedy _ _ E (span_close ++ post)); auto.
      + destruct E; [congruence|cbn; lia].
      + cbn [run_fits]. reflexivity.
      + rewrite rmatch_lits. cbn [rest set_cap]. rewrite starts_with_app.
        reflexivity.
    - unfold after_lits. cbn [rest set_cap]. apply skipn_app_exact.
    - unfold after_lits. cbn [caps set_cap rest filter]. now rewrite firstn_consumed. }
  destruct Ex as (z & Ez & Hr & Hc). rewrite (exec_at_of _ _ _ _ Ez), Hr, Hc.
  f_equal. f_equal.
  replace (span_open ++ E ++ span_close ++ post)
    with ((span_open ++ E ++ span_close) ++ post) by now rewrite <- !app_assoc.
  apply firstn_consumed.
Qed.

Lemma equation_scan_prev (s : text) :
  forall skip p p',
    replace_scan RxHtml.equation (substitute 1 (js "$$$1$$")) skip p s
    = replace_scan RxHtml.equation (substitute 1 (js "$$$1$$")) skip p' s.
Proof.
  assert (Hex : forall p p' s0, exec_at RxHtml.equation p s0 = exec_at RxHtml.equation p' s0).
  { intros p p' s0. unfold exec_at, RxHtml.equation.
    rewrite !rmatch_seq, !rmatch_lits. cbn [rest]. reflexivity. }
  induction s as [|c t IH]; intros skip p p'; cbn [replace_scan].
  - destruct skip; [|reflexivity]. now rewrite (Hex p p').
  - destruct skip as [|n]; [|apply IH]. rewrite (Hex p p').
    destruct (exec_at RxHtml.equation p' (c :: t)); [|reflexivity].
    destruct (List.length (matched r)); reflexivity.
Qed.

Lemma equation_replacement (w E : text) :
  substitute 1 (js "$$$1$$") (MatchResult w [(1%nat, E)]) = js "$" ++ E ++ js "$".
Proof. reflexivity. Qed.

Lemma equation_rule_without_span (s : text) :
  occurs span_open s = false ->
  replace_all RxHtml.equation (js "$$$1$$") s = s.
Proof.
  intros Hs. unfold replace_all, replace_all_with.
  apply (replace_scan_no_match _ _ (fun s => occurs span_open s = false)); [| |exact Hs].
  - intros c t. apply occurs_tail.
  - intros p s0 Hs0. apply exec_at_equation_none. now apply occurs_here.
Qed.

(** X17.  An equation span with some content and no tag inside, on a line with
    no such span before it, becomes the content between single dollar signs
    (the replacement pattern writes each dollar sign twice); what follows the
    span is processed on its own. *)
Theorem equation_span_becomes_inline_math (pre E post : text) :
  no_newline (pre ++ span_open ++ E ++ span_close ++ post) = true ->
  occurs span_open pre = false ->
  E <> [] -> forallb (Chars.neqc (ch "<")) E = true ->
  preprocessHtml (pre ++ span_open ++ E ++ span_close ++ post)
  = pre ++ js "$" ++ E ++ js "$" ++ preprocessHtml post.
Proof.
  intros Hnl Hpre HE Hlt. unfold preprocessHtml.
  assert (Hpost : no_newline post = true).
  { unfold no_newline in *. rewrite !forallb_app in Hnl.
    repeat (apply andb_true_iff in Hnl as [_ Hnl]). exact Hnl. }
  rewrite !(replace_all_needs is_nl RxHtml.blank_block) by (exact needs_blank_block_nl || assumption).
  unfold replace_all, replace_all_with.
  rewrite replace_scan_prefix.
  - f_equal.
    destruct (replace_scan_hit RxHtml.equation
                (substitute (List.length (groups RxHtml.equation)) (js "$$$1$$"))
                (prev_after pre None) (span_open ++ E ++ span_close) post
                (MatchResult (span_open ++ E ++ span_close) [(1%nat, E)])) as (p' & Hhit).
    + rewrite <- !app_assoc. now apply exec_at_equation_hit.
    + reflexivity.
    + unfold span_open. discriminate.
    + rewrite <- !app_assoc in Hhit. rewrite Hhit.
      change (List.length (groups RxHtml.equation)) with 1%nat.
      rewrite (equation_scan_prev post 0 p' None), equation_replacement.
      now rewrite <- !app_assoc.
  - intros a b q -> Hb.
    apply exec_at_equation_none.
    destruct (Nat.lt_ge_cases (List.length b) (List.length span_open)) as [Hlen|Hlen].
    + now apply span_open_not_astride.
    + rewrite starts_with_long by exact Hlen.
      apply occurs_here. now apply occurs_suffix in Hpre.
Qed.

Lemma equation_span_becomes_inline_math_witness :
  preprocessHtml
    (js "<p>Water is " ++ span_open ++ js "H2O" ++ span_close ++ js "</p>")
  = js "<p>Water is " ++ js "$" ++ js "H2O" ++ js "$" ++ preprocessHtml (js "</p>").
Proof.
  apply (equation_span_becomes_inline_math (js "<p>Water is ") (js "H2O") (js "</p>"));
    try reflexivity. discriminate.
Defined.

(** X18.  HTML on one line that holds no opening tag of an equation span is
    left as it is. *)
Theorem html_without_equation_is_kept (html : text) :
  no_newline html = true -> occurs span_open html = false -> preprocessHtml html = html.
Proof.
  intros Hnl Hs. unfold preprocessHtml.
  rewrite (replace_all_needs is_nl RxHtml.blank_block) by (exact needs_blank_block_nl || assumption).
  now apply equation_rule_without_span.
Qed.

Lemma html_without_equation_is_kept_witness :
  preprocessHtml (js "<h1>Acids</h1><p>An <span>acid</span> gives H<sub>3</sub>O.</p>")
  = js "<h1>Acids</h1><p>An <span>acid</span> gives H<sub>3</sub>O.</p>".
Proof.
  apply html_without_equation_is_kept; reflexivity.
Defined.

(** ** The subscript rule on what Turndown writes for a sub element *)

Lemma adjacent_no_second (P Q : char -> bool) (s : text) :
  forallb (fun c => negb (Q c)) s = true -> adjacent P Q s = false.
Proof.
  induction s as [|a s IH]; [reflexivity|]. cbn [forallb adjacent]. intros H.
  apply andb_true_iff in H as [_ H]. destruct s as [|b s]; [reflexivity|].
  rewrite (IH H). cbn [forallb] in H. apply andb_true_iff in H as [Hb _].
  apply negb_true_iff in Hb. rewrite Hb. now rewrite andb_false_r.
Qed.

Lemma adjacent_no_first (P Q : char -> bool) (s : text) :
  forallb (fun c => negb (P c)) s = true -> adjacent P Q s = false.
Proof.
  induction s as [|a s IH]; [reflexivity|]. cbn [forallb adjacent]. intros H.
  apply andb_true_iff in H as [Ha H]. destruct s as [|b s]; [reflexivity|].
  rewrite (IH H). apply negb_true_iff in Ha. now rewrite Ha.
Qed.

Lemma adjacent_split (P Q : char -> bool) (b : text) :
  forall a,
    adjacent P Q a = false -> adjacent P Q b = false ->
    not_headed P (rev a) \/ not_headed Q b ->
    adjacent P Q (a ++ b) = false.
Proof.
  induction a as [|x a IH]; intros Ha Hb Hm; [exact Hb|].
  destruct a as [|x' a].
  - cbn [app adjacent]. destruct b as [|y b]; [reflexivity|]. rewrite Hb.
    cbn in Hm. destruct Hm as [Hm|Hm]; rewrite Hm; [reflexivity|].
    now rewrite andb_false_r.
  - cbn [app adjacent] in *. apply orb_false_iff in Ha as [H1 H2].
    rewrite H1. cbn [orb]. apply IH; [exact H2|exact Hb|].
    destruct Hm as [Hm|Hm]; [left|now right].
    cbn [rev] in Hm |- *. destruct (rev a ++ [x']) eqn:E; [now destruct (rev a)|].
    exact Hm.
Qed.

Lemma lang_subscript_shape (w : text) :
  lang Rx.subscript w ->
  exists U L r, w = U :: L ++ 95%N :: r /\ Chars.isUpper U = true
                /\ forallb Chars.isLower L = true.
Proof.
  cbn [Rx.subscript lang Rx.upper Rx.lower Rx.digit opt plus lit].
  intros (w0 & w1 & -> & (wu & wl & -> & (u & -> & Hu) & ls & -> & Hls & _)
          & w2 & w3 & -> & (c & -> & Hc) & _).
  apply lang_class_run in Hls as [Hls _]. apply N.eqb_eq in Hc. subst c.
  exists u, (List.concat ls), w3. split; [|auto].
  rewrite <- app_assoc. reflexivity.
Qed.

Lemma no_underscore_before (u : char) (R X : text) :
  Chars.isUpper u = true ->
  forall L b,
    forallb Chars.isLower L = true ->
    forallb (fun c => negb (Chars.eqc (ch "_") c)) b = true ->
    L ++ 95%N :: R = b ++ u :: X -> False.
Proof.
  intros Hu. induction L as [|l L IH]; intros b HL Hb E.
  - destruct b as [|c b]; cbn [app] in E; injection E as <- _.
    + discriminate.
    + cbn in Hb. discriminate.
  - cbn [forallb] in HL. apply andb_true_iff in HL as [Hl HL].
    destruct b as [|c b]; cbn [app] in E; injection E as -> E.
    + apply upper_not_lower in Hu. congruence.
    + cbn [forallb] in Hb. apply andb_true_iff in Hb as [_ Hb]. now apply (IH b).
Qed.

Lemma subscript_matches_token (p : option char) (g : group) (post : text) :
  valid g = true -> cnt g <> [] ->
  exec_at Rx.subscript p (sym g :: low_text g ++ subscript_replacement (cnt g) ++ post)
  = Some (MatchResult (sym g :: low_text g ++ subscript_replacement (cnt g))
                      [(2%nat, cnt g); (1%nat, sym g :: low_text g)]).
Proof.
  intros Hg Hc. destruct (valid_parts g Hg) as (Hu & Hlow & Hcnt).
  assert (Ex : exists z,
             rmatch Rx.subscript (fun y => Some y)
                    (MState p (sym g :: low_text g ++ (95%N :: cnt g ++ [95%N]) ++ post) [])
             = Some z
             /\ rest z = post
             /\ caps z = [(2%nat, cnt g); (1%nat, sym g :: low_text g)]).
  { unfold Rx.subscript. rewrite rmatch_seq, rmatch_grp, rmatch_seq.
    unfold Rx.upper at 1. cbn [rmatch rest]. rewrite Hu. unfold opt, Rx.lower.
    eexists. split; [|split].
    - apply (rmatch_class_greedy _ _ (low_text g) ((95%N :: cnt g ++ [95%N]) ++ post)).
      + reflexivity.
      + exact Hlow.
      + lia.
      + cbn [run_fits]. split; [apply low_text_length|]. right. reflexivity.
      + cbn [advance caps prev rest set_cap filter].
        unfold lit at 1. cbn [rmatch rest app].
        change (Chars.eqc (ch "_") 95%N) with true. cbn iota.
        unfold plus, Rx.digit.
        apply (rmatch_class_greedy _ _ (cnt g) (95%N :: post)).
        * cbn [advance rest]. now rewrite <- app_assoc.
        * exact Hcnt.
        * destruct (cnt g); [congruence|cbn; lia].
        * cbn [run_fits]. reflexivity.
        * unfold lit. cbn [rmatch rest set_cap].
          change (Chars.eqc (ch "_") 95%N) with true. cbn iota. reflexivity.
    - reflexivity.
    - cbn [caps advance set_cap rest filter fst Nat.eqb negb].
      f_equal; [f_equal|f_equal; f_equal].
      + rewrite <- app_assoc. exact (firstn_consumed (cnt g) (95%N :: post)).
      + exact (firstn_consumed (sym g :: low_text g)
                 (95%N :: (cnt g ++ [95%N]) ++ post)). }
  destruct Ex as (z & Ez & Hr & Hcz).
  etransitivity; [exact (exec_at_of _ _ _ _ Ez)|].
  rewrite Hr, Hcz. f_equal. f_equal.
  replace (sym g :: low_text g ++ (95%N :: cnt g ++ [95%N]) ++ post)
    with ((sym g :: low_text g ++ 95%N :: cnt g ++ [95%N]) ++ post)
    by (cbn [app]; now rewrite <- app_assoc).
  exact (firstn_consumed (sym g :: low_text g ++ 95%N :: cnt g ++ [95%N]) post).
Qed.

Lemma subscript_substitution (w : text) (g : group) :
  substitute 2 (js "$1_$2") (MatchResult w [(2%nat, cnt g); (1%nat, sym g :: low_text g)])
  = sym g :: low_text g ++ js "_" ++ cnt g.
Proof.
  change (substitute 2 (js "$1_$2")
            (MatchResult w [(2%nat, cnt g); (1%nat, sym g :: low_text g)]))
    with ((sym g :: low_text g) ++ 95%N :: cnt g ++ []).
  now rewrite app_nil_r.
Qed.

Lemma subscript_rule_on_token (pre post : text) (g : group) :
  plain pre = true -> plain post = true -> valid g = true -> cnt g <> [] ->
  replace_all Rx.subscript (js "$1_$2")
              (pre ++ (sym g :: low_text g ++ subscript_replacement (cnt g)) ++ post)
  = pre ++ (sym g :: low_text g ++ js "_" ++ cnt g) ++ post.
Proof.
  intros Hpre Hpost Hg Hc. destruct (valid_parts g Hg) as (Hu & Hlow & Hcnt).
  unfold replace_all, replace_all_with. rewrite replace_scan_prefix.
  - f_equal.
    destruct (replace_scan_hit Rx.subscript
                (substitute (List.length (groups Rx.subscript)) (js "$1_$2"))
                (prev_after pre None)
                (sym g :: low_text g ++ subscript_replacement (cnt g)) post
                (MatchResult (sym g :: low_text g ++ subscript_replacement (cnt g))
                             [(2%nat, cnt g); (1%nat, sym g :: low_text g)]))
      as (p' & Hhit).
    + cbn [app]. rewrite <- app_assoc. now apply subscript_matches_token.
    + reflexivity.
    + discriminate.
    + rewrite Hhit. change (List.length (groups Rx.subscript)) with 2%nat.
      rewrite subscript_substitution. f_equal.
      apply (replace_scan_no_match _ _
               (fun s => forallb (fun c => negb (Chars.eqc (ch "_") c)) s = true)).
      * intros c t Hct. cbn [forallb] in Hct. now apply andb_true_iff in Hct as [_ Hct].
      * intros q s Hs. now apply (exec_at_needs _ _ _ _ needs_subscript_underscore).
      * now apply plain_no_underscore.
  - intros a b q -> Hb.
    destruct (exec_at Rx.subscript q _) as [m|] eqn:E; [exfalso|reflexivity].
    apply exec_at_sound in E as (s' & Hs & Hl).
    apply lang_subscript_shape in Hl as (U & L & r & Hw & _ & HL). rewrite Hw in Hs.
    destruct b as [|c b]; [congruence|]. cbn [app] in Hs. injection Hs as _ Hs.
    rewrite <- (app_assoc L (95%N :: r) s') in Hs. cbn [app] in Hs.
    apply plain_no_underscore in Hpre. rewrite forallb_app in Hpre.
    apply andb_true_iff in Hpre as [_ Hb']. cbn [forallb] in Hb'.
    apply andb_true_iff in Hb' as [_ Hb'].
    symmetry in Hs. exact (no_underscore_before (sym g) _ _ Hu L b HL Hb' Hs).
Qed.

(** X19.  The subscript rule and the formula rule together, on what Turndown
    writes for a sub element after an element symbol: in plain text, the
    symbol followed by _digits_ keeps the first underscore and loses the
    second (H_2_O becomes H_2O), and the result is not put between dollar
    signs. *)
Theorem subscript_is_rewritten (pre post : text) (g : group) :
  plain pre = true -> plain post = true -> valid g = true -> cnt g <> [] ->
  postprocessMarkdown (pre ++ (sym g :: low_text g ++ subscript_replacement (cnt g)) ++ post)
  = trim (pre ++ (sym g :: low_text g ++ js "_" ++ cnt g) ++ post).
Proof.
  intros Hpre Hpost Hg Hc. destruct (valid_parts g Hg) as (Hu & Hlow & Hcnt).
  assert (Hnl : forallb (fun c => negb (is_nl c))
                        (pre ++ (sym g :: low_text g ++ subscript_replacement (cnt g)) ++ post)
                = true).
  { unfold subscript_replacement. change (js "_") with [95%N].
    rewrite !forallb_app. cbn [forallb]. rewrite !forallb_app. cbn [forallb].
    rewrite (plain_no_nl _ Hpre), (plain_no_nl _ Hpost).
    rewrite (word_not_nl _ (upper_word _ Hu)).
    rewrite (forallb_weaken Chars.isLower (fun c => negb (is_nl c)) _
               (fun c Hx => proj2 (negb_true_iff _) (word_not_nl _ (lower_word _ Hx))) Hlow).
    rewrite (forallb_weaken Chars.isDigit (fun c => negb (is_nl c)) _
               (fun c Hx => proj2 (negb_true_iff _) (word_not_nl _ (digit_word _ Hx))) Hcnt).
    reflexivity. }
  unfold postprocessMarkdown.
  rewrite (replace_all_needs is_nl Rx.blank_lines _ _ needs_blank_lines_nl Hnl).
  rewrite (replace_all_needs is_nl Rx.before_header _ _ needs_before_header_nl Hnl).
  rewrite (replace_all_needs is_nl Rx.after_header _ _ needs_after_header_nl Hnl).
  rewrite (replace_all_needs is_nl Rx.table_row _ _ needs_table_row_nl Hnl).
  rewrite subscript_rule_on_token by assumption.
  f_equal. apply (formula_rule_without_pair letter Chars.isDigit).
  - intros w Hw. now apply lang_formula_pairs.
  - assert (Hd : forall s, plain s = true ->
                           adjacent letter Chars.isDigit s = false).
    { intros s Hs. apply adjacent_no_second. now apply plain_no_digit. }
    apply adjacent_split; [now apply Hd| |].
    + apply adjacent_split; [| now apply Hd |].
      * replace (sym g :: low_text g ++ js "_" ++ cnt g)
          with ((sym g :: low_text g ++ js "_") ++ cnt g)
          by (cbn [app]; now rewrite <- app_assoc).
        apply adjacent_split.
        -- apply adjacent_no_second. cbn [forallb]. rewrite forallb_app.
           rewrite (upper_not_digit _ Hu). cbn [negb andb].
           rewrite (forallb_weaken Chars.isLower (fun c => negb (Chars.isDigit c)) _
                      (fun c Hx => proj2 (negb_true_iff _) (lower_not_digit _ Hx)) Hlow).
           reflexivity.
        -- apply adjacent_no_first.
           apply (forallb_weaken Chars.isDigit); [|exact Hcnt].
           intros c Hx. unfold letter.
           now rewrite (digit_not_upper _ Hx), (digit_not_lower _ Hx).
        -- left. cbn [rev]. rewrite rev_app_distr. cbn. reflexivity.
      * right. destruct post as [|c post]; [exact I|].
        cbn in Hpost |- *. apply andb_true_iff in Hpost as [Hc0 _].
        unfold plain_char in Hc0. apply negb_true_iff in Hc0.
        now apply orb_false_iff in Hc0 as [Hc0 _]; apply orb_false_iff in Hc0 as [Hc0 _].
    + right. cbn [app not_headed]. now apply upper_not_digit.
Qed.

Lemma subscript_is_rewritten_witness :
  postprocessMarkdown (js "Water is H_2_O, salt is NaCl.") = js "Water is H_2O, salt is NaCl.".
Proof.
  apply (subscript_is_rewritten (js "Water is ") (js "O, salt is NaCl.")
           {| sym := ch "H"; low := None; cnt := js "2" |});
    try reflexivity. discriminate.
Defined.

(** ** sanitizeFilename *)

Lemma check_below (P : char -> bool) :
  forallb P (map N.of_nat (seq 0 256)) = true ->
  forall c, (c < 256)%N -> P c = true.
Proof.
  intros Hall c Hc. rewrite forallb_forall in Hall. apply Hall.
  apply in_map_iff. exists (N.to_nat c). split; [apply N2Nat.id|].
  apply in_seq. lia.
Qed.

Lemma kept_below (c : char) : RxName.kept c = true -> (c < 256)%N.
Proof.
  unfold RxName.kept, RxName.icelandic_small, RxName.icelandic_capital,
    Chars.isLower, Chars.isUpper, Chars.isDigit, Chars.between, Chars.eqc.
  cbn [existsb]. intros Hk.
  repeat match type of Hk with
         | (_ || _)%bool = true => apply orb_true_iff in Hk as [Hk|Hk]
         end;
    try (apply andb_true_iff in Hk as [_ Hk]; apply N.leb_le in Hk; lia);
    try (apply N.eqb_eq in Hk; subst; reflexivity);
    try discriminate.
Qed.

Lemma kept_lowered (c : char) :
  RxName.kept c = true ->
  safe (toLowerCase_latin1 c) = true
  /\ is_hyphen (toLowerCase_latin1 c) = is_hyphen c.
Proof.
  intros Hk.
  pose proof (check_below
                (fun c => implb (RxName.kept c)
                            (safe (toLowerCase_latin1 c)
                             && Bool.eqb (is_hyphen (toLowerCase_latin1 c)) (is_hyphen c))))
    as Hc.
  specialize (Hc ltac:(vm_compute; reflexivity) c (kept_below c Hk)).
  cbn beta in Hc. rewrite Hk in Hc. cbn [implb] in Hc.
  apply andb_true_iff in Hc as [H1 H2]. apply Bool.eqb_prop in H2. auto.
Qed.

Lemma safe_is_fixed (c : char) :
  safe c = true -> RxName.kept c = true /\ toLowerCase_latin1 c = c.
Proof.
  intros Hs.
  assert (Hk : RxName.kept c = true).
  { unfold safe in Hs. unfold RxName.kept.
    repeat match type of Hs with
           | (_ || _)%bool = true => apply orb_true_iff in Hs as [Hs|Hs]
           end; rewrite Hs; rewrite ?orb_true_r; reflexivity. }
  split; [exact Hk|].
  pose proof (check_below (fun c => implb (safe c) (N.eqb (toLowerCase_latin1 c) c))) as Hc.
  specialize (Hc ltac:(vm_compute; reflexivity) c (kept_below c Hk)).
  cbn beta in Hc. rewrite Hs in Hc. now apply N.eqb_eq in Hc.
Qed.

(** *** The first replacement *)

Lemma foreign_rule (s : text) :
  replace_all RxName.foreign (js "-") s
  = map (fun c => if RxName.kept c then c else ch "-") s.
Proof.
  unfold replace_all, replace_all_with, RxName.foreign. rewrite replace_scan_class.
  induction s as [|c t IH]; [reflexivity|]. cbn [flat_map map]. rewrite IH.
  now destruct (RxName.kept c).
Qed.

Lemma foreign_rule_kept (s : text) :
  forallb RxName.kept (replace_all RxName.foreign (js "-") s) = true.
Proof.
  rewrite foreign_rule. induction s as [|c t IH]; [reflexivity|].
  cbn [map forallb]. rewrite IH, andb_true_r.
  destruct (RxName.kept c) eqn:E; [exact E|reflexivity].
Qed.

Lemma foreign_rule_fixed (s : text) :
  forallb RxName.kept s = true -> replace_all RxName.foreign (js "-") s = s.
Proof.
  rewrite foreign_rule. induction s as [|c t IH]; [reflexivity|].
  cbn [map forallb]. intros H. apply andb_true_iff in H as [Hc Ht].
  now rewrite Hc, IH.
Qed.

(** *** The second replacement *)

Lemma is_hyphen_eq (c : char) : is_hyphen c = true -> c = 45%N.
Proof. unfold is_hyphen, Chars.eqc. intros H. now apply N.eqb_eq in H. Qed.

Lemma hyphens_none (p : option char) (s : text) :
  not_headed is_hyphen s -> exec_at RxName.hyphens p s = None.
Proof.
  intros Hs. unfold exec_at, RxName.hyphens, plus. cbn [rmatch groups rest].
  rewrite Nat.add_comm. cbn [rep_loop Nat.eqb negb Nat.add]. rewrite clear_caps_nil.
  unfold lit. cbn [rmatch rest]. destruct s as [|c t]; [reflexivity|].
  cbn in Hs. unfold is_hyphen in Hs. now rewrite Hs.
Qed.

Lemma hyphens_run (p : option char) (run s' : text) :
  run <> [] -> forallb is_hyphen run = true -> not_headed is_hyphen s' ->
  exec_at RxName.hyphens p (run ++ s') = Some (MatchResult run []).
Proof.
  intros Hne Hrun Hs'.
  assert (Ex : rmatch RxName.hyphens (fun y => Some y) (MState p (run ++ s') [])
               = Some (MState (prev_after run p) s' [])).
  { unfold RxName.hyphens, plus, lit.
    apply (rmatch_class_greedy _ _ run s'); auto.
    destruct run; [congruence|cbn; lia]. }
  rewrite (exec_at_of _ _ _ _ Ex). cbn [rest caps]. now rewrite firstn_consumed.
Qed.

Lemma hyphens_scan_copy (f : rmatch_result -> text) (p : option char) (c : char) (t : text) :
  is_hyphen c = false ->
  replace_scan RxName.hyphens f 0 p (c :: t) = c :: replace_scan RxName.hyphens f 0 (Some c) t.
Proof.
  intros Hc. cbn [replace_scan]. now rewrite hyphens_none.
Qed.

Lemma hyphens_scan_nil (f : rmatch_result -> text) (p : option char) :
  replace_scan RxName.hyphens f 0 p [] = [].
Proof. cbn [replace_scan]. now rewrite hyphens_none. Qed.

Lemma hyphens_scan_run (f : rmatch_result -> text) (p : option char) (run s' : text) :
  run <> [] -> forallb is_hyphen run = true -> not_headed is_hyphen s' ->
  exists p',
    replace_scan RxName.hyphens f 0 p (run ++ s')
    = f (MatchResult run []) ++ replace_scan RxName.hyphens f 0 p' s'.
Proof.
  intros Hne Hrun Hs'.
  apply (replace_scan_hit _ _ _ _ _ (MatchResult run [])); auto.
  now apply hyphens_run.
Qed.

Lemma hyphens_rule_shape (n : nat) :
  forall s p,
    (List.length s <= n)%nat ->
    adjacent is_hyphen is_hyphen
             (replace_scan RxName.hyphens (substitute 0 (js "-")) 0 p s) = false
    /\ (not_headed is_hyphen s ->
        not_headed is_hyphen (replace_scan RxName.hyphens (substitute 0 (js "-")) 0 p s)).
Proof.
  induction n as [|n IH]; intros s p Hn.
  - destruct s; [|cbn in Hn; lia]. rewrite hyphens_scan_nil. split; [reflexivity|auto].
  - destruct s as [|c t]; [rewrite hyphens_scan_nil; split; [reflexivity|auto]|].
    cbn [List.length] in Hn.
    destruct (is_hyphen c) eqn:Ec.
    + destruct (class_span is_hyphen t) as (run & s' & -> & Hrun & Hs').
      destruct (hyphens_scan_run (substitute 0 (js "-")) p (c :: run) s')
        as (p' & E); [discriminate|cbn; now rewrite Ec|exact Hs'|].
      cbn [app] in E. rewrite E.
      change (substitute 0 (js "-") (MatchResult (c :: run) [])) with [45%N].
      rewrite length_app in Hn.
      destruct (IH s' p' ltac:(lia)) as [IH1 IH2]. specialize (IH2 Hs').
      split; [|cbn [not_headed]; congruence].
      cbn [app adjacent].
      destruct (replace_scan RxName.hyphens _ 0 p' s') as [|d out]; [reflexivity|].
      cbn in IH2. rewrite IH2. rewrite andb_false_r. exact IH1.
    + rewrite (hyphens_scan_copy _ _ _ _ Ec).
      destruct (IH t (Some c) ltac:(lia)) as [IH1 _].
      split; [|intros _; exact Ec].
      cbn [adjacent].
      destruct (replace_scan RxName.hyphens _ 0 (Some c) t); [reflexivity|].
      now rewrite Ec.
Qed.

Lemma hyphens_rule_fixed (s : text) :
  forall p,
    adjacent is_hyphen is_hyphen s = false ->
    replace_scan RxName.hyphens (substitute 0 (js "-")) 0 p s = s.
Proof.
  induction s as [|c t IH]; intros p Hs; [apply hyphens_scan_nil|].
  destruct (is_hyphen c) eqn:Ec.
  - assert (Ht : not_headed is_hyphen t).
    { destruct t as [|d t]; [exact I|]. cbn in Hs |- *. rewrite Ec in Hs.
      now apply orb_false_iff in Hs as [Hs _]. }
    destruct (hyphens_scan_run (substitute 0 (js "-")) p [c] t) as (p' & E);
      [discriminate|cbn; now rewrite Ec|exact Ht|].
    cbn [app] in E. rewrite E.
    change (substitute 0 (js "-") (MatchResult [c] [])) with [45%N].
    rewrite (IH p' (adjacent_tail _ _ _ _ Hs)). apply is_hyphen_eq in Ec. now subst c.
  - rewrite (hyphens_scan_copy _ _ _ _ Ec). now rewrite (IH _ (adjacent_tail _ _ _ _ Hs)).
Qed.

(** *** The third replacement *)

Lemma edge_scan_inner (t : text) :
  forall c0,
    replace_scan_by (exec_alternatives RxName.edge_hyphen) (fun _ => []) 0 (Some c0) t
    = drop_last_hyphen t.
Proof.
  induction t as [|c t IH]; intros c0; [reflexivity|].
  cbn [replace_scan_by exec_alternatives RxName.edge_hyphen alt_body alt_at_end].
  rewrite rmatch_seq, rmatch_assert. cbn [check prev].
  unfold lit. cbn [rmatch rest]. fold (is_hyphen c).
  destruct (is_hyphen c) eqn:Ec.
  - unfold accept, advance. cbn [rest].
    destruct t as [|d t].
    + cbn [matched List.length firstn Nat.sub app replace_scan_by exec_alternatives
           RxName.edge_hyphen alt_body alt_at_end drop_last_hyphen].
      now rewrite Ec.
    + rewrite IH. cbn [drop_last_hyphen]. reflexivity.
  - rewrite IH. cbn [drop_last_hyphen]. rewrite Ec. now destruct t.
Qed.

Lemma edge_rule (s : text) :
  replace_scan_by (exec_alternatives RxName.edge_hyphen) (fun _ => []) 0 None s
  = strip_edges s.
Proof.
  destruct s as [|c t]; [reflexivity|].
  cbn [replace_scan_by exec_alternatives RxName.edge_hyphen alt_body alt_at_end].
  rewrite rmatch_seq, rmatch_assert. cbn [check prev].
  unfold lit. cbn [rmatch rest]. fold (is_hyphen c). unfold strip_edges.
  destruct (is_hyphen c) eqn:Ec.
  - unfold accept at 1, advance. cbn [rest matched List.length].
    replace (S (List.length t) - List.length t)%nat with 1%nat by lia.
    cbn [firstn List.length app]. apply edge_scan_inner.
  - rewrite edge_scan_inner. cbn [drop_last_hyphen]. rewrite Ec. now destruct t.
Qed.

Lemma drop_last_forallb (P : char -> bool) (t : text) :
  forallb P t = true -> forallb P (drop_last_hyphen t) = true.
Proof.
  induction t as [|c t IH]; [reflexivity|]. cbn [forallb drop_last_hyphen].
  intros H. apply andb_true_iff in H as [Hc Ht].
  destruct t as [|d t].
  - destruct (is_hyphen c); cbn; [reflexivity|now rewrite Hc].
  - cbn [forallb]. rewrite Hc. now apply IH.
Qed.

Lemma drop_last_headed (t : text) :
  not_headed is_hyphen t -> not_headed is_hyphen (drop_last_hyphen t).
Proof.
  destruct t as [|c [|d t]]; cbn; auto. intros H. rewrite H. exact H.
Qed.

Lemma drop_last_adjacent (t : text) :
  adjacent is_hyphen is_hyphen t = false ->
  adjacent is_hyphen is_hyphen (drop_last_hyphen t) = false.
Proof.
  induction t as [|c t IH]; [reflexivity|]. intros H.
  destruct t as [|d t]; [cbn; now destruct (is_hyphen c)|].
  specialize (IH (adjacent_tail _ _ _ _ H)).
  cbn [adjacent] in H. apply orb_false_iff in H as [H1 _].
  change (drop_last_hyphen (c :: d :: t)) with (c :: drop_last_hyphen (d :: t)).
  destruct (drop_last_hyphen (d :: t)) as [|e r] eqn:E; [reflexivity|].
  cbn [adjacent]. cbn [adjacent] in IH. rewrite IH, orb_false_r.
  destruct t as [|d' t]; cbn [drop_last_hyphen] in E.
  - destruct (is_hyphen d) eqn:Ed; [discriminate|]. injection E as <- _.
    now rewrite Ed, andb_false_r.
  - injection E as <- _. exact H1.
Qed.

Lemma drop_last_clean (t : text) :
  adjacent is_hyphen is_hyphen t = false ->
  not_headed is_hyphen (rev (drop_last_hyphen t)).
Proof.
  induction t as [|c t IH]; [intros _; exact I|]. intros H.
  destruct t as [|d t].
  - cbn. destruct (is_hyphen c) eqn:Ec; cbn; auto.
  - specialize (IH (adjacent_tail _ _ _ _ H)).
    cbn [adjacent] in H. apply orb_false_iff in H as [H1 _].
    change (drop_last_hyphen (c :: d :: t)) with (c :: drop_last_hyphen (d :: t)).
    cbn [rev]. destruct (rev (drop_last_hyphen (d :: t))) as [|e r] eqn:E.
    + cbn. apply (f_equal (@rev _)) in E. rewrite rev_involutive in E. cbn [rev] in E.
      destruct t as [|d' t]; cbn [drop_last_hyphen] in E; [|discriminate].
      destruct (is_hyphen d) eqn:Ed; [|discriminate].
      now rewrite andb_true_r in H1.
    + exact IH.
Qed.

Lemma drop_last_fixed (t : text) :
  not_headed is_hyphen (rev t) -> drop_last_hyphen t = t.
Proof.
  induction t as [|c t IH]; [reflexivity|]. intros H.
  destruct t as [|d t].
  - cbn in H |- *. now rewrite H.
  - cbn [drop_last_hyphen]. f_equal. apply IH.
    cbn [rev] in H |- *. destruct (rev t ++ [d]) eqn:E; [now destruct (rev t)|].
    exact H.
Qed.

Lemma strip_edges_shape (s : text) :
  adjacent is_hyphen is_hyphen s = false ->
  adjacent is_hyphen is_hyphen (strip_edges s) = false
  /\ not_headed is_hyphen (strip_edges s)
  /\ not_headed is_hyphen (rev (strip_edges s)).
Proof.
  intros H. destruct s as [|c t]; [repeat split|]. unfold strip_edges.
  destruct (is_hyphen c) eqn:Ec.
  - pose proof (adjacent_tail _ _ _ _ H) as Ht. repeat split.
    + now apply drop_last_adjacent.
    + apply drop_last_headed. destruct t as [|d t]; [exact I|].
      cbn in H |- *. rewrite Ec in H. now apply orb_false_iff in H as [H _].
    + now apply drop_last_clean.
  - repeat split.
    + now apply drop_last_adjacent.
    + apply drop_last_headed. exact Ec.
    + now apply drop_last_clean.
Qed.

Lemma strip_edges_fixed (s : text) :
  not_headed is_hyphen s -> not_headed is_hyphen (rev s) -> strip_edges s = s.
Proof.
  intros Hh Hr. destruct s as [|c t]; [reflexivity|]. unfold strip_edges.
  cbn in Hh. rewrite Hh. now apply drop_last_fixed.
Qed.

Lemma strip_edges_forallb (P : char -> bool) (s : text) :
  forallb P s = true -> forallb P (strip_edges s) = true.
Proof.
  intros H. destruct s as [|c t]; [reflexivity|]. unfold strip_edges.
  destruct (is_hyphen c); [|now apply drop_last_forallb].
  cbn [forallb] in H. apply andb_true_iff in H as [_ H]. now apply drop_last_forallb.
Qed.

(** *** Lower case *)

Lemma lowered_shape (s : text) :
  forallb RxName.kept s = true ->
  forallb safe (map toLowerCase_latin1 s) = true
  /\ map is_hyphen (map toLowerCase_latin1 s) = map is_hyphen s.
Proof.
  induction s as [|c t IH]; [split; reflexivity|]. cbn [forallb map]. intros H.
  apply andb_true_iff in H as [Hc Ht]. destruct (IH Ht) as [IH1 IH2].
  destruct (kept_lowered c Hc) as [H1 H2]. now rewrite H1, H2, IH1, IH2.
Qed.

Lemma adjacent_by_class (P : char -> bool) (a b : text) :
  map P a = map P b -> adjacent P P a = adjacent P P b.
Proof.
  revert b. induction a as [|x a IH]; intros [|y b] E; try discriminate; [reflexivity|].
  cbn [map] in E. injection E as Exy E. cbn [adjacent].
  destruct a as [|x' a]; destruct b as [|y' b]; try discriminate; [reflexivity|].
  rewrite (IH (y' :: b) E). cbn [map] in E. injection E as Exy' _.
  now rewrite Exy, Exy'.
Qed.

Lemma headed_by_class (P : char -> bool) (a b : text) :
  map P a = map P b -> not_headed P a -> not_headed P b.
Proof.
  destruct a as [|x a]; destruct b as [|y b]; cbn; try discriminate; auto.
  intros [= E _]. congruence.
Qed.

Lemma safe_fixed_text (s : text) :
  forallb safe s = true ->
  forallb RxName.kept s = true /\ map toLowerCase_latin1 s = s.
Proof.
  induction s as [|c t IH]; [split; reflexivity|]. cbn [forallb map]. intros H.
  apply andb_true_iff in H as [Hc Ht]. destruct (IH Ht) as [IH1 IH2].
  destruct (safe_is_fixed c Hc) as [H1 H2]. now rewrite H1, H2, IH1, IH2.
Qed.

(** X20.  sanitizeFilename returns a name made of small letters (a to z and
    the ten Icelandic letters of the source), digits, underscores, full stops
    and single hyphens, with no hyphen at its start or end; and a name it
    returned is returned unchanged when sanitized again. *)
Theorem sanitized_names_are_safe (filename : text) :
  forallb safe (sanitizeFilename filename) = true
  /\ adjacent is_hyphen is_hyphen (sanitizeFilename filename) = false
  /\ not_headed is_hyphen (sanitizeFilename filename)
  /\ not_headed is_hyphen (rev (sanitizeFilename filename))
  /\ sanitizeFilename (sanitizeFilename filename) = sanitizeFilename filename.
Proof.
  assert (Shape : forall s,
             forallb safe (sanitizeFilename s) = true
             /\ adjacent is_hyphen is_hyphen (sanitizeFilename s) = false
             /\ not_headed is_hyphen (sanitizeFilename s)
             /\ not_headed is_hyphen (rev (sanitizeFilename s))).
  { intros s. unfold sanitizeFilename. rewrite edge_rule.
    set (s1 := replace_all RxName.foreign (js "-") s).
    set (s2 := replace_all RxName.hyphens (js "-") s1).
    assert (K1 : forallb RxName.kept s1 = true) by apply foreign_rule_kept.
    assert (K2 : forallb RxName.kept s2 = true).
    { apply forallb_replace_scan; [intros m; reflexivity|exact K1]. }
    assert (A2 : adjacent is_hyphen is_hyphen s2 = false).
    { apply (hyphens_rule_shape (List.length s1) s1 None). lia. }
    destruct (strip_edges_shape s2 A2) as (A3 & H3 & R3).
    pose proof (strip_edges_forallb _ _ K2) as K3.
    destruct (lowered_shape _ K3) as [S4 M4].
    repeat split.
    - exact S4.
    - rewrite (adjacent_by_class _ _ _ M4). exact A3.
    - apply (headed_by_class _ _ _ (eq_sym M4)). exact H3.
    - apply (headed_by_class is_hyphen (rev (strip_edges s2))); [|exact R3].
      rewrite !map_rev. now rewrite M4. }
  destruct (Shape filename) as (S & A & Hh & Hr). repeat split; auto.
  destruct (safe_fixed_text _ S) as [K L].
  unfold sanitizeFilename at 1. rewrite edge_rule.
  rewrite (foreign_rule_fixed _ K).
  unfold replace_all at 1, replace_all_with.
  change (List.length (groups RxName.hyphens)) with 0%nat.
  rewrite (hyphens_rule_fixed _ None A).
  rewrite (strip_edges_fixed _ Hh Hr). exact L.
Qed.

(** ** What a conversion that returns has done *)

Section ConversionResults.
Context {W : Type} {H : Host W}.

Lemma save_images_done (imgs : list ImageRecord) (w w' : W) :
  save_images imgs w = (Ok tt, w') -> imgs = [] /\ w' = w.
Proof.
  destruct imgs as [|img rest]; [cbn; now intros [= <-]|].
  rewrite save_images_cons. destruct (save_image_rejected img w) as (e & _ & ->).
  discriminate.
Qed.

Lemma records_from_nil (outputDir documentName : text) (first : N)
      (elements : list ImageElement) :
  records_from outputDir documentName first elements = [] -> elements = [].
Proof. destruct elements; [reflexivity|discriminate]. Qed.

(** X21.  When convertDocxToMarkdown returns, the input file has been read
    and mammoth has accepted its content, the warnings are mammoth's
    messages, the Markdown is the post-processed Turndown output of the
    pre-processed HTML, and no image is returned.  With image extraction on,
    it returns only for a document without images: the handler keeps the
    promise that element.read gives, Buffer.from refuses it when the images
    are saved, and the conversion throws.  Without image extraction the HTML
    carries mammoth's own inline images. *)
Theorem conversion_returns_without_images (inputPath : text) (options : ConversionOptions)
        (w w' : W) (r : ConversionResult) :
  convertDocxToMarkdown inputPath options w = (Ok r, w') ->
  exists buf doc,
    (exists w1 w2, fs_readFile inputPath w1 = (Ok buf, w2))
    /\ mammoth_read buf = Ok doc
    /\ warnings r = doc_messages doc
    /\ originalFile (metadata r) = path_basename inputPath None
    /\ result_images r = []
    /\ if match opt_extractImages options with Some b => b | None => true end
       then doc_elements doc = []
            /\ markdown r
               = postprocessMarkdown (turndown (preprocessHtml (doc_html doc (Some []))))
       else markdown r
            = postprocessMarkdown (turndown (preprocessHtml (doc_html doc None))).
Proof.
  intros E.
  set (outputDir :=
         match opt_outputDir options with Some d => d | None => path_dirname inputPath end)
    in *.
  set (documentName := path_basename inputPath (Some (js ".docx"))) in *.
  unfold convertDocxToMarkdown, try_catch in E.
  fold outputDir in E. fold documentName in E.
  match type of E with
  | (match ?b with _ => _ end) = _ => destruct b as [[r0|e] w0] eqn:Eb; [|discriminate]
  end.
  injection E as <- <-.
  unfold bind, lift, ret in Eb.
  destruct (fs_mkdir_recursive outputDir w) as [[[]|e] wa]; [|discriminate].
  destruct (match opt_extractImages options with Some b => b | None => true end) eqn:Ex.
  - destruct (fs_mkdir_recursive _ wa) as [[[]|e] wb]; [|discriminate].
    destruct (fs_readFile inputPath wb) as [[buf|e] wc] eqn:Er; [|discriminate].
    destruct (mammoth_read buf) as [doc|e] eqn:Ed; [|discriminate].
    pose proof (run_handler_from outputDir documentName (doc_elements doc)
                  (createImageHandler outputDir documentName)) as Hrun.
    destruct (run_handler outputDir documentName (doc_elements doc)
                (createImageHandler outputDir documentName)) as [srcs st].
    injection Hrun as -> ->. cbn [images createImageHandler imageCounter app] in Eb.
    destruct (save_images _ wc) as [[[]|e] wd] eqn:Es; [|discriminate].
    apply save_images_done in Es as [Hnone ->].
    pose proof (records_from_nil _ _ _ _ Hnone) as Hel.
    destruct (date_toISOString wc) as [[t|e] we]; [|discriminate].
    injection Eb as <- <-. cbn [warnings metadata originalFile result_images markdown].
    rewrite Hnone. cbn [map].
    exists buf, doc. split; [eauto|]. repeat split; auto.
  - destruct (fs_readFile inputPath wa) as [[buf|e] wc] eqn:Er; [|discriminate].
    destruct (mammoth_read buf) as [doc|e] eqn:Ed; [|discriminate].
    destruct (date_toISOString wc) as [[t|e] we]; [|discriminate].
    injection Eb as <- <-. cbn [warnings metadata originalFile result_images markdown].
    exists buf, doc. split; [eauto|]. repeat split; auto.
Qed.

(** X26.  With image extraction on, a document that holds an image is never
    converted: once the directories are made and the document is read,
    saving the first image fails, because Buffer.from is handed the promise
    that the handler kept from element.read, and convertDocxToMarkdown
    throws Failed to convert document: followed by the message of
    Buffer.from.  The world is the one the reading left: no image file and no
    Markdown is written. *)
Theorem images_abort_the_conversion (inputPath : text) (options : ConversionOptions)
        (buf : text) (doc : MammothDocument) (element : ImageElement)
        (others : list ImageElement) (w wa wb wc : W) :
  let outputDir :=
    match opt_outputDir options with Some d => d | None => path_dirname inputPath end in
  match opt_extractImages options with Some b => b | None => true end = true ->
  fs_mkdir_recursive outputDir w = (Ok tt, wa) ->
  fs_mkdir_recursive (path_join [outputDir; js "images"]) wa = (Ok tt, wb) ->
  fs_readFile inputPath wb = (Ok buf, wc) ->
  mammoth_read buf = Ok doc ->
  doc_elements doc = element :: others ->
  exists e,
    Buffer_from_base64 (element_read_base64 element) = Err e
    /\ convertDocxToMarkdown inputPath options w
       = (Err (js "Failed to convert document: " ++ e), wc).
Proof.
  intros outputDir Hx Hmk1 Hmk2 Hread Hdoc Hel.
  unfold convertDocxToMarkdown, try_catch, bind, lift, throw. fold outputDir.
  rewrite Hx, Hmk1, Hmk2, Hread, Hdoc.
  rewrite run_handler_from. rewrite Hel.
  cbn [images createImageHandler imageCounter app].
  unfold records_from. cbn [List.length ordinals combine map fst snd].
  rewrite save_images_cons.
  destruct (save_image_rejected
              (record_of outputDir (path_basename inputPath (Some (js ".docx"))) 1 element)
              wc) as (e & He & ->).
  exists e. split; [exact He|reflexivity].
Qed.
End ConversionResults.

Lemma conversion_returns_without_images_witness :
  exists r w',
    convertDocxToMarkdown (H := Sim.host) (js "/in/a.docx") default_conversion
                          titled_world = (Ok r, w')
    /\ markdown r = js "# Real Title\n\nBody."
    /\ result_images r = [].
Proof.
  destruct (convertDocxToMarkdown (H := Sim.host) (js "/in/a.docx") default_conversion
                                  titled_world) as [[r|e] w'] eqn:E;
    [|vm_compute in E; discriminate].
  destruct (conversion_returns_without_images (H := Sim.host) _ _ _ _ _ E)
    as (buf & doc & _ & _ & _ & _ & Hi & _).
  exists r, w'. split; [reflexivity|]. split; [|exact Hi].
  vm_compute in E. now injection E as <- _.
Defined.

Lemma images_abort_the_conversion_witness :
  exists e,
    Buffer_from_base64 (element_read_base64 Sim.png) = Err e
    /\ convertDocxToMarkdown (H := Sim.host) (js "/d/doc.docx") default_conversion
                             two_images_world
       = (Err (js "Failed to convert document: " ++ e), two_images_world).
Proof.
  apply (images_abort_the_conversion (H := Sim.host) (js "/d/doc.docx") default_conversion
           (js "First @ then @.")
           {| doc_elements := [Sim.png; Sim.png];
              doc_html := fun srcs =>
                match srcs with
                | Some l => Sim.render (js "First @ then @.") l
                | None => Sim.render (js "First @ then @.")
                            (repeat (js "data:image/png;base64,iVBORw0KGgo=") 2)
                end;
              doc_messages := [] |}
           Sim.png [Sim.png]
           two_images_world two_images_world two_images_world two_images_world);
    reflexivity.
Defined.

(** ** The order of the keys of the front matter *)

Lemma spread_appends (cf : obj) :
  forall o,
    NoDup (keys cf) ->
    (forall k, In k (keys cf) -> array_index k = None /\ ~ In k (keys o)) ->
    spread o cf = o ++ cf.
Proof.
  unfold spread. induction cf as [|[k v] cf IH]; intros o Hn Hk.
  - cbn. now rewrite app_nil_r.
  - cbn [fold_left fst snd]. cbn [keys map fst] in Hn, Hk.
    inversion Hn as [|? ? Hnk Hn']; subst.
    destruct (Hk k (or_introl eq_refl)) as [Hi Ho].
    assert (Es : obj_set k v o = o ++ [(k, v)]).
    { unfold obj_set. apply obj_has_not_in in Ho. now rewrite Ho, Hi. }
    rewrite Es. fold (spread (o ++ [(k, v)]) cf). unfold spread. rewrite IH.
    + now rewrite <- app_assoc.
    + exact Hn'.
    + intros k' Hk'. destruct (Hk k' (or_intror Hk')) as [Hi' Ho']. split; [exact Hi'|].
      unfold keys. rewrite map_app. cbn [map fst]. intros Hin.
      apply in_app_or in Hin as [Hin|[<-|[]]]; [now apply Ho'|contradiction].
Qed.

(** X22.  The front matter lists its keys in a fixed order: title first, then
    section, chapter and objectives as far as they are present, then the
    custom fields in their own order - as long as no custom field is named
    like one of these four or like an array index.  A custom field that is
    named like an array index (0, 1, 2024, ...) is written before the
    title. *)
Theorem frontmatter_key_order (options : FrontmatterOptions) (fm : obj) :
  generateFrontmatter options = Ok fm ->
  (forall cf,
      customFields options = Some cf \/ (customFields options = None /\ cf = []) ->
      NoDup (keys cf) ->
      (forall k, In k (keys cf) -> array_index k = None /\ ~ In k recognized_keys) ->
      keys fm = filter (fun k => obj_has k fm) recognized_keys ++ keys cf)
  /\ (forall k v n,
         customFields options = Some [(k, v)] -> array_index k = Some n ->
         exists others, fm = (k, v) :: others).
Proof.
  unfold generateFrontmatter, rbind.
  destruct (length_gt0 _) as [nonempty|e]; [|discriminate].
  set (s := js_default JNull (section options)).
  set (c := js_default JNull (chapter options)).
  set (o := js_default (JArr []) (objectives options)).
  set (t := js_default (JStr (js "Untitled")) (title options)).
  intros [= <-]. split.
  - intros cf Hcf Hn Hk.
    replace (match customFields options with Some c0 => c0 | None => [] end) with cf
      by (destruct Hcf as [->|[-> ->]]; reflexivity).
    assert (Hbase : forall k, In k (keys cf) ->
                              array_index k = None
                              /\ ~ In k (keys (spread (spread (spread [(js "title", t)]
                                      (when (negb (is_null s)) "section" s))
                                      (when (negb (is_null c)) "chapter" c))
                                      (when nonempty "objectives" o)))).
    { intros k Hin. destruct (Hk k Hin) as [Hi Hr]. split; [exact Hi|].
      intros Hb. apply Hr. unfold recognized_keys.
      destruct (negb (is_null s)), (negb (is_null c)), nonempty; cbn in Hb |- *; tauto. }
    rewrite (spread_appends cf _ Hn Hbase).
    unfold keys at 1. rewrite map_app. fold (keys cf). f_equal.
    assert (Hcfk : forall k, In k recognized_keys -> obj_get k cf = None).
    { intros k Hin. destruct (obj_get k cf) eqn:E; [|reflexivity].
      apply obj_get_in in E. apply (in_map fst) in E. cbn [fst] in E.
      now destruct (Hk k E) as [_ Hr]. }
    unfold recognized_keys, obj_has. cbn [filter]. rewrite !obj_get_app.
    rewrite !Hcfk by (unfold recognized_keys; cbn; tauto).
    destruct (negb (is_null s)), (negb (is_null c)), nonempty; reflexivity.
  - intros k v n -> Hi. unfold spread at 1. cbn [fold_left fst snd].
    unfold obj_set.
    assert (Hh : obj_has k (spread (spread (spread [(js "title", t)]
                                      (when (negb (is_null s)) "section" s))
                                      (when (negb (is_null c)) "chapter" c))
                                      (when nonempty "objectives" o)) = false).
    { apply obj_has_not_in. intros Hin.
      assert (Hr : In k recognized_keys).
      { unfold recognized_keys.
        destruct (negb (is_null s)), (negb (is_null c)), nonempty; cbn in Hin |- *; tauto. }
      unfold recognized_keys in Hr. cbn [In] in Hr.
      destruct Hr as [<-|[<-|[<-|[<-|[]]]]]; discriminate. }
    rewrite Hh, Hi.
    destruct (negb (is_null s)), (negb (is_null c)), nonempty; cbn; eauto.
Qed.

Lemma frontmatter_key_order_witness :
  keys [(js "2024", JStr (js "x")); (js "title", JStr (js "T")); (js "chapter", JNum 2)]
  = js "2024" :: keys [(js "title", JStr (js "T")); (js "chapter", JNum 2)]
  /\ exists others,
       [(js "2024", JStr (js "x")); (js "title", JStr (js "T")); (js "chapter", JNum 2)]
       = (js "2024", JStr (js "x")) :: others.
Proof.
  split; [reflexivity|].
  apply (proj2 (frontmatter_key_order
                  {| title := Some (JStr (js "T")); section := None;
                     chapter := Some (JNum 2); objectives := None;
                     customFields := Some [(js "2024", JStr (js "x"))] |}
                  [(js "2024", JStr (js "x")); (js "title", JStr (js "T"));
                   (js "chapter", JNum 2)] eq_refl)
           (js "2024") (JStr (js "x")) 2024%N); reflexivity.
Defined.

(** ** findDocxFiles *)

Section FindFacts.
Context {W : Type} {H : Host W}.
Variable path_resolve : text -> text.
Variable stat : text -> option entry.

Lemma walk_entry (dir name : text) (file : entry) (others : entries)
      (fileList : list text) :
  walk path_resolve dir (Entry name file others) fileList
  = if skipped name then walk path_resolve dir others fileList
    else if isDirectory file then
      rbind (getDocxFilesRecursive path_resolve (path_join [dir; name]) file fileList)
            (walk path_resolve dir others)
    else if wanted name
         then walk path_resolve dir others
                   (fileList ++ [path_resolve (path_join [dir; name])])
         else walk path_resolve dir others fileList.
Proof. reflexivity. Qed.

Lemma walk_folder (dir : text) (files : entries) (fileList : list text) :
  getDocxFilesRecursive path_resolve dir (Folder files) fileList
  = walk path_resolve dir files fileList.
Proof. reflexivity. Qed.

Lemma walk_found (files : entries) :
  forall dir fileList result,
    walk path_resolve dir files fileList = Ok result ->
    exists new, result = fileList ++ new
                /\ forall p, In p new <-> found path_resolve dir files p.
Proof.
  induction files as [ | |children IHc|err| |name e IHe others IHo] using entries_mutual
    with (P := fun e => forall dir fileList result,
                 getDocxFilesRecursive path_resolve dir e fileList = Ok result ->
                 exists children,
                   e = Folder children
                   /\ exists new, result = fileList ++ new
                                  /\ forall p, In p new
                                               <-> found path_resolve dir children p);
    cbv beta in *; intros dir fileList result E; try discriminate.
  - rewrite walk_folder in E. exists children. split; [reflexivity|]. now apply IHc.
  - injection E as <-. exists []. split; [now rewrite app_nil_r|].
    intros p. split; [intros []|intros F; inversion F].
  - rewrite walk_entry in E.
    destruct (skipped name) eqn:Es.
    { destruct (IHo _ _ _ E) as (new & -> & Hnew). exists new. split; [reflexivity|].
      intros p. rewrite Hnew. split; [apply found_later|].
      intros F. inversion F; subst; congruence. }
    destruct (isDirectory e) eqn:Ed.
    + unfold rbind in E.
      destruct (getDocxFilesRecursive path_resolve (path_join [dir; name]) e fileList)
        as [mid|err] eqn:Em; [|discriminate].
      destruct (IHe _ _ _ Em) as (children & -> & n1 & -> & H1).
      destruct (IHo _ _ _ E) as (n2 & -> & H2).
      exists (n1 ++ n2). split; [now rewrite app_assoc|].
      intros p. rewrite in_app_iff, H1, H2. split.
      * intros [F|F]; [now apply found_below|now apply found_later].
      * intros F. inversion F; subst; auto. discriminate.
    + destruct (wanted name) eqn:Ew.
      * destruct (IHo _ _ _ E) as (n2 & -> & H2).
        exists (path_resolve (path_join [dir; name]) :: n2).
        split; [now rewrite <- app_assoc|].
        intros p. cbn [In]. rewrite H2. split.
        -- intros [<-|F]; [now apply found_here|now apply found_later].
        -- intros F. inversion F; subst; auto. discriminate.
      * destruct (IHo _ _ _ E) as (n2 & -> & H2). exists n2. split; [reflexivity|].
        intros p. rewrite H2. split; [apply found_later|].
        intros F. inversion F; subst; auto; [congruence|discriminate].
Qed.

Lemma walk_blocked (files : entries) :
  forall dir fileList,
    match walk path_resolve dir files fileList with
    | Ok _ => all_readable files = true
    | Err err => blocked files err
    end.
Proof.
  induction files as [ | |children IHc|err| |name e IHe others IHo] using entries_mutual
    with (P := fun e => forall dir fileList,
                 isDirectory e = true ->
                 match getDocxFilesRecursive path_resolve dir e fileList with
                 | Ok _ => readable e = true
                 | Err err =>
                     match e with
                     | Folder children => blocked children err
                     | Locked err' => err = err'
                     | _ => False
                     end
                 end);
    cbv beta in *; intros dir fileList; try discriminate.
  - intros _. rewrite walk_folder. apply IHc.
  - intros _. reflexivity.
  - reflexivity.
  - rewrite walk_entry. cbn [all_readable].
    destruct (skipped name) eqn:Es.
    { specialize (IHo dir fileList).
      destruct (walk path_resolve dir others fileList); [exact IHo|].
      apply blocked_later; [now rewrite Es|exact IHo]. }
    destruct (isDirectory e) eqn:Ed.
    + specialize (IHe (path_join [dir; name]) fileList eq_refl). unfold rbind.
      destruct (getDocxFilesRecursive path_resolve (path_join [dir; name]) e fileList)
        as [mid|err].
      * specialize (IHo dir mid). rewrite IHe. cbn [orb andb].
        destruct (walk path_resolve dir others mid); [exact IHo|].
        apply blocked_later; [now rewrite Es, IHe|exact IHo].
      * destruct e as [| |children|err']; try contradiction.
        -- now apply blocked_below.
        -- subst. now apply blocked_here.
    + assert (Hr : readable e = true) by (destruct e; try discriminate; reflexivity).
      rewrite Hr. cbn [orb andb].
      destruct (wanted name).
      * specialize (IHo dir (fileList ++ [path_resolve (path_join [dir; name])])).
        destruct (walk path_resolve dir others _); [exact IHo|].
        apply blocked_later; [now rewrite Es, Hr|exact IHo].
      * specialize (IHo dir fileList).
        destruct (walk path_resolve dir others fileList); [exact IHo|].
        apply blocked_later; [now rewrite Es, Hr|exact IHo].
Qed.
(** X23.  findDocxFiles on a directory returns exactly the paths of the
    entries that are not directories and whose name ends with .docx in any
    letter case and does not start with the two characters of a Word lock
    file, in the directory itself and in its subdirectories, but not at or
    below an entry named node_modules or .git.  Otherwise it returns something
    only for a regular file whose path ends with .docx: that path alone (the
    lock-file test is not made there).  Every failure is reported as
    Failed to find files: followed by the cause: the error of the first
    directory that the walk cannot read, or Invalid input: and the path when
    there is nothing at the path or something that is neither a directory
    nor a file whose path ends with .docx. *)
Theorem found_files_are_wanted (inputPath : text) :
  (forall children files,
      stat inputPath = Some (Folder children) ->
      findDocxFiles path_resolve stat inputPath = Ok files ->
      forall p, In p files <-> found path_resolve inputPath children p)
  /\ (forall files,
         findDocxFiles path_resolve stat inputPath = Ok files ->
         (exists children, stat inputPath = Some (Folder children))
         \/ (stat inputPath = Some RegularFile /\ is_docx inputPath = true
             /\ files = [path_resolve inputPath]))
  /\ (forall message,
         findDocxFiles path_resolve stat inputPath = Err message ->
         exists cause,
           message = js "Failed to find files: " ++ cause
           /\ match stat inputPath with
              | Some (Folder children) => blocked children cause
              | Some (Locked err) => cause = err
              | _ => cause = js "Invalid input: " ++ inputPath
              end).
Proof.
  unfold findDocxFiles. split; [|split].
  - intros children files -> E. cbn [isDirectory] in E. rewrite walk_folder in E.
    destruct (walk path_resolve inputPath children []) as [r|e] eqn:Ew; [|discriminate].
    injection E as <-. apply walk_found in Ew as (new & -> & Hnew). exact Hnew.
  - intros files E. destruct (stat inputPath) as [[| |children|err]|];
      cbn [isDirectory isFile andb] in E; try discriminate.
    + right. destruct (is_docx inputPath); [|discriminate].
      injection E as <-. auto.
    + left. eauto.
  - intros message E. destruct (stat inputPath) as [[| |children|err]|];
      cbn [isDirectory isFile andb] in E.
    + destruct (is_docx inputPath); [discriminate|].
      injection E as <-. eexists. split; reflexivity.
    + injection E as <-. eexists. split; reflexivity.
    + rewrite walk_folder in E. pose proof (walk_blocked children inputPath []) as Hb.
      destruct (walk path_resolve inputPath children []) as [r|e]; [discriminate|].
      injection E as <-. exists e. split; [reflexivity|exact Hb].
    + cbn [getDocxFilesRecursive] in E. injection E as <-. eexists. split; reflexivity.
    + injection E as <-. eexists. split; reflexivity.
Qed.
End FindFacts.

Lemma found_files_are_wanted_witness :
  found (H := Sim.host) (fun p => p) (js "/p") project_files (js "/p/sub/B.DOCX")
  /\ ~ found (H := Sim.host) (fun p => p) (js "/p") project_files (js "/p/~$a.docx").
Proof.
  pose proof (proj1 (found_files_are_wanted (H := Sim.host) (fun p => p) project_stat
                                            (js "/p"))
                    project_files [js "/p/a.docx"; js "/p/sub/B.DOCX"]
                    eq_refl eq_refl) as T.
  split.
  - apply T. right. left. reflexivity.
  - intros F. apply T in F. cbn [In] in F.
    destruct F as [F|[F|[]]]; discriminate.
Defined.

(** ** Blank lines in prose *)

(** X24.  On a text without digits, number signs and vertical bars the result
    of postprocessMarkdown never has three line feeds in a row: paragraphs are
    separated by one blank line at most. *)
Theorem prose_keeps_one_blank_line (x : text) :
  prose x = true -> no3 (postprocessMarkdown x) = true.
Proof.
  intros Hx. rewrite (postprocess_prose x Hx). apply no3_trim, no3_collapse.
Qed.

Lemma prose_keeps_one_blank_line_witness :
  no3 (postprocessMarkdown (js "First paragraph.\n\n\n\n\nSecond paragraph.\n\n\n")) = true.
Proof.
  apply prose_keeps_one_blank_line. reflexivity.
Defined.

(** ** No two images share a file name *)

Lemma uint_digits (d : Decimal.uint) :
  forallb Chars.isDigit
          (map N_of_ascii (list_ascii_of_string (NilEmpty.string_of_uint d))) = true.
Proof. induction d; cbn; auto. Qed.

Lemma num_to_text_digits (n : N) : forallb Chars.isDigit (num_to_text n) = true.
Proof.
  unfold num_to_text, NilZero.string_of_uint.
  destruct (N.to_uint n) eqn:E; try apply uint_digits. reflexivity.
Qed.

Lemma num_to_text_inj (n m : N) : num_to_text n = num_to_text m -> n = m.
Proof.
  unfold num_to_text. intros E.
  assert (Hinj : forall a b : list ascii, map N_of_ascii a = map N_of_ascii b -> a = b).
  { induction a as [|x a IH]; intros [|y b] Hab; try discriminate; [reflexivity|].
    cbn in Hab. injection Hab as Hxy Hab. f_equal; [|now apply IH].
    rewrite <- (ascii_N_embedding x), <- (ascii_N_embedding y). now rewrite Hxy. }
  apply Hinj in E.
  apply (f_equal string_of_list_ascii) in E.
  rewrite !string_of_list_ascii_of_string in E.
  assert (Hnn : forall k, N.to_uint k <> Decimal.Nil).
  { intros [|p]; [discriminate|]. cbn. apply DecimalPos.Unsigned.to_uint_nonnil. }
  pose proof (NilZero.usu _ (Hnn n)) as Hn. pose proof (NilZero.usu _ (Hnn m)) as Hm.
  rewrite E in Hn. rewrite Hn in Hm. injection Hm as Hm.
  now apply DecimalN.Unsigned.to_uint_inj.
Qed.

Lemma digits_before_stop (a b x y : text) :
  forallb Chars.isDigit a = true -> forallb Chars.isDigit b = true ->
  a ++ 46%N :: x = b ++ 46%N :: y -> a = b.
Proof.
  revert b. induction a as [|c a IH]; intros [|d b] Ha Hb E; cbn [app] in E.
  - reflexivity.
  - injection E as <- _. cbn in Hb. discriminate.
  - injection E as -> _. cbn in Ha. discriminate.
  - injection E as <- E. cbn [forallb] in Ha, Hb.
    apply andb_true_iff in Ha as [_ Ha]. apply andb_true_iff in Hb as [_ Hb].
    f_equal. now apply IH.
Qed.

Lemma image_name_ordinal (documentName : text) (n m : N) (e1 e2 : ImageElement) :
  image_name documentName n e1 = image_name documentName m e2 -> n = m.
Proof.
  unfold image_name. intros E. apply app_inv_head in E. apply app_inv_head in E.
  apply num_to_text_inj.
  apply (digits_before_stop _ _ (extension_of e1) (extension_of e2));
    auto using num_to_text_digits.
Qed.

Section DistinctNames.
Context {W : Type} {H : Host W}.

Lemma records_from_ordinals (outputDir documentName : text) (elements : list ImageElement) :
  forall first record,
    In record (records_from outputDir documentName first elements) ->
    exists ordinal element,
      (first <= ordinal)%N /\ name record = image_name documentName ordinal element.
Proof.
  unfold records_from.
  induction elements as [|e elements IH]; intros first record Hin; [contradiction|].
  cbn [List.length ordinals combine map] in Hin. destruct Hin as [<-|Hin].
  - exists first, e. split; [lia|reflexivity].
  - destruct (IH _ _ Hin) as (ordinal & element & Hle & Hn).
    exists ordinal, element. split; [lia|exact Hn].
Qed.

Lemma records_from_distinct (outputDir documentName : text) (elements : list ImageElement) :
  forall first, NoDup (map name (records_from outputDir documentName first elements)).
Proof.
  induction elements as [|e elements IH]; intros first; [constructor|].
  unfold records_from. cbn [List.length ordinals combine map].
  constructor; [|apply IH].
  intros Hin. apply in_map_iff in Hin as (record & Hn & Hin).
  apply records_from_ordinals in Hin as (ordinal & element & Hle & Hr).
  cbn [fst snd record_of name] in Hn. rewrite Hr in Hn.
  apply image_name_ordinal in Hn. lia.
Qed.

(** X25.  The images of one document get file names that differ from one
    another, whatever the name of the document and the content types of the
    images are: the ordinal in the name tells them apart. *)
Theorem image_names_are_distinct (outputDir documentName : text)
        (elements : list ImageElement) :
  NoDup (map name (images (snd (run_handler outputDir documentName elements
                                            (createImageHandler outputDir documentName))))).
Proof.
  rewrite run_handler_from. cbn [snd images createImageHandler imageCounter app].
  apply records_from_distinct.
Qed.
End DistinctNames.

(** ** Pairs of neighbours and the rules *)

Lemma adjacent_suffix (P Q : char -> bool) (a b : text) :
  adjacent P Q (a ++ b) = false -> adjacent P Q b = false.
Proof.
  induction a as [|c a IH]; [auto|]. intros Hab. apply IH.
  exact (adjacent_tail P Q c (a ++ b) Hab).
Qed.

Lemma rule_without_pair (r : regex) (tpl : text) (P Q : char -> bool) (s : text) :
  (forall w, lang r w -> adjacent P Q w = true) ->
  adjacent P Q s = false ->
  replace_all r tpl s = s.
Proof.
  intros Hpair Hs. unfold replace_all, replace_all_with.
  apply (replace_scan_no_match _ _ (fun s => adjacent P Q s = false)); [| |exact Hs].
  - intros c t. apply adjacent_tail.
  - intros p s0 Hs0. destruct (exec_at r p s0) as [m|] eqn:E; [|reflexivity].
    apply exec_at_sound in E as (s' & -> & Hl).
    apply adjacent_prefix in Hs0. apply Hpair in Hl. congruence.
Qed.

Lemma lang_hashes (ws : list text) :
  Forall (lang (lit "#")) ws -> (1 <= List.length ws)%nat ->
  exists t, List.concat ws = ch "#" :: t.
Proof.
  intros Hws Hn. destruct Hws as [|w ws (c & -> & Hc) _]; [cbn in Hn; lia|].
  apply N.eqb_eq in Hc. subst c. cbn. eauto.
Qed.

Lemma lang_before_header_pair (w : text) :
  lang Rx.before_header w -> adjacent is_nl is_hash w = true.
Proof.
  cbn [Rx.before_header lang lit from_to Rx.whitespace].
  intros (w1 & w2 & -> & (c & -> & Hc) & wh & wsp & -> & (ws & -> & Hws & Hcnt) & _).
  destruct Hcnt as [Hcnt|Hcnt]; [lia|].
  destruct (lang_hashes ws Hws Hcnt) as (t & ->).
  cbn [app adjacent]. unfold is_nl. rewrite Hc. reflexivity.
Qed.

Lemma lang_table_row_pair (w : text) :
  lang Rx.table_row w -> adjacent is_nl is_bar w = true.
Proof.
  cbn [Rx.table_row lang lit notc plus].
  intros (w1 & w2 & -> & (c & -> & Hc) & w3 & w4 & ->
          & (w5 & w6 & -> & (b & -> & Hb) & _) & _).
  cbn [app adjacent]. unfold is_nl, is_bar. rewrite Hc, Hb. reflexivity.
Qed.

Lemma lang_subscript_pair (w : text) :
  lang Rx.subscript w -> adjacent Chars.isDigit is_underscore w = true.
Proof.
  cbn [Rx.subscript lang lit plus opt Rx.upper Rx.lower Rx.digit].
  intros (w1 & w2 & -> & _ & w3 & w4 & -> & _ & w5 & w6 & ->
          & (ds & -> & Hds & [[]|Hn]) & (u & -> & Hu)).
  apply lang_class_run in Hds as [Hds Hdl].
  assert (Hne : List.concat ds <> []).
  { intros E. rewrite E in Hdl. cbn in Hdl. lia. }
  destruct (nonempty_last _ Hne) as (a & x & E).
  assert (Hx : Chars.isDigit x = true).
  { rewrite E in Hds. now apply forallb_last in Hds. }
  rewrite E.
  replace (w1 ++ w3 ++ (a ++ [x]) ++ [u]) with ((w1 ++ w3 ++ a) ++ x :: u :: [])
    by (now rewrite <- !app_assoc).
  apply adjacent_mid; [exact Hx|exact Hu].
Qed.

(** ** A single line feed between two lines *)

Lemma lone_nl_tail (c : char) (t : text) : lone_nl (c :: t) = false -> lone_nl t = false.
Proof. cbn [lone_nl]. intros H. now apply orb_false_iff in H. Qed.

Lemma lone_nl_suffix (a b : text) : lone_nl (a ++ b) = false -> lone_nl b = false.
Proof.
  induction a as [|c a IH]; [auto|]. intros Hab. apply IH.
  exact (lone_nl_tail c (a ++ b) Hab).
Qed.

Lemma lead_app_stop (t b : text) :
  after_nl t <> [] -> lead (t ++ b) = lead t /\ after_nl (t ++ b) = after_nl t ++ b.
Proof.
  induction t as [|c t IH]; [cbn; congruence|]. cbn [app lead after_nl].
  destruct (is_nl c); [|split; reflexivity].
  intros Hne. destruct (IH Hne) as [-> ->]. split; reflexivity.
Qed.

Lemma lone_at_app (c : char) (t b : text) :
  lone_at c t = true -> lone_at c (t ++ b) = true.
Proof.
  unfold lone_at. intros H.
  apply andb_true_iff in H as [H H3]. apply andb_true_iff in H as [H1 H2].
  assert (Hne : after_nl t <> []) by (destruct (after_nl t); [discriminate|discriminate]).
  destruct (lead_app_stop t b Hne) as [-> ->].
  rewrite H1, H2. cbn [andb]. destruct (after_nl t); [discriminate|reflexivity].
Qed.

Lemma lone_nl_prefix (a b : text) : lone_nl (a ++ b) = false -> lone_nl a = false.
Proof.
  induction a as [|c a IH]; [reflexivity|]. cbn [app lone_nl].
  intros H. apply orb_false_iff in H as [H1 H2]. rewrite (IH H2), orb_false_r.
  destruct (lone_at c a) eqn:E; [|reflexivity].
  now rewrite (lone_at_app c a b E) in H1.
Qed.

Lemma lone_nl_mid (a b : text) (x y : char) :
  is_nl x = false -> is_nl y = false -> lone_nl (a ++ x :: 10%N :: y :: b) = true.
Proof.
  intros Hx Hy. induction a as [|c a IH].
  - cbn [app lone_nl]. unfold lone_at. cbn [lead after_nl].
    change (is_nl 10%N) with true. cbn iota. rewrite Hx, Hy. reflexivity.
  - cbn [app lone_nl]. rewrite IH. apply orb_true_r.
Qed.

Lemma isDot_not_nl (c : char) : Chars.isDot c = true -> is_nl c = false.
Proof.
  unfold Chars.isDot, Chars.isLineTerminator, is_nl, Chars.eqc.
  destruct (c =? ch "\n")%N eqn:E; [|reflexivity].
  apply N.eqb_eq in E. subst c. discriminate.
Qed.

Lemma lang_after_header_lone (w : text) :
  lang Rx.after_header w -> lone_nl w = true.
Proof.
  cbn [Rx.after_header lang lit plus notc from_to Rx.whitespace Rx.dot].
  intros (w1 & w2 & -> & (w3 & w4 & -> & _ & w5 & w6 & -> & _
                          & (ds & -> & Hds & [[]|Hn]))
          & w7 & w8 & -> & (n & -> & Hnl) & (b & -> & Hb)).
  apply lang_class_run in Hds as [Hds Hdl].
  assert (Hne : List.concat ds <> []).
  { intros E. rewrite E in Hdl. cbn in Hdl. lia. }
  destruct (nonempty_last _ Hne) as (a & x & E).
  assert (Hx : Chars.isDot x = true).
  { rewrite E in Hds. now apply forallb_last in Hds. }
  apply N.eqb_eq in Hnl. subst n. rewrite E.
  replace ((w3 ++ w5 ++ a ++ [x]) ++ [ch "\n"] ++ [b])
    with ((w3 ++ w5 ++ a) ++ x :: 10%N :: b :: [])
    by (rewrite <- !app_assoc; reflexivity).
  apply lone_nl_mid; [now apply isDot_not_nl|].
  unfold Chars.neqc in Hb. unfold is_nl, Chars.eqc. now apply negb_true_iff in Hb.
Qed.

Lemma after_header_without_lone (s : text) :
  lone_nl s = false -> replace_all Rx.after_header (js "$1\n\n$2") s = s.
Proof.
  intros Hs. unfold replace_all, replace_all_with.
  apply (replace_scan_no_match _ _ (fun s => lone_nl s = false)); [| |exact Hs].
  - intros c t. apply lone_nl_tail.
  - intros p s0 Hs0. destruct (exec_at Rx.after_header p s0) as [m|] eqn:E; [|reflexivity].
    apply exec_at_sound in E as (s' & -> & Hl).
    apply lone_nl_prefix in Hs0. apply lang_after_header_lone in Hl. congruence.
Qed.

(** ** The blank-line rule and the trim keep a quiet text quiet *)

Lemma collapse_head (s : text) : hd_error (collapse s) = hd_error s.
Proof.
  destruct s as [|c t]; [reflexivity|].
  destruct (Nat.ltb (lead (c :: t)) 3) eqn:El.
  - apply Nat.ltb_lt in El. now rewrite (collapse_copy c t El).
  - apply Nat.ltb_ge in El. rewrite (collapse_run _ El).
    cbn [lead] in El. destruct (is_nl c) eqn:Ec; [|lia].
    apply is_nl_eq in Ec. now subst c.
Qed.

Lemma adjacent_app_r (P Q : char -> bool) (a b : text) :
  adjacent P Q b = true -> adjacent P Q (a ++ b) = true.
Proof.
  intros Hb. destruct (adjacent P Q (a ++ b)) eqn:E; [reflexivity|].
  apply adjacent_suffix in E. congruence.
Qed.

Lemma lone_nl_app_r (a b : text) : lone_nl b = true -> lone_nl (a ++ b) = true.
Proof.
  intros Hb. destruct (lone_nl (a ++ b)) eqn:E; [reflexivity|].
  apply lone_nl_suffix in E. congruence.
Qed.

Lemma run_split (s : text) :
  (3 <= lead s)%nat ->
  exists k, s = 10%N :: 10%N :: nls k ++ 10%N :: after_nl s.
Proof.
  intros Hl. pose proof (lead_split s) as Hs.
  destruct (lead s) as [|[|[|k]]]; try lia.
  exists k. rewrite Hs at 1. cbn [nls repeat app]. do 2 f_equal.
  generalize (after_nl s). clear. intros a.
  induction k as [|k IH]; [reflexivity|].
  change (nls (S k)) with (10%N :: nls k). cbn [app]. f_equal. exact IH.
Qed.

Lemma adjacent_collapse (P Q : char -> bool) (n : nat) :
  forall s, (List.length s <= n)%nat ->
            adjacent P Q (collapse s) = true -> adjacent P Q s = true.
Proof.
  induction n as [|n IH]; intros s Hn.
  - destruct s; [cbn; discriminate|cbn in Hn; lia].
  - destruct s as [|c t]; [cbn; discriminate|].
    destruct (Nat.ltb (lead (c :: t)) 3) eqn:El.
    + apply Nat.ltb_lt in El. rewrite (collapse_copy c t El).
      cbn [List.length] in Hn. pose proof (collapse_head t) as Hh.
      destruct (collapse t) as [|b u] eqn:Ec; [cbn; discriminate|].
      destruct t as [|b' t']; [discriminate|]. cbn in Hh. injection Hh as <-.
      cbn [adjacent]. intros H. apply orb_true_iff in H as [H|H].
      * rewrite H. reflexivity.
      * apply orb_true_iff. right. change (adjacent P Q (b :: t') = true).
        apply IH; [cbn [List.length] in *; lia|]. rewrite Ec. exact H.
    + apply Nat.ltb_ge in El. rewrite (collapse_run _ El).
      destruct (run_split _ El) as (k & Hs).
      assert (Hlen : (List.length (after_nl (c :: t)) <= n)%nat).
      { rewrite Hs in Hn at 1. cbn [List.length] in Hn.
        rewrite length_app in Hn. cbn [List.length] in Hn. lia. }
      pose proof (collapse_head (after_nl (c :: t))) as Hh.
      intros H. rewrite Hs.
      change (adjacent P Q (10%N :: 10%N :: collapse (after_nl (c :: t))))
        with ((P 10%N && Q 10%N)
              || adjacent P Q (10%N :: collapse (after_nl (c :: t)))) in H.
      apply orb_true_iff in H as [H|H].
      * cbn [adjacent]. rewrite H. reflexivity.
      * apply (adjacent_app_r P Q [10%N; 10%N]). apply adjacent_app_r.
        destruct (collapse (after_nl (c :: t))) as [|b u] eqn:Ec; [cbn in H; discriminate|].
        destruct (after_nl (c :: t)) as [|b' a'] eqn:Ea; [discriminate|].
        cbn in Hh. injection Hh as <-.
        cbn [adjacent] in H. apply orb_true_iff in H as [H|H].
        -- cbn [adjacent]. rewrite H. reflexivity.
        -- apply (adjacent_app_r P Q [10%N]).
           apply IH; [exact Hlen|]. rewrite Ec. exact H.
Qed.

Lemma after_nl_fixed (s : text) : not_headed is_nl s -> after_nl s = s.
Proof. destruct s as [|c t]; [reflexivity|]. cbn. now intros ->. Qed.

Lemma collapse_not_headed (s : text) :
  not_headed is_nl s -> not_headed is_nl (collapse s).
Proof.
  intros Hs. pose proof (collapse_head s) as Hh.
  destruct (collapse s) as [|b u]; [exact I|].
  destruct s as [|c t]; [discriminate|]. cbn in Hh. injection Hh as <-. exact Hs.
Qed.

Lemma after_nl_collapse (n : nat) :
  forall s, (List.length s <= n)%nat -> after_nl (collapse s) = collapse (after_nl s).
Proof.
  induction n as [|n IH]; intros s Hn.
  - destruct s; [reflexivity|cbn in Hn; lia].
  - destruct s as [|c t]; [reflexivity|].
    destruct (Nat.ltb (lead (c :: t)) 3) eqn:El.
    + apply Nat.ltb_lt in El. rewrite (collapse_copy c t El).
      cbn [after_nl]. destruct (is_nl c).
      * apply IH. cbn [List.length] in Hn. lia.
      * now rewrite (collapse_copy c t El).
    + apply Nat.ltb_ge in El. rewrite (collapse_run _ El).
      change (after_nl (10%N :: 10%N :: collapse (after_nl (c :: t))))
        with (after_nl (collapse (after_nl (c :: t)))).
      apply after_nl_fixed, collapse_not_headed, after_nl_not_headed.
Qed.

Lemma collapse_empty (s : text) : collapse s = [] -> s = [].
Proof.
  intros E. pose proof (collapse_head s) as Hh. rewrite E in Hh.
  destruct s; [reflexivity|discriminate].
Qed.

Lemma lone_at_collapse (c : char) (t : text) :
  lone_at c (collapse t) = true -> lone_at c t = true.
Proof.
  unfold lone_at. intros H.
  apply andb_true_iff in H as [H H3]. apply andb_true_iff in H as [H1 H2].
  rewrite H1. cbn [andb].
  destruct (collapse_facts (List.length t) t (Nat.le_refl _)) as [Hl _].
  rewrite Hl in H2. apply Nat.eqb_eq in H2.
  assert (Hlead : lead t = 1%nat) by lia. rewrite Hlead. cbn [Nat.eqb andb].
  rewrite (after_nl_collapse (List.length t) t (Nat.le_refl _)) in H3.
  destruct (after_nl t) as [|b a]; [discriminate|reflexivity].
Qed.

Lemma lone_nl_collapse (n : nat) :
  forall s, (List.length s <= n)%nat -> lone_nl (collapse s) = true -> lone_nl s = true.
Proof.
  induction n as [|n IH]; intros s Hn.
  - destruct s; [cbn; discriminate|cbn in Hn; lia].
  - destruct s as [|c t]; [cbn; discriminate|].
    destruct (Nat.ltb (lead (c :: t)) 3) eqn:El.
    + apply Nat.ltb_lt in El. rewrite (collapse_copy c t El).
      cbn [lone_nl]. intros H. apply orb_true_iff in H as [H|H].
      * now rewrite (lone_at_collapse c t H).
      * rewrite (IH t); [apply orb_true_r| |exact H]. cbn [List.length] in Hn. lia.
    + apply Nat.ltb_ge in El. rewrite (collapse_run _ El).
      destruct (run_split _ El) as (k & Hs).
      assert (Hlen : (List.length (after_nl (c :: t)) <= n)%nat).
      { rewrite Hs in Hn at 1. cbn [List.length] in Hn.
        rewrite length_app in Hn. cbn [List.length] in Hn. lia. }
      intros H. rewrite Hs.
      apply (lone_nl_app_r [10%N; 10%N]). apply lone_nl_app_r.
      apply (lone_nl_app_r [10%N]). apply IH; [exact Hlen|].
      cbn [lone_nl] in H. unfold lone_at in H.
      change (is_nl 10%N) with true in H. cbn [negb andb orb] in H. exact H.
Qed.

Lemma quiet_spec (s : text) :
  quiet s = true
  <-> adjacent is_nl is_hash s = false
      /\ (forallb (fun c => negb (is_hash c)) s = true \/ lone_nl s = false)
      /\ adjacent is_nl is_bar s = false
      /\ adjacent Chars.isDigit is_underscore s = false
      /\ (adjacent letter Chars.isDigit s = false
          \/ adjacent Chars.isDigit Chars.isUpper s = false).
Proof.
  unfold quiet.
  rewrite !andb_true_iff, !orb_true_iff, !negb_true_iff. tauto.
Qed.

(** A text that is got from a quiet one by leaving out code units at the
    ends, or line feeds from runs of three or more, is quiet. *)
Lemma quiet_kept (f : text -> text) :
  (forall P Q s, adjacent P Q (f s) = true -> adjacent P Q s = true) ->
  (forall s, forallb (fun c => negb (is_hash c)) s = true ->
             forallb (fun c => negb (is_hash c)) (f s) = true) ->
  (forall s, lone_nl (f s) = true -> lone_nl s = true) ->
  forall s, quiet s = true -> quiet (f s) = true.
Proof.
  intros Ha Hf Hl s. rewrite !quiet_spec.
  assert (Ha' : forall P Q, adjacent P Q s = false -> adjacent P Q (f s) = false).
  { intros P Q H. destruct (adjacent P Q (f s)) eqn:E; [|reflexivity].
    apply Ha in E. congruence. }
  assert (Hl' : lone_nl s = false -> lone_nl (f s) = false).
  { intros H. destruct (lone_nl (f s)) eqn:E; [|reflexivity]. apply Hl in E. congruence. }
  intros (H1 & H2 & H3 & H4 & H5). repeat split; auto.
  - destruct H2; auto.
  - destruct H5; auto.
Qed.

Lemma quiet_collapse (s : text) : quiet s = true -> quiet (collapse s) = true.
Proof.
  apply (quiet_kept collapse).
  - intros P Q x. apply (adjacent_collapse P Q (List.length x)). apply Nat.le_refl.
  - intros x Hx. apply forallb_collapse; [reflexivity|exact Hx].
  - intros x. apply (lone_nl_collapse (List.length x)). apply Nat.le_refl.
Qed.

Lemma quiet_trim (s : text) : quiet s = true -> quiet (trim s) = true.
Proof.
  apply (quiet_kept trim).
  - intros P Q x H. unfold trim in H.
    destruct (trimStart_suffix x) as (d1 & E1).
    destruct (trimEnd_prefix (trimStart x)) as (d2 & E2).
    rewrite E1. apply adjacent_app_r. rewrite E2.
    destruct (adjacent P Q (trimEnd (trimStart x) ++ d2)) eqn:E; [reflexivity|].
    apply adjacent_prefix in E. congruence.
  - intros x. apply forallb_trim.
  - intros x H. unfold trim in H.
    destruct (trimStart_suffix x) as (d1 & E1).
    destruct (trimEnd_prefix (trimStart x)) as (d2 & E2).
    rewrite E1. apply lone_nl_app_r. rewrite E2.
    destruct (lone_nl (trimEnd (trimStart x) ++ d2)) eqn:E; [reflexivity|].
    apply lone_nl_prefix in E. congruence.
Qed.

(** ** On a quiet text only the blank-line rule and the trim act *)

Lemma after_header_quiet (s : text) :
  forallb (fun c => negb (is_hash c)) s = true \/ lone_nl s = false ->
  replace_all Rx.after_header (js "$1\n\n$2") s = s.
Proof.
  intros [H|H].
  - exact (replace_all_needs (Chars.eqc (ch "#")) Rx.after_header _ _ needs_after_header H).
  - now apply after_header_without_lone.
Qed.

Lemma later_rules_quiet (s : text) :
  quiet s = true ->
  replace_all Rx.formula (js "$$$&$$")
    (replace_all Rx.subscript (js "$1_$2")
       (replace_all Rx.table_row (js "\n$1\n\n$2")
          (replace_all Rx.after_header (js "$1\n\n$2")
             (replace_all Rx.before_header (js "\n\n$1") s))))
  = s.
Proof.
  intros H. apply quiet_spec in H as (H1 & H2 & H3 & H4 & H5).
  rewrite (rule_without_pair Rx.before_header _ is_nl is_hash s
             lang_before_header_pair H1).
  rewrite (after_header_quiet s H2).
  rewrite (rule_without_pair Rx.table_row _ is_nl is_bar s lang_table_row_pair H3).
  rewrite (rule_without_pair Rx.subscript _ Chars.isDigit is_underscore s
             lang_subscript_pair H4).
  destruct H5 as [H5|H5].
  - apply (rule_without_pair Rx.formula _ letter Chars.isDigit); [|exact H5].
    intros w Hw. now apply lang_formula_pairs.
  - apply (rule_without_pair Rx.formula _ Chars.isDigit Chars.isUpper); [|exact H5].
    intros w Hw. now apply lang_formula_pairs.
Qed.

Lemma postprocess_quiet (s : text) :
  quiet (collapse s) = true -> postprocessMarkdown s = trim (collapse s).
Proof.
  intros H. unfold postprocessMarkdown. fold (collapse s).
  now rewrite (later_rules_quiet _ H).
Qed.

Lemma postprocess_fixed (y : text) :
  quiet y = true -> no3 y = true -> trim y = y -> postprocessMarkdown y = y.
Proof.
  intros Hq Hn Ht. rewrite postprocess_quiet; rewrite (collapse_no3 _ Hn); auto.
Qed.

(** Prose, a text without digits, number signs and vertical bars, is
    quiet. *)
Lemma prose_quiet (s : text) : prose s = true -> quiet s = true.
Proof.
  intros Hs. apply quiet_spec.
  assert (Hh : forallb (fun c => negb (is_hash c)) s = true)
    by exact (prose_free _ _ prose_no_hash Hs).
  assert (Hb : forallb (fun c => negb (is_bar c)) s = true)
    by exact (prose_free _ _ prose_no_bar Hs).
  assert (Hd : forallb (fun c => negb (Chars.isDigit c)) s = true)
    by exact (prose_free _ _ prose_no_digit Hs).
  repeat split; auto using adjacent_no_first, adjacent_no_second.
Qed.

(** ** Idempotence of the post-processor *)

(** C2, as the code has it.  postprocessMarkdown is idempotent wherever its
    rules find nothing to do in their own output.  On a quiet text (no line
    feed directly before a number sign or a vertical bar; no number sign, or
    no single line feed between two lines; no digit directly before an
    underscore; no letter directly before a digit, or no digit directly
    before a capital letter) only the blank-line rule and the trim act, and
    a second pass changes nothing.  More generally, whatever the first pass
    did, a second pass changes nothing when the result of the first is quiet
    and has no three line feeds in a row. *)
Theorem postprocess_idempotent_when_quiet (x : text) :
  (quiet x = true ->
   postprocessMarkdown x = trim (collapse x)
   /\ postprocessMarkdown (postprocessMarkdown x) = postprocessMarkdown x)
  /\ (quiet (postprocessMarkdown x) = true ->
      no3 (postprocessMarkdown x) = true ->
      postprocessMarkdown (postprocessMarkdown x) = postprocessMarkdown x).
Proof.
  assert (Hfix : quiet (postprocessMarkdown x) = true ->
                 no3 (postprocessMarkdown x) = true ->
                 postprocessMarkdown (postprocessMarkdown x) = postprocessMarkdown x).
  { intros Hq Hn. apply postprocess_fixed; [exact Hq|exact Hn|].
    unfold postprocessMarkdown at 2. apply trim_idem. }
  split; [|exact Hfix].
  intros Hx.
  assert (E : postprocessMarkdown x = trim (collapse x))
    by (apply postprocess_quiet, quiet_collapse, Hx).
  split; [exact E|]. apply Hfix; rewrite E.
  - apply quiet_trim, quiet_collapse, Hx.
  - apply no3_trim, no3_collapse.
Qed.

Lemma postprocess_idempotent_when_quiet_witness :
  postprocessMarkdown (postprocessMarkdown (js "  Chapter 12:\n\n\n\nCO2 and O2, pH 7.\n"))
  = postprocessMarkdown (js "  Chapter 12:\n\n\n\nCO2 and O2, pH 7.\n")
  /\ postprocessMarkdown (js "# Water\nThe formula is H_2_O.")
     = js "# Water\n\nThe formula is H_2O."
  /\ postprocessMarkdown (postprocessMarkdown (js "# Water\nThe formula is H_2_O."))
     = postprocessMarkdown (js "# Water\nThe formula is H_2_O.").
Proof.
  split; [|split].
  - apply (proj1 (postprocess_idempotent_when_quiet
                    (js "  Chapter 12:\n\n\n\nCO2 and O2, pH 7.\n"))).
    reflexivity.
  - vm_compute. reflexivity.
  - apply (proj2 (postprocess_idempotent_when_quiet (js "# Water\nThe formula is H_2_O.")));
      vm_compute; reflexivity.
Defined.
